(** * Drone detection API: feature extraction, TDOA, multilateration, scanning

    A shallow embedding of the numerical core of the repository
    ([audio_processor.py], [model_loader.py], [app.py]) and the properties
    the specification states about it.

    Conventions.
    - Sample counts, indices and sample rates are integers ([Z], [nat]).
    - 64-bit floating-point values are idealised: rounding and overflow are
      not modelled.  The TDOA estimator, the position solver and the class
      probabilities are studied on finite values and work on real numbers
      ([R]); sample rates are positive there, and the one division whose
      divisor depends on the samples, the parabolic refinement, is shown
      not to divide by zero.  The feature extractor works on [float], a
      real number or NaN, because the specification speaks about non-finite
      samples there; NaN stands for any non-finite value and is absorbing
      for every operation.
    - A Python exception is the [Raise] branch of [result]; a function that
      returns a pair [(value, error)] returns that pair here. *)

From Stdlib Require Import Reals Lra Lia ZArith QArith String DecimalString Bool List.
Import ListNotations.

Open Scope R_scope.

(** ** Exceptions *)

Inductive result (A : Type) : Type :=
| Ok (a : A)
| Raise (msg : string).

Arguments Ok {A} a.
Arguments Raise {A} msg.

Definition bind {A B : Type} (m : result A) (k : A -> result B) : result B :=
  match m with
  | Ok a => k a
  | Raise e => Raise e
  end.

Notation "x <- m ;; k" := (bind m (fun x => k))
  (at level 61, m at next level, right associativity).
Notation "' p <- m ;; k" := (bind m (fun x => match x with p => k end))
  (at level 61, p pattern, m at next level, right associativity).

(** [for x in xs: body], threading the loop state [s]; the first exception
    leaves the loop. *)
Fixpoint for_each {A S : Type} (xs : list A) (body : S -> A -> result S)
  (s : S) : result S :=
  match xs with
  | [] => Ok s
  | x :: rest => s' <- body s x ;; for_each rest body s'
  end.

(** ** Python and numpy primitives *)

Module py.

(** [range(start, stop, step)]: a zero step is a [ValueError]. *)
Definition range (start stop step : Z) : result (list Z) :=
  if (step =? 0)%Z then Raise "range() arg 3 must not be zero"
  else if (0 <? step)%Z then
    let n := ((stop - start + step - 1) / step)%Z in
    Ok (map (fun i => (start + Z.of_nat i * step)%Z) (seq 0 (Z.to_nat n)))
  else
    let n := ((start - stop - step - 1) / (- step))%Z in
    Ok (map (fun i => (start + Z.of_nat i * step)%Z) (seq 0 (Z.to_nat n))).

(** [xs[i]] for a non-negative index. *)
Definition getitem {A : Type} (xs : list A) (i : nat) : result A :=
  match nth_error xs i with
  | Some x => Ok x
  | None => Raise "index out of range"
  end.

(** [xs[start:stop]] for non-negative bounds. *)
Definition slice {A : Type} (xs : list A) (start stop : Z) : list A :=
  firstn (Z.to_nat (stop - start)) (skipn (Z.to_nat start) xs).

(** [int(q)]: truncation towards zero. *)
Definition int (q : Q) : Z := Z.quot (Qnum q) (Zpos (Qden q)).

(** [round(x)] of a float: to the nearest integer, ties to the even one. *)
Definition round (x : R) : Z :=
  let f := Zfloor x in
  let d := x - IZR f in
  if Rlt_dec d (1 / 2) then f
  else if Rlt_dec (1 / 2) d then (f + 1)%Z
  else if Z.even f then f else (f + 1)%Z.

(** [str(n)] of a natural number. *)
Definition str (n : nat) : string := NilEmpty.string_of_uint (Nat.to_uint n).

End py.


(** ** Floating-point values that may be NaN *)

Inductive float : Type :=
| Num (r : R)
| NaN.

Definition lift2 (op : R -> R -> R) (x y : float) : float :=
  match x, y with
  | Num a, Num b => Num (op a b)
  | _, _ => NaN
  end.

Definition fadd : float -> float -> float := lift2 Rplus.
Definition fsub : float -> float -> float := lift2 Rminus.
Definition fmul : float -> float -> float := lift2 Rmult.

(** Division; a zero divisor, which numpy answers with inf or nan and a
    warning, gives NaN. *)
Definition fdiv (x y : float) : float :=
  match x, y with
  | Num a, Num b => if Req_dec_T b 0 then NaN else Num (a / b)
  | _, _ => NaN
  end.

Definition fsqrt (x : float) : float :=
  match x with
  | Num a => if Rlt_dec a 0 then NaN else Num (sqrt a)
  | NaN => NaN
  end.

Definition flog10 (x : float) : float :=
  match x with
  | Num a => if Rlt_dec 0 a then Num (ln a / ln 10) else NaN
  | NaN => NaN
  end.

Definition is_nan (x : float) : bool :=
  match x with NaN => true | Num _ => false end.

Definition Rltb (x y : R) : bool := if Rlt_dec x y then true else false.
Definition Rleb (x y : R) : bool := if Rle_dec x y then true else false.

Module np.

(** A one- or two-dimensional array of samples; a two-dimensional waveform
    has shape (samples, channels). *)
Inductive ndarray : Type :=
| Arr1 (samples : list R)
| Arr2 (channels : nat) (frames : list (list R)).

Definition ndim (a : ndarray) : nat :=
  match a with Arr1 _ => 1 | Arr2 _ _ => 2 end.

(** The channel count the estimator reports:
    [a.shape[1] if a.ndim > 1 else 1]. *)
Definition channels_of (a : ndarray) : nat :=
  match a with Arr1 _ => 1 | Arr2 channels _ => channels end.

(** [len(a)] *)
Definition samples_of (a : ndarray) : nat :=
  match a with Arr1 samples => length samples | Arr2 _ frames => length frames end.

(** Every frame of a two-dimensional waveform has one sample per channel. *)
Definition well_formed (a : ndarray) : Prop :=
  match a with
  | Arr1 _ => True
  | Arr2 channels frames => Forall (fun row => length row = channels) frames
  end.

(** [a[:, i]] *)
Definition column (frames : list (list R)) (i : nat) : list R :=
  map (fun row => nth i row 0) frames.

(** [np.max] of a flat list: empty input is a [ValueError]. *)
Definition max (xs : list R) : result R :=
  match xs with
  | [] => Raise "zero-size array to reduction operation maximum which has no identity"
  | x :: rest => Ok (fold_left Rmax rest x)
  end.

(** [np.argmax]: the first index holding the largest value. *)
Fixpoint argmax_from (best : R) (best_i i : nat) (xs : list R) : nat :=
  match xs with
  | [] => best_i
  | x :: rest =>
      if Rlt_dec best x then argmax_from x i (S i) rest
      else argmax_from best best_i (S i) rest
  end.

Definition argmax (xs : list R) : result nat :=
  match xs with
  | [] => Raise "attempt to get argmax of an empty sequence"
  | x :: rest => Ok (argmax_from x 0 1 rest)
  end.

(** Samples of [a] at a signed index, zero outside the array. *)
Definition at_or_zero (a : list R) (i : Z) : R :=
  if (i <? 0)%Z then 0 else nth (Z.to_nat i) a 0.

Definition sum (xs : list R) : R := fold_right Rplus 0 xs.

(** [np.correlate(a, v, mode='full')]:
    [c[k] = sum_n a[n + k - (len(v) - 1)] * v[n]], [0 <= k < len(a)+len(v)-1],
    with [a] read as zero outside its bounds. *)
Definition correlate_full (a v : list R) : result (list R) :=
  match a, v with
  | [], _ | _, [] => Raise "inputs cannot be empty"
  | _, _ =>
      let m := length v in
      Ok (map (fun k =>
                 sum (map (fun n =>
                             at_or_zero a (Z.of_nat n + Z.of_nat k - (Z.of_nat m - 1))
                             * nth n v 0)
                          (seq 0 m)))
              (seq 0 (length a + m - 1)))
  end.

(** [np.linalg.lstsq(A, b, rcond=None)[0]] for two equations in two
    unknowns, in exact arithmetic: the solution of smallest norm among the
    minimisers of [|A p - b|], that is the pseudo-inverse of [A] applied
    to [b]. *)
Definition lstsq (A b : list (list R)) : result (list (list R)) :=
  match A, b with
  | [[a11; a12]; [a21; a22]], [[b1]; [b2]] =>
      let det := a11 * a22 - a12 * a21 in
      if Req_dec_T det 0 then
        let n := a11 * a11 + a12 * a12 + a21 * a21 + a22 * a22 in
        if Req_dec_T n 0 then Ok [[0]; [0]]
        else Ok [[(a11 * b1 + a21 * b2) / n]; [(a12 * b1 + a22 * b2) / n]]
      else
        Ok [[(a22 * b1 - a12 * b2) / det]; [(a11 * b2 - a21 * b1) / det]]
  | _, _ => Raise "LinAlgError"
  end.

(** [m.flatten()] *)
Definition flatten (m : list (list R)) : list R := concat m.

End np.

(** ** scipy and numpy routines used by the feature extractor *)

Definition matrix : Type := list (list float).

Module npf.

Definition sum (xs : list float) : float := fold_right fadd (Num 0) xs.

(** [m.shape[1]] *)
Definition shape1 (m : matrix) : nat := length (hd [] m).

(** [m.mean()] over every cell. *)
Definition mean (m : matrix) : float :=
  let cells := concat m in
  fdiv (sum cells) (Num (INR (length cells))).

(** [m.std()]: the population standard deviation over every cell. *)
Definition std (m : matrix) : float :=
  let mu := mean m in
  let cells := concat m in
  fsqrt (fdiv (sum (map (fun x => fmul (fsub x mu) (fsub x mu)) cells))
              (Num (INR (length cells)))).

(** [np.dot(a, b)] of a real matrix with a matrix of samples. *)
Definition dot (a : list (list R)) (b : matrix) : matrix :=
  map (fun row =>
         map (fun t =>
                sum (map (fun '(w, brow) => fmul (Num w) (nth t brow (Num 0)))
                         (combine row b)))
             (seq 0 (shape1 b)))
      a.

(** [np.linspace(a, b, num)] *)
Definition linspace (a b : R) (num : nat) : list R :=
  map (fun j => a + INR j * ((b - a) / INR (num - 1))) (seq 0 num).

(** [get_window('hann', n)]: the periodic Hann window. *)
Definition hann (n : nat) : list R :=
  map (fun k => 1 / 2 - 1 / 2 * cos (2 * PI * INR k / INR n)) (seq 0 n).

(** Magnitude of bin [f] of the discrete Fourier transform of [xs]. *)
Definition dft_magnitude (xs : list float) (f : nat) : float :=
  let n := length xs in
  let angle k := 2 * PI * INR f * INR k / INR n in
  let re := sum (map (fun '(k, x) => fmul x (Num (cos (angle k))))
                     (combine (seq 0 n) xs)) in
  let im := sum (map (fun '(k, x) => fmul x (Num (sin (angle k))))
                     (combine (seq 0 n) xs)) in
  fsqrt (fadd (fmul re re) (fmul im im)).

(** [scipy.signal.spectrogram(x, fs, window='hann', nperseg, noverlap,
    scaling='density', mode='magnitude')[2]], of shape (bins, frames).
    A segment longer than the input is shortened to the input with a
    warning; an overlap that is not smaller than the segment is a
    [ValueError].  Each segment has its mean removed, is windowed and
    transformed; [nperseg // 2 + 1] bins are kept.  (For an empty input
    the library returns empty one-dimensional arrays, on which the caller's
    [shape[1]] raises; the two steps are one [Raise] here.) *)
Definition spectrogram (x : list float) (fs : Z) (nperseg noverlap : nat)
  : result matrix :=
  let n := length x in
  if (n =? 0)%nat then Raise "tuple index out of range"
  else
    let nperseg := if (n <? nperseg)%nat then n else nperseg in
    if (nperseg <=? noverlap)%nat then Raise "noverlap must be less than nperseg."
    else
      let step := (nperseg - noverlap)%nat in
      let frames := ((n - noverlap) / step)%nat in
      let bins := (nperseg / 2 + 1)%nat in
      let win := hann nperseg in
      let scale := sqrt (1 / (IZR fs * np.sum (map (fun w => w * w) win))) in
      let segment t := firstn nperseg (skipn (t * step) x) in
      let detrend seg :=
        let mu := fdiv (sum seg) (Num (INR (length seg))) in
        map (fun s => fsub s mu) seg in
      let windowed t :=
        map (fun '(w, s) => fmul (Num w) s) (combine win (detrend (segment t))) in
      Ok (map (fun f =>
                 map (fun t => fmul (dft_magnitude (windowed t) f) (Num scale))
                     (seq 0 frames))
              (seq 0 bins)).

(** Linear interpolation of [input] at real coordinates [(r, c)]; cells
    outside the array count as 0. *)
Definition interpolate (input : matrix) (r c : R) : float :=
  let i := Z.to_nat (Zfloor r) in
  let j := Z.to_nat (Zfloor c) in
  let u := r - IZR (Zfloor r) in
  let v := c - IZR (Zfloor c) in
  let cell a b := nth b (nth a input []) (Num 0) in
  fadd (fadd (fmul (Num ((1 - u) * (1 - v))) (cell i j))
             (fmul (Num ((1 - u) * v)) (cell i (S j))))
       (fadd (fmul (Num (u * (1 - v))) (cell (S i) j))
             (fmul (Num (u * v)) (cell (S i) (S j)))).

(** [scipy.ndimage.zoom(input, zoom, order=1)]: the output has
    [round(size * factor)] cells along each axis, and output cell [k] of an
    axis reads the input at [k * (size - 1) / (out - 1)]. *)
Definition zoom (input : matrix) (factor : R * R) : matrix :=
  let rows := length input in
  let cols := shape1 input in
  let out_rows := Z.to_nat (py.round (INR rows * fst factor)) in
  let out_cols := Z.to_nat (py.round (INR cols * snd factor)) in
  let scale size out :=
    if (out - 1 =? 0)%nat then 1 else INR (size - 1) / INR (out - 1) in
  map (fun i =>
         map (fun j =>
                interpolate input (INR i * scale rows out_rows)
                                  (INR j * scale cols out_cols))
             (seq 0 out_cols))
      (seq 0 out_rows).

End npf.

(** What [soundfile.read] decodes: a one-dimensional array of samples or a
    two-dimensional array of shape (frames, channels). *)
Inductive waveform : Type :=
| Mono (samples : list float)
| Multi (channels : nat) (frames : list (list float)).

(** ** audio_processor.py *)

Module audio_processor.

Inductive dtype : Type := float32 | float64.

Record tensor : Type := { dt : dtype; data : list matrix }.

(** [AudioProcessor.__init__] *)
Definition target_duration : Q := 3.
Definition n_mels : nat := 64.
Definition hop_length : nat := 256.
Definition n_fft : nat := 1024.
Definition expected_time_frames : nat := 259.

Definition preprocess_audio (y : list float) (sr : Z) : list float :=
  let target_samples := py.int (inject_Z sr * target_duration) in
  if (Z.of_nat (length y) <? target_samples)%Z then
    y ++ repeat (Num 0) (Z.to_nat (target_samples - Z.of_nat (length y)))
  else firstn (Z.to_nat target_samples) y.

Definition hz_to_mel (frequency : R) : R :=
  2595 * (ln (1 + frequency / 700) / ln 10).

Definition mel_to_hz (mel : R) : R :=
  700 * (Rpower 10 (mel / 2595) - 1).

Definition create_mel_filterbank (sr : Z) (n_mels n_fft_bins : nat)
  : list (list R) :=
  let low_freq := 0 in
  let high_freq := IZR sr / 2 in
  let low_mel := hz_to_mel low_freq in
  let high_mel := hz_to_mel high_freq in
  let mel_points := npf.linspace low_mel high_mel (n_mels + 2) in
  let hz_points := map mel_to_hz mel_points in
  let fft_bins :=
    map (fun hz => Zfloor ((INR n_fft_bins + 1) * hz / IZR sr)) hz_points in
  map (fun i =>
         let left := nth i fft_bins 0%Z in
         let center := nth (i + 1) fft_bins 0%Z in
         let right := nth (i + 2) fft_bins 0%Z in
         let rising := npf.linspace 0 1 (Z.to_nat (center - left)) in
         let falling := npf.linspace 1 0 (Z.to_nat (right - center)) in
         let enorm := 2 / (nth (i + 2) hz_points 0 - nth i hz_points 0) in
         map (fun j =>
                let k := Z.of_nat j in
                let cell :=
                  if ((left <? center) && (center <? right))%Z then
                    if ((left <=? k) && (k <? center))%Z
                    then nth (Z.to_nat (k - left)) rising 0
                    else if ((center <=? k) && (k <? right))%Z
                         then nth (Z.to_nat (k - center)) falling 0
                         else 0
                  else 0 in
                cell * enorm)
             (seq 0 n_fft_bins))
      (seq 0 n_mels).

Definition linear_to_mel (spectrogram : matrix) (sr : Z) (n_mels : nat)
  : matrix :=
  let mel_filters := create_mel_filterbank sr n_mels (length spectrogram) in
  npf.dot mel_filters spectrogram.

Definition resize_to_target (features : matrix) (target_frames : nat)
  : result matrix :=
  let current_frames := npf.shape1 features in
  if (current_frames =? target_frames)%nat then Ok features
  else if (current_frames =? 0)%nat then Raise "division by zero"
  else
    let zoom_factor := (1, INR target_frames / INR current_frames) in
    let resized := npf.zoom features zoom_factor in
    if (target_frames <? npf.shape1 resized)%nat then
      Ok (map (firstn target_frames) resized)
    else if (npf.shape1 resized <? target_frames)%nat then
      let padding := (target_frames - npf.shape1 resized)%nat in
      Ok (map (fun row =>
                 let last_frame := skipn (length row - 1) row in
                 row ++ concat (map (fun x => repeat x padding) last_frame))
              resized)
    else Ok resized.

(** [10 * np.log10(mel_spectrum + 1e-10)] *)
Definition to_db (mel_spectrum : matrix) : matrix :=
  map (map (fun x => fmul (Num 10) (flog10 (fadd x (Num 1e-10))))) mel_spectrum.

(** [(mel_db - mel_db.mean()) / (mel_db.std() + 1e-8)] *)
Definition normalize (mel_db : matrix) : matrix :=
  let mu := npf.mean mel_db in
  let sigma := npf.std mel_db in
  map (map (fun x => fdiv (fsub x mu) (fadd sigma (Num 1e-8)))) mel_db.

Definition extract_features (y : list float) (sr : Z) : result tensor :=
  let body :=
    let y_processed := preprocess_audio y sr in
    Sxx <- npf.spectrogram y_processed sr n_fft (n_fft - hop_length) ;;
    let mel_spectrum := linear_to_mel Sxx sr n_mels in
    let mel_db := to_db mel_spectrum in
    let current_frames := npf.shape1 mel_db in
    mel_db <- (if negb (current_frames =? expected_time_frames)%nat
               then resize_to_target mel_db expected_time_frames
               else Ok mel_db) ;;
    let mel_db := normalize mel_db in
    let mel_3channel := repeat mel_db 3 in
    Ok {| dt := float32; data := mel_3channel |} in
  match body with
  | Ok features => Ok features
  | Raise e => Raise ("Feature extraction failed: " ++ e)
  end.

(** [self.sr] *)
Definition sr : Z := 22050.

(** [scipy.signal.resample] is kept as an oracle [signal_resample] from the
    samples and the requested length to the resampled samples. *)
Definition resample_audio (signal_resample : list float -> Z -> result (list float))
  (audio_data : list float) (orig_sr target_sr : Z) : result (list float) :=
  let body :=
    if (orig_sr =? 0)%Z then Raise "division by zero"
    else
      let duration := (inject_Z (Z.of_nat (length audio_data)) / inject_Z orig_sr)%Q in
      let new_length := py.int (duration * inject_Z target_sr) in
      signal_resample audio_data new_length in
  match body with
  | Ok resampled => Ok resampled
  | Raise e => Raise ("Resampling failed: " ++ e)
  end.

(** [sf_read] is the outcome of [sf.read(file_obj)]: the decoded waveform
    and its sample rate, or the exception of the decoder. *)
Definition load_audio_from_fileobj (sf_read : result (waveform * Z))
  (signal_resample : list float -> Z -> result (list float))
  : result (waveform * Z) :=
  let body :=
    '(audio_data, original_sr) <- sf_read ;;
    let audio_data :=
      match audio_data with
      | Mono samples => samples
      | Multi _ frames =>
          map (fun row => fdiv (npf.sum row) (Num (INR (length row)))) frames
      end in
    audio_data <- (if negb (original_sr =? sr)%Z
                   then resample_audio signal_resample audio_data original_sr sr
                   else Ok audio_data) ;;
    Ok (Mono audio_data, sr) in
  match body with
  | Ok loaded => Ok loaded
  | Raise e => Raise ("Audio loading failed: " ++ e)
  end.

End audio_processor.

(** ** model_loader.py *)

Module model_loader.

(** The trained network is an oracle: a forward pass yields the two class
    logits or raises. *)
Definition network : Type := list matrix -> result (R * R).

Record ModelLoader : Type := { model : option network }.

Record prediction : Type := {
  is_drone : bool;
  confidence : R;
  class_probabilities : R * R; (* (non_drone, drone) *)
  predicted_class : string;
  raw_drone_probability : R;
  threshold_used : R
}.

Definition class_names : list string := ["non_drone"; "drone"]%string.

(** [torch.softmax] over the two logits. *)
Definition softmax (logits : R * R) : R * R :=
  let '(z0, z1) := logits in
  (exp z0 / (exp z0 + exp z1), exp z1 / (exp z0 + exp z1)).

Definition predict (self : ModelLoader) (features : audio_processor.tensor)
  (threshold : R) : result prediction :=
  match model self with
  | None => Raise "Model not loaded"
  | Some net =>
      let body :=
        outputs <- net (audio_processor.data features) ;;
        let prob_np := softmax outputs in
        let confidence := Rmax (fst prob_np) (snd prob_np) in
        let predicted := if Rlt_dec (fst prob_np) (snd prob_np) then 1%nat else 0%nat in
        let is_drone := Rleb threshold (snd prob_np) in
        Ok {| is_drone := is_drone;
              confidence := confidence;
              class_probabilities := prob_np;
              predicted_class := nth predicted class_names ""%string;
              raw_drone_probability := snd prob_np;
              threshold_used := threshold |} in
      match body with
      | Ok r => Ok r
      | Raise e => Raise ("Prediction failed: " ++ e)
      end
  end.

(** An entry of the list [predict_batch] returns: a prediction, or
    [{'error': str(e), 'status': 'error'}]. *)
Inductive batch_entry : Type :=
| Predicted (r : prediction)
| Failed (error : string).

Definition predict_batch (self : ModelLoader)
  (features_list : list audio_processor.tensor) : list batch_entry :=
  fold_left
    (fun results features =>
       match predict self features 0.5 with
       | Ok r => results ++ [Predicted r]
       | Raise e => results ++ [Failed e]
       end)
    features_list [].

End model_loader.

(** ** app.py: TDOA estimation and multilateration *)

Module app.

(** [class LocalizationConfig] *)
Definition MIC_POSITIONS : list (R * R) := [(0, 0); (0.5, 0); (0, 0.5)].
Definition SOUND_SPEED : R := 343.

(** The delay of one channel against the reference in [calculate_tdoa]:
    the lag of the largest correlation, a whole number of samples. *)
Definition integer_tdoa (ref_channel channel : list R) (sr : Z) : result R :=
  correlation <- np.correlate_full ref_channel channel ;;
  peak <- np.argmax correlation ;;
  let lag := (Z.of_nat peak - (Z.of_nat (length ref_channel) - 1))%Z in
  Ok (IZR lag / IZR sr).

Definition calculate_tdoa (audio_data : np.ndarray) (sr : Z)
  : option (list R) * option string :=
  match audio_data with
  | np.Arr1 _ => (None, Some "Audio must have at least 3 channels for localization"%string)
  | np.Arr2 channels frames =>
      if (channels <? 3)%nat
      then (None, Some "Audio must have at least 3 channels for localization"%string)
      else
        let body :=
          let ref_channel := np.column frames 0 in
          for_each [1%nat; 2%nat]
            (fun tdoas i =>
               tdoa <- integer_tdoa ref_channel (np.column frames i) sr ;;
               Ok (tdoas ++ [tdoa]))
            [] in
        match body with
        | Ok tdoas => (Some tdoas, None)
        | Raise e => (None, Some e)
        end
  end.

Definition localize_drone (tdoas : option (list R))
  (mic_positions : list (R * R)) (sound_speed : R)
  : option (list R) * option string :=
  match tdoas with
  | None => (None, Some "Invalid TDOA data"%string)
  | Some tdoas =>
      if negb (length tdoas =? 2)%nat then (None, Some "Invalid TDOA data"%string)
      else
        let body :=
          let distances := map (fun t => t * sound_speed) tdoas in
          '(x0, y0) <- py.getitem mic_positions 0 ;;
          '(x1, y1) <- py.getitem mic_positions 1 ;;
          '(x2, y2) <- py.getitem mic_positions 2 ;;
          let A := [[2 * (x1 - x0); 2 * (y1 - y0)];
                    [2 * (x2 - x0); 2 * (y2 - y0)]] in
          let b :=
            [[nth 0 distances 0 * nth 0 distances 0
              - (x1 * x1 + y1 * y1) + (x0 * x0 + y0 * y0)];
             [nth 1 distances 0 * nth 1 distances 0
              - (x2 * x2 + y2 * y2) + (x0 * x0 + y0 * y0)]] in
          position <- np.lstsq A b ;;
          Ok (np.flatten position) in
        match body with
        | Ok position => (Some position, None)
        | Raise e => (None, Some e)
        end
  end.

(** [max_physical_delay = 2.0 / 343.0] *)
Definition max_physical_delay : R := 2 / 343.

(** The delay of one channel against the reference, before the physical
    check: cross-correlation, peak of the absolute correlation, parabolic
    refinement away from the two ends, lag relative to [len(ref) - 1]. *)
Definition refined_tdoa (ref_channel channel : list R) (sr : Z) : result R :=
  correlation <- np.correlate_full ref_channel channel ;;
  peak_idx <- np.argmax (map Rabs correlation) ;;
  let peak :=
    if ((0 <? Z.of_nat peak_idx) &&
        (Z.of_nat peak_idx <? Z.of_nat (length correlation) - 1))%Z
    then
      let y1 := nth (peak_idx - 1) correlation 0 in
      let y2 := nth peak_idx correlation 0 in
      let y3 := nth (peak_idx + 1) correlation 0 in
      let offset := (y3 - y1) / (2 * (2 * y2 - y1 - y3)) in
      INR peak_idx + offset
    else INR peak_idx in
  let lag := peak - (INR (length ref_channel) - 1) in
  Ok (lag / IZR sr).

(** [if abs(tdoa) > max_physical_delay: tdoa = 0.0] *)
Definition validate_tdoa (tdoa : R) : R :=
  if Rlt_dec max_physical_delay (Rabs tdoa) then 0 else tdoa.

Definition too_few_channels (got : nat) : string :=
  "Audio must have at least 3 channels. Got " ++ py.str got ++ " channels".

Definition calculate_tdoa_enhanced (audio_data : np.ndarray) (sr : Z)
  : option (list R) * option string :=
  match audio_data with
  | np.Arr1 _ => (None, Some (too_few_channels 1))
  | np.Arr2 channels frames =>
      if (channels <? 3)%nat then (None, Some (too_few_channels channels))
      else
        let body :=
          peak <- np.max (map Rabs (np.flatten frames)) ;;
          let audio := map (map (fun x => x / peak)) frames in
          let ref_channel := np.column audio 0 in
          for_each [1%nat; 2%nat]
            (fun tdoas i =>
               tdoa <- refined_tdoa ref_channel (np.column audio i) sr ;;
               Ok (tdoas ++ [validate_tdoa tdoa]))
            [] in
        match body with
        | Ok tdoas => (Some tdoas, None)
        | Raise e => (None, Some e)
        end
  end.

(** One row of the linear system, for microphone [i] against microphone 0. *)
Definition equation (x0 y0 xi yi di : R) : list R * list R :=
  ([2 * (xi - x0); 2 * (yi - y0)],
   [xi * xi + yi * yi - x0 * x0 - y0 * y0 - di * di]).

Definition out_of_area (position : list R) : bool :=
  let p0 := nth 0 position 0 in
  let p1 := nth 1 position 0 in
  Rltb p0 (-10) || Rltb 10 p0 || Rltb p1 (-10) || Rltb 10 p1.

(** The least-squares position, before the plausibility check. *)
Definition solved_position (tdoas : list R) (mic_positions : list (R * R))
  (sound_speed : R) : result (list R) :=
  '(x0, y0) <- py.getitem mic_positions 0 ;;
  '(A, b) <-
    for_each [1%nat; 2%nat]
      (fun '(A, b) i =>
         '(xi, yi) <- py.getitem mic_positions i ;;
         let di := nth (i - 1) tdoas 0 * sound_speed in
         let '(row, rhs) := equation x0 y0 xi yi di in
         Ok (A ++ [row], b ++ [rhs]))
      ([], []) ;;
  solution <- np.lstsq A b ;;
  Ok (np.flatten solution).

Definition localize_drone_enhanced (tdoas : option (list R))
  (mic_positions : list (R * R)) (sound_speed : R)
  : option (list R) * option string :=
  match tdoas with
  | None => (None, Some "Invalid TDOA data"%string)
  | Some tdoas =>
      if negb (length tdoas =? 2)%nat then (None, Some "Invalid TDOA data"%string)
      else
        let body :=
          position <- solved_position tdoas mic_positions sound_speed ;;
          if out_of_area position then Ok [1; 1] else Ok position in
        match body with
        | Ok position => (Some position, None)
        | Raise e => (None, Some e)
        end
  end.

(** *** Long recordings *)

Module Segment.
Record t : Type := {
  start_time : R;
  end_time : R;
  confidence : R;
  is_drone : bool;
  probability : R
}.
End Segment.

Module Summary.
Record t : Type := {
  total_segments : nat;
  detected_segments : nat;
  max_confidence : R
}.
End Summary.

Module Scan.
Record t : Type := {
  detected : bool;
  confidence : R;
  best_segment : option Segment.t;
  segments : list Segment.t;
  detection_summary : Summary.t
}.
End Scan.

(** The state of the scanning loop: [segments], [max_confidence],
    [best_segment]. *)
Definition scan_state : Type := (list Segment.t * R * option Segment.t)%type.

(** The first half of the loop body: the window starting at [start_sample]
    is cut out, its features are extracted and classified, and its
    [segment_info] is built. *)
Definition classify_window (loader : model_loader.ModelLoader)
  (audio_data : list float) (sr : Z) (threshold : R) (segment_samples : Z)
  (start_sample : Z) : result Segment.t :=
  let end_sample := (start_sample + segment_samples)%Z in
  let segment := py.slice audio_data start_sample end_sample in
  features <- audio_processor.extract_features segment sr ;;
  detection_result <- model_loader.predict loader features threshold ;;
  Ok {| Segment.start_time := IZR start_sample / IZR sr;
        Segment.end_time := IZR end_sample / IZR sr;
        Segment.confidence := model_loader.confidence detection_result;
        Segment.is_drone := model_loader.is_drone detection_result;
        Segment.probability :=
          snd (model_loader.class_probabilities detection_result) |}.

(** The second half: the segment is appended and the best segment tracked. *)
Definition scan_update (st : scan_state) (segment_info : Segment.t) : scan_state :=
  let '(segments, max_confidence, best_segment) := st in
  if Rlt_dec max_confidence (Segment.confidence segment_info)
  then (segments ++ [segment_info], Segment.confidence segment_info, Some segment_info)
  else (segments ++ [segment_info], max_confidence, best_segment).

(** The body of the loop over [start_sample]. *)
Definition scan_step (loader : model_loader.ModelLoader)
  (audio_data : list float) (sr : Z) (threshold : R) (segment_samples : Z)
  (st : scan_state) (start_sample : Z) : result scan_state :=
  segment_info <-
    classify_window loader audio_data sr threshold segment_samples start_sample ;;
  Ok (scan_update st segment_info).

(** What is returned once the loop is over. *)
Definition summarize (threshold : R) (st : scan_state) : Scan.t :=
  let '(segments, max_confidence, best_segment) := st in
  let overall_detected := Rleb threshold max_confidence in
  let detected_segments := length (filter Segment.is_drone segments) in
  {| Scan.detected := overall_detected;
     Scan.confidence := max_confidence;
     Scan.best_segment := best_segment;
     Scan.segments := segments;
     Scan.detection_summary :=
       {| Summary.total_segments := length segments;
          Summary.detected_segments := detected_segments;
          Summary.max_confidence := max_confidence |} |}.

(** The [try] block re-raises what it catches, so an exception of the
    body is the exception of the call. *)
Definition analyze_long_audio (loader : model_loader.ModelLoader)
  (audio_data : list float) (sr : Z) (threshold : R) : result Scan.t :=
  let segment_duration : Q := 3%Q in
  let segment_samples := py.int (segment_duration * inject_Z sr) in
  let total_samples := Z.of_nat (length audio_data) in
  let hop_size := py.int (segment_duration * inject_Z sr * (1 # 2)) in
  starts <- py.range 0 (total_samples - segment_samples) hop_size ;;
  st <- for_each starts
          (scan_step loader audio_data sr threshold segment_samples)
          ([], 0, None) ;;
  Ok (summarize threshold st).

(** The test the detection endpoints make before real localization:
    [audio.ndim == 2 and audio.shape[1] >= 3]. *)
Definition enough_channels (audio : waveform) : bool :=
  match audio with
  | Mono _ => false
  | Multi channels _ => (3 <=? channels)%nat
  end.

End app.


(** ** Quantities the stated properties refer to *)

Definition distance (p q : R * R) : R :=
  sqrt ((fst p - fst q) * (fst p - fst q) + (snd p - snd q) * (snd p - snd q)).

(** The delays a source produces at an array: for each microphone but the
    first, the difference of its range and the reference range, over the
    speed of sound. *)
Definition analytic_tdoas (source : R * R) (mics : list (R * R)) (c : R)
  : list R :=
  map (fun mic => (distance source mic - distance source (hd (0, 0) mics)) / c)
      (tl mics).

(** A matrix of [rows] rows, each of [cols] cells. *)
Definition shape_is (m : matrix) (rows cols : nat) : Prop :=
  length m = rows /\ Forall (fun row => length row = cols) m.

(** The product of a signal with its copy advanced by [s] samples, summed
    over the signal: the value of its autocorrelation at lag [s]. *)
Definition lagged_product (a : list R) (s : nat) : R :=
  np.sum (map (fun n => nth n a 0 * nth (n + s) a 0) (seq 0 (length a))).

(** Sample [i] of the signal delayed by [s] samples. *)
Definition delayed (a : list R) (s i : nat) : R :=
  if (i <? s)%nat then 0 else nth (i - s) a 0.

(** A classifier that refuses features whose first cell is not finite and
    answers (0, 0) otherwise. *)
Definition finite_only_network : model_loader.network :=
  fun data =>
    if is_nan (nth 0 (nth 0 (nth 0 data []) []) (Num 0))
    then Raise "non-finite features"
    else Ok (0, 0).

(** A list that starts with NaN. *)
Definition nan_head (xs : list float) : Prop := exists rest, xs = NaN :: rest.

(** A sample or cell that is a number, and one that is a number not below
    zero. *)
Definition finite (x : float) : Prop := exists r, x = Num r.

Definition nonnegative (x : float) : Prop := exists r, x = Num r /\ 0 <= r.

(** * Properties *)

(** ** Deciding comparisons of real numbers *)

Lemma Ok_inj {A : Type} (a b : A) : Ok a = Ok b -> a = b.
Proof. intros H. injection H as H. exact H. Qed.

Lemma Rltb_true (x y : R) : x < y -> Rltb x y = true.
Proof. intros H. unfold Rltb. destruct (Rlt_dec x y); [reflexivity | contradiction]. Qed.

Lemma Rltb_false (x y : R) : ~ x < y -> Rltb x y = false.
Proof. intros H. unfold Rltb. destruct (Rlt_dec x y); [contradiction | reflexivity]. Qed.

Lemma Rleb_true (x y : R) : x <= y -> Rleb x y = true.
Proof. intros H. unfold Rleb. destruct (Rle_dec x y); [reflexivity | contradiction]. Qed.

Lemma Rleb_false (x y : R) : ~ x <= y -> Rleb x y = false.
Proof. intros H. unfold Rleb. destruct (Rle_dec x y); [contradiction | reflexivity]. Qed.

Lemma sqrt_between (x lo hi : R) :
  0 <= lo -> lo * lo < x -> x < hi * hi -> 0 <= hi -> lo < sqrt x < hi.
Proof.
  intros Hlo H1 H2 Hhi.
  assert (Hx : 0 <= x) by nra.
  pose proof (sqrt_pos x) as Hs.
  pose proof (sqrt_sqrt x Hx) as Hq.
  split; nra.
Qed.

(** Settles the comparisons of an expression over numerals. *)
Ltac Rdecide :=
  repeat match goal with
    | |- context [Rabs ?a] => unfold Rabs; destruct (Rcase_abs a)
    | |- context [Rmax ?a ?b] => unfold Rmax; destruct (Rle_dec a b)
    | |- context [Rlt_dec ?a ?b] => destruct (Rlt_dec a b)
    | |- context [Rle_dec ?a ?b] => destruct (Rle_dec a b)
    | |- context [Req_dec_T ?a ?b] => destruct (Req_dec_T a b)
    end;
  try (exfalso; lra).

Ltac list_eq :=
  repeat match goal with
    | |- Ok _ = Ok _ => apply f_equal
    | |- _ :: _ = _ :: _ => apply f_equal2
    | |- [] = [] => reflexivity
    end.

(** ** Multilateration *)

Section Solver.

Import app.

(** For an array with its microphones at the origin and at distance [a]
    along each axis the system is diagonal. *)
Lemma solved_position_right_angle (a t1 t2 c : R) :
  a <> 0 ->
  solved_position [t1; t2] [(0, 0); (a, 0); (0, a)] c
  = Ok [(a * a - (t1 * c) * (t1 * c)) / (2 * a);
        (a * a - (t2 * c) * (t2 * c)) / (2 * a)].
Proof.
  intros Ha.
  unfold solved_position, py.getitem, equation, np.lstsq, np.flatten.
  cbn [nth_error bind for_each List.app nth Nat.sub].
  destruct (Req_dec_T _ _) as [E | _]; [exfalso; nra |].
  cbn [bind concat List.app].
  match goal with
  | |- Ok [?p; ?q] = Ok [?x; ?y] =>
      replace p with x by (field; nra); replace q with y by (field; nra);
      reflexivity
  end.
Qed.

Lemma out_of_area_true (position : list R) :
  nth 0 position 0 < -10 \/ 10 < nth 0 position 0 \/
  nth 1 position 0 < -10 \/ 10 < nth 1 position 0 ->
  out_of_area position = true.
Proof.
  unfold out_of_area, Rltb. intros H.
  repeat destruct (Rlt_dec _ _); try reflexivity. tauto.
Qed.

Lemma out_of_area_false (position : list R) :
  -10 <= nth 0 position 0 <= 10 -> -10 <= nth 1 position 0 <= 10 ->
  out_of_area position = false.
Proof.
  unfold out_of_area, Rltb. intros H0 H1.
  repeat destruct (Rlt_dec _ _); try reflexivity; lra.
Qed.

Lemma localize_solved (tdoas : list R) (mics : list (R * R)) (c : R)
  (position : list R) :
  length tdoas = 2%nat ->
  solved_position tdoas mics c = Ok position ->
  localize_drone_enhanced (Some tdoas) mics c
  = (Some (if out_of_area position then [1; 1] else position), None).
Proof.
  intros Hlen Hsol. unfold localize_drone_enhanced.
  rewrite Hlen, Hsol. cbn [Nat.eqb negb bind].
  destruct (out_of_area position); reflexivity.
Qed.

(** C3 (as the code has it): a least-squares solution with a coordinate
    outside [-10, 10] is replaced by the point (1.0, 1.0), returned with
    no error; the pair returned carries no flag, it is the very pair that
    a solve landing on (1.0, 1.0) returns. *)
Theorem out_of_area_returns_default (tdoas : list R) (mics : list (R * R))
  (c : R) (position : list R) :
  length tdoas = 2%nat ->
  solved_position tdoas mics c = Ok position ->
  nth 0 position 0 < -10 \/ 10 < nth 0 position 0 \/
  nth 1 position 0 < -10 \/ 10 < nth 1 position 0 ->
  localize_drone_enhanced (Some tdoas) mics c = (Some [1; 1], None)
  /\ forall tdoas' mics' c',
       length tdoas' = 2%nat ->
       solved_position tdoas' mics' c' = Ok [1; 1] ->
       localize_drone_enhanced (Some tdoas') mics' c'
       = localize_drone_enhanced (Some tdoas) mics c.
Proof.
  intros Hlen Hsol Hout.
  assert (Hdef : localize_drone_enhanced (Some tdoas) mics c = (Some [1; 1], None)).
  { rewrite (localize_solved _ _ _ _ Hlen Hsol), out_of_area_true by exact Hout.
    reflexivity. }
  split; [exact Hdef |].
  intros tdoas' mics' c' Hlen' Hsol'.
  rewrite Hdef, (localize_solved _ _ _ _ Hlen' Hsol').
  destruct (out_of_area [1; 1]); reflexivity.
Qed.

Lemma out_of_area_returns_default_witness :
  solved_position [0; 0] [(0, 0); (100, 0); (0, 100)] SOUND_SPEED = Ok [50; 50]
  /\ localize_drone_enhanced (Some [0; 0]) [(0, 0); (100, 0); (0, 100)] SOUND_SPEED
     = (Some [1; 1], None).
Proof.
  assert (H : solved_position [0; 0] [(0, 0); (100, 0); (0, 100)] SOUND_SPEED
              = Ok [50; 50]).
  { rewrite solved_position_right_angle by lra. unfold SOUND_SPEED.
    replace ((100 * 100 - 0 * 343 * (0 * 343)) / (2 * 100)) with 50 by lra.
    reflexivity. }
  split; [exact H |].
  refine (proj1 (out_of_area_returns_default [0; 0] [(0, 0); (100, 0); (0, 100)]
                   SOUND_SPEED [50; 50] eq_refl H _)).
  right. left. cbn [nth]. lra.
Defined.

(** C3 (as stated) fails: with microphones at (0,0), (2,0), (0,2) the
    delays (8/343, 8/343) solve to (-15, -15) and fall back to the default,
    the delays (0, 0) solve to (1, 1), and both calls return the same
    result. *)
Lemma fallback_not_flagged :
  solved_position [8 / 343; 8 / 343] [(0, 0); (2, 0); (0, 2)] 343 = Ok [-15; -15]
  /\ solved_position [0; 0] [(0, 0); (2, 0); (0, 2)] 343 = Ok [1; 1]
  /\ localize_drone_enhanced (Some [8 / 343; 8 / 343]) [(0, 0); (2, 0); (0, 2)] 343
     = localize_drone_enhanced (Some [0; 0]) [(0, 0); (2, 0); (0, 2)] 343.
Proof.
  assert (H1 : solved_position [8 / 343; 8 / 343] [(0, 0); (2, 0); (0, 2)] 343
               = Ok [-15; -15]).
  { rewrite solved_position_right_angle by lra.
    replace ((2 * 2 - 8 / 343 * 343 * (8 / 343 * 343)) / (2 * 2)) with (-15) by lra.
    reflexivity. }
  assert (H2 : solved_position [0; 0] [(0, 0); (2, 0); (0, 2)] 343 = Ok [1; 1]).
  { rewrite solved_position_right_angle by lra.
    replace ((2 * 2 - 0 * 343 * (0 * 343)) / (2 * 2)) with 1 by lra.
    reflexivity. }
  split; [exact H1 | split; [exact H2 |]].
  rewrite (localize_solved [_; _] _ _ _ eq_refl H1), (localize_solved [_; _] _ _ _ eq_refl H2).
  rewrite out_of_area_true by (left; cbn [nth]; lra).
  rewrite out_of_area_false by (cbn [nth]; lra).
  reflexivity.
Qed.

(** The row that the range-difference equation
    [(x - xi)^2 + (y - yi)^2 = (sqrt((x - x0)^2 + (y - y0)^2) + di)^2]
    gives for a source at [(x, y)]: the row of the code, and the term
    [2 di |p - mic0|] that the code leaves out. *)
Lemma range_difference_row (x y x0 y0 xi yi : R) :
  let r0 := distance (x, y) (x0, y0) in
  let di := distance (x, y) (xi, yi) - r0 in
  2 * (xi - x0) * x + 2 * (yi - y0) * y
  = xi * xi + yi * yi - x0 * x0 - y0 * y0 - di * di - 2 * di * r0.
Proof.
  unfold distance. cbn [fst snd].
  assert (H0 : 0 <= (x - x0) * (x - x0) + (y - y0) * (y - y0))
    by (apply Rplus_le_le_0_compat; apply Rle_0_sqr).
  assert (Hi : 0 <= (x - xi) * (x - xi) + (y - yi) * (y - yi))
    by (apply Rplus_le_le_0_compat; apply Rle_0_sqr).
  pose proof (sqrt_sqrt _ H0) as E0. pose proof (sqrt_sqrt _ Hi) as Ei.
  set (r0 := sqrt ((x - x0) * (x - x0) + (y - y0) * (y - y0))) in *.
  set (ri := sqrt ((x - xi) * (x - xi) + (y - yi) * (y - yi))) in *.
  cbv zeta. nra.
Qed.

(** C1: on the analytic delays of a source at (1, 1) the solver returns
    a point near (0.16, 0.16), more than a metre from the source. *)
Theorem solver_misses_analytic_source :
  exists x y,
    localize_drone_enhanced
      (Some (analytic_tdoas (1, 1) MIC_POSITIONS SOUND_SPEED))
      MIC_POSITIONS SOUND_SPEED
    = (Some [x; y], None)
    /\ 16 / 100 < x < 17 / 100 /\ 16 / 100 < y < 17 / 100
    /\ 1 < distance (x, y) (1, 1).
Proof.
  unfold analytic_tdoas, MIC_POSITIONS, distance, SOUND_SPEED.
  cbn [map tl hd fst snd].
  replace ((1 - 0.5) * (1 - 0.5) + (1 - 0) * (1 - 0)) with (5 / 4) by lra.
  replace ((1 - 0) * (1 - 0) + (1 - 0.5) * (1 - 0.5)) with (5 / 4) by lra.
  replace ((1 - 0) * (1 - 0) + (1 - 0) * (1 - 0)) with 2 by lra.
  destruct (sqrt_between (5 / 4) (1118 / 1000) (1119 / 1000)) as [Ha1 Ha2]; try lra.
  destruct (sqrt_between 2 (1414 / 1000) (1415 / 1000)) as [Hb1 Hb2]; try lra.
  set (t := (sqrt (5 / 4) - sqrt 2) / 343).
  assert (Ht : t * 343 = sqrt (5 / 4) - sqrt 2) by (unfold t; field).
  pose (x := (0.5 * 0.5 - (t * 343) * (t * 343)) / (2 * 0.5)).
  assert (Hx : 16 / 100 < x < 17 / 100).
  { assert (E : x = 1 / 4 - (sqrt (5 / 4) - sqrt 2) * (sqrt (5 / 4) - sqrt 2))
      by (unfold x; rewrite Ht; lra).
    rewrite E. split; nra. }
  exists x, x.
  split; [| split; [exact Hx | split; [exact Hx |]]].
  - rewrite (localize_solved [_; _] _ _ [x; x] eq_refl).
    + rewrite out_of_area_false by (cbn [nth]; lra). reflexivity.
    + apply solved_position_right_angle. lra.
  - cbn [fst snd]. rewrite <- sqrt_1 at 1. apply sqrt_lt_1; nra.
Qed.

End Solver.

(** ** TDOA estimation *)

Section Tdoa.

Import app.

Lemma validate_tdoa_bounded (t : R) :
  Rabs (validate_tdoa t) <= max_physical_delay \/ validate_tdoa t = 0.
Proof.
  unfold validate_tdoa. destruct (Rlt_dec _ _) as [H | H].
  - right. reflexivity.
  - left. lra.
Qed.

Lemma validate_tdoa_clamps (t : R) :
  max_physical_delay < Rabs t -> validate_tdoa t = 0.
Proof.
  intros H. unfold validate_tdoa.
  destruct (Rlt_dec _ _); [reflexivity | contradiction].
Qed.

Lemma correlate_full_ok (a v : list R) :
  a <> [] -> v <> [] ->
  exists c, np.correlate_full a v = Ok c
            /\ length c = (length a + length v - 1)%nat.
Proof.
  intros Ha Hv. destruct a as [| x a]; [contradiction |].
  destruct v as [| y v]; [contradiction |].
  eexists. split; [reflexivity |].
  rewrite length_map, length_seq. reflexivity.
Qed.

Lemma refined_tdoa_ok (ref_channel channel : list R) (sr : Z) :
  ref_channel <> [] -> channel <> [] ->
  exists t, refined_tdoa ref_channel channel sr = Ok t.
Proof.
  intros Ha Hv. unfold refined_tdoa.
  destruct (correlate_full_ok _ _ Ha Hv) as [c [-> Hlen]].
  cbn [bind].
  destruct c as [| c0 c]; [destruct ref_channel, channel; cbn in Hlen; try contradiction; lia |].
  cbn [map np.argmax bind]. eexists. reflexivity.
Qed.

(** What a successful call has computed. *)
Lemma calculate_tdoa_enhanced_inv (channels : nat) (frames : list (list R))
  (sr : Z) (tdoas : list R) :
  calculate_tdoa_enhanced (np.Arr2 channels frames) sr = (Some tdoas, None) ->
  exists peak t1 t2,
    np.max (map Rabs (np.flatten frames)) = Ok peak
    /\ refined_tdoa (np.column (map (map (fun x => x / peak)) frames) 0)
                    (np.column (map (map (fun x => x / peak)) frames) 1) sr = Ok t1
    /\ refined_tdoa (np.column (map (map (fun x => x / peak)) frames) 0)
                    (np.column (map (map (fun x => x / peak)) frames) 2) sr = Ok t2
    /\ tdoas = [validate_tdoa t1; validate_tdoa t2].
Proof.
  unfold calculate_tdoa_enhanced.
  destruct (channels <? 3)%nat; [discriminate |].
  destruct (np.max _) as [peak | e]; cbn [bind for_each]; [| discriminate].
  destruct (refined_tdoa _ (np.column _ 1) sr) as [t1 | e] eqn:E1;
    cbn [bind]; [| discriminate].
  destruct (refined_tdoa _ (np.column _ 2) sr) as [t2 | e] eqn:E2;
    cbn [bind]; [| discriminate].
  intros H. injection H as <-. exists peak, t1, t2. auto.
Qed.

Lemma calculate_tdoa_enhanced_eq (channels : nat) (frames : list (list R))
  (sr : Z) (peak t1 t2 : R) :
  (3 <= channels)%nat ->
  np.max (map Rabs (np.flatten frames)) = Ok peak ->
  refined_tdoa (np.column (map (map (fun x => x / peak)) frames) 0)
               (np.column (map (map (fun x => x / peak)) frames) 1) sr = Ok t1 ->
  refined_tdoa (np.column (map (map (fun x => x / peak)) frames) 0)
               (np.column (map (map (fun x => x / peak)) frames) 2) sr = Ok t2 ->
  calculate_tdoa_enhanced (np.Arr2 channels frames) sr
  = (Some [validate_tdoa t1; validate_tdoa t2], None).
Proof.
  intros Hc Hp H1 H2. unfold calculate_tdoa_enhanced.
  destruct (Nat.ltb_spec channels 3) as [Hlt | _]; [lia |].
  rewrite Hp. cbn [bind for_each]. rewrite H1. cbn [bind]. rewrite H2.
  reflexivity.
Qed.

(** C7: at a positive sample rate, every delay of a returned vector is
    within [2/343] s in magnitude or is 0; a refined delay beyond the bound
    is returned as 0. *)
Theorem tdoa_within_physical_bound (channels : nat) (frames : list (list R))
  (sr : Z) (tdoas : list R) :
  (0 < sr)%Z ->
  calculate_tdoa_enhanced (np.Arr2 channels frames) sr = (Some tdoas, None) ->
  Forall (fun t => Rabs t <= 2 / 343 \/ t = 0) tdoas
  /\ forall peak i t,
       (i = 1 \/ i = 2)%nat ->
       np.max (map Rabs (np.flatten frames)) = Ok peak ->
       refined_tdoa (np.column (map (map (fun x => x / peak)) frames) 0)
                    (np.column (map (map (fun x => x / peak)) frames) i) sr = Ok t ->
       2 / 343 < Rabs t ->
       nth (i - 1) tdoas 1 = 0.
Proof.
  intros _ H.
  destruct (calculate_tdoa_enhanced_inv _ _ _ _ H) as (peak & t1 & t2 & Hp & H1 & H2 & ->).
  split.
  - constructor; [apply validate_tdoa_bounded |].
    constructor; [apply validate_tdoa_bounded | constructor].
  - intros peak' i t Hi Hp' Ht Hbig.
    rewrite Hp in Hp'. injection Hp' as <-.
    destruct Hi as [-> | ->]; cbn [Nat.sub nth].
    + rewrite H1 in Ht. injection Ht as <-. apply validate_tdoa_clamps. exact Hbig.
    + rewrite H2 in Ht. injection Ht as <-. apply validate_tdoa_clamps. exact Hbig.
Qed.

Lemma max_nonempty (xs : list R) : xs <> [] -> exists m, np.max xs = Ok m.
Proof. destruct xs; [contradiction | eexists; reflexivity]. Qed.

(** A waveform with at least three channels and at least one sample
    yields two delays, whatever its channel count. *)
Lemma calculate_tdoa_enhanced_two (channels : nat) (frames : list (list R))
  (sr : Z) :
  (3 <= channels)%nat -> frames <> [] ->
  Forall (fun row => length row = channels) frames ->
  exists t1 t2,
    calculate_tdoa_enhanced (np.Arr2 channels frames) sr
    = (Some [validate_tdoa t1; validate_tdoa t2], None).
Proof.
  intros Hc Hne Hwf.
  destruct frames as [| row frames]; [contradiction |].
  assert (Hflat : map Rabs (np.flatten (row :: frames)) <> []).
  { inversion Hwf as [| ? ? Hrow _]; subst.
    destruct row; [cbn in Hc; lia | discriminate]. }
  destruct (max_nonempty _ Hflat) as [peak Hp].
  destruct (refined_tdoa_ok
              (np.column (map (map (fun x => x / peak)) (row :: frames)) 0)
              (np.column (map (map (fun x => x / peak)) (row :: frames)) 1) sr)
    as [t1 H1]; try discriminate.
  destruct (refined_tdoa_ok
              (np.column (map (map (fun x => x / peak)) (row :: frames)) 0)
              (np.column (map (map (fun x => x / peak)) (row :: frames)) 2) sr)
    as [t2 H2]; try discriminate.
  exists t1, t2. apply (calculate_tdoa_enhanced_eq _ _ _ peak); assumption.
Qed.

(** The two delays of a waveform with at least three channels and at least
    one sample: the waveform is divided by its largest absolute sample, and
    the delays are those of its channels 1 and 2 against its channel 0. *)
Lemma calculate_tdoa_enhanced_channels (channels : nat) (frames : list (list R))
  (sr : Z) :
  (3 <= channels)%nat -> frames <> [] ->
  Forall (fun row => length row = channels) frames ->
  exists peak t1 t2,
    np.max (map Rabs (np.flatten frames)) = Ok peak
    /\ refined_tdoa (np.column (map (map (fun x => x / peak)) frames) 0)
                    (np.column (map (map (fun x => x / peak)) frames) 1) sr = Ok t1
    /\ refined_tdoa (np.column (map (map (fun x => x / peak)) frames) 0)
                    (np.column (map (map (fun x => x / peak)) frames) 2) sr = Ok t2
    /\ calculate_tdoa_enhanced (np.Arr2 channels frames) sr
       = (Some [validate_tdoa t1; validate_tdoa t2], None).
Proof.
  intros Hc Hne Hwf.
  destruct frames as [| row frames]; [contradiction |].
  assert (Hflat : map Rabs (np.flatten (row :: frames)) <> []).
  { inversion Hwf as [| ? ? Hrow _]; subst.
    destruct row; [cbn in Hc; lia | discriminate]. }
  destruct (max_nonempty _ Hflat) as [peak Hp].
  destruct (refined_tdoa_ok
              (np.column (map (map (fun x => x / peak)) (row :: frames)) 0)
              (np.column (map (map (fun x => x / peak)) (row :: frames)) 1) sr)
    as [t1 H1]; try discriminate.
  destruct (refined_tdoa_ok
              (np.column (map (map (fun x => x / peak)) (row :: frames)) 0)
              (np.column (map (map (fun x => x / peak)) (row :: frames)) 2) sr)
    as [t2 H2]; try discriminate.
  exists peak, t1, t2.
  split; [exact Hp |]. split; [exact H1 |]. split; [exact H2 |].
  apply (calculate_tdoa_enhanced_eq _ _ _ peak); assumption.
Qed.

(** C9 (as the code has it): fewer than three channels give the
    insufficient-channels error; three or more channels with at least one
    sample give exactly two delays, whatever the channel count: the
    waveform is divided by its largest absolute sample, the first delay is
    that of channel 1 against channel 0 and the second that of channel 2
    against channel 0, each after the physical check; three or more
    channels without samples give an error. *)
Theorem tdoa_vector_has_two_delays (audio : np.ndarray) (sr : Z) :
  ((np.channels_of audio < 3)%nat ->
   calculate_tdoa_enhanced audio sr
   = (None, Some (too_few_channels (np.channels_of audio))))
  /\ ((3 <= np.channels_of audio)%nat ->
      np.samples_of audio <> 0%nat -> np.well_formed audio ->
      exists tdoas frames peak t1 t2,
        calculate_tdoa_enhanced audio sr = (Some tdoas, None)
        /\ length tdoas = 2%nat
        /\ audio = np.Arr2 (np.channels_of audio) frames
        /\ np.max (map Rabs (np.flatten frames)) = Ok peak
        /\ refined_tdoa (np.column (map (map (fun x => x / peak)) frames) 0)
                        (np.column (map (map (fun x => x / peak)) frames) 1) sr
           = Ok t1
        /\ refined_tdoa (np.column (map (map (fun x => x / peak)) frames) 0)
                        (np.column (map (map (fun x => x / peak)) frames) 2) sr
           = Ok t2
        /\ tdoas = [validate_tdoa t1; validate_tdoa t2])
  /\ ((3 <= np.channels_of audio)%nat ->
      np.samples_of audio = 0%nat ->
      exists e, calculate_tdoa_enhanced audio sr = (None, Some e)).
Proof.
  destruct audio as [samples | channels frames]; cbn [np.channels_of np.samples_of np.well_formed].
  - split; [reflexivity | split; intros; lia].
  - split; [| split].
    + intros Hc. unfold calculate_tdoa_enhanced.
      destruct (Nat.ltb_spec channels 3); [reflexivity | lia].
    + intros Hc Hne Hwf.
      destruct (calculate_tdoa_enhanced_channels channels frames sr Hc)
        as (peak & t1 & t2 & Hp & H1 & H2 & H);
        [destruct frames; [contradiction | discriminate] | exact Hwf |].
      exists [validate_tdoa t1; validate_tdoa t2], frames, peak, t1, t2.
      repeat split; assumption || reflexivity.
    + intros Hc Hz. destruct frames; [| discriminate].
      unfold calculate_tdoa_enhanced.
      destruct (Nat.ltb_spec channels 3); [lia |].
      eexists. reflexivity.
Qed.

Lemma tdoa_vector_has_two_delays_witness :
  calculate_tdoa_enhanced (np.Arr2 2 [[1; 1]]) 22050
  = (None, Some (too_few_channels 2))
  /\ (exists tdoas frames peak t1 t2,
        calculate_tdoa_enhanced (np.Arr2 4 [[0; 1; 0; 1]; [1; 0; 1; 0]]) 22050
        = (Some tdoas, None)
        /\ length tdoas = 2%nat
        /\ np.Arr2 4 [[0; 1; 0; 1]; [1; 0; 1; 0]] = np.Arr2 4 frames
        /\ np.max (map Rabs (np.flatten frames)) = Ok peak
        /\ refined_tdoa (np.column (map (map (fun x => x / peak)) frames) 0)
                        (np.column (map (map (fun x => x / peak)) frames) 1) 22050
           = Ok t1
        /\ refined_tdoa (np.column (map (map (fun x => x / peak)) frames) 0)
                        (np.column (map (map (fun x => x / peak)) frames) 2) 22050
           = Ok t2
        /\ tdoas = [validate_tdoa t1; validate_tdoa t2])
  /\ (exists e, calculate_tdoa_enhanced (np.Arr2 3 []) 22050 = (None, Some e)).
Proof.
  split; [| split].
  - apply (proj1 (tdoa_vector_has_two_delays (np.Arr2 2 [[1; 1]]) 22050)).
    cbn. lia.
  - apply (proj1 (proj2 (tdoa_vector_has_two_delays
                           (np.Arr2 4 [[0; 1; 0; 1]; [1; 0; 1; 0]]) 22050))).
    + cbn. lia.
    + cbn. lia.
    + cbn. repeat constructor.
  - apply (proj2 (proj2 (tdoa_vector_has_two_delays (np.Arr2 3 []) 22050))).
    + cbn. lia.
    + reflexivity.
Defined.

Lemma correlate_full_1 (a v : R) : np.correlate_full [a] [v] = Ok [a * v].
Proof.
  unfold np.correlate_full, np.sum, np.at_or_zero. simpl. list_eq. ring.
Qed.

Lemma correlate_full_2 (a0 a1 v0 v1 : R) :
  np.correlate_full [a0; a1] [v0; v1]
  = Ok [a0 * v1; a0 * v0 + a1 * v1; a1 * v0].
Proof.
  unfold np.correlate_full, np.sum, np.at_or_zero. simpl. list_eq; ring.
Qed.

Lemma max_ones (n : nat) : fold_left Rmax (repeat 1 n) 1 = 1.
Proof.
  induction n as [| n IH]; [reflexivity |].
  cbn [repeat fold_left]. rewrite Rmax_left by lra. exact IH.
Qed.

(** One sample, equal in every channel: both delays are 0. *)
Lemma calculate_tdoa_enhanced_one_frame (channels : nat) (sr : Z) :
  (3 <= channels)%nat ->
  calculate_tdoa_enhanced (np.Arr2 channels [repeat 1 channels]) sr
  = (Some [0; 0], None).
Proof.
  intros Hc.
  assert (Hcol : forall i, (i < channels)%nat ->
            np.column (map (map (fun x => x / 1)) [repeat 1 channels]) i = [1]).
  { intros i Hi. cbn [np.column map]. f_equal.
    rewrite map_repeat, nth_repeat_lt by exact Hi. lra. }
  assert (Ht : refined_tdoa [1] [1] sr = Ok 0).
  { unfold refined_tdoa. rewrite correlate_full_1.
    cbn [bind map np.argmax np.argmax_from length Z.of_nat Z.ltb Z.compare andb INR].
    f_equal. lra. }
  assert (Hv : validate_tdoa 0 = 0).
  { unfold validate_tdoa, max_physical_delay. rewrite Rabs_R0. Rdecide. reflexivity. }
  rewrite <- Hv at 1 2.
  apply (calculate_tdoa_enhanced_eq _ _ _ 1); try exact Hc.
  - unfold np.flatten. cbn [concat]. rewrite app_nil_r, map_repeat, Rabs_R1.
    destruct channels; [lia |]. cbn [repeat np.max]. rewrite max_ones. reflexivity.
  - rewrite !Hcol by lia. exact Ht.
  - rewrite !Hcol by lia. exact Ht.
Qed.

(** C9 (as stated) fails: a four-channel waveform yields two delays, not
    three. *)
Lemma four_channels_two_delays :
  calculate_tdoa_enhanced (np.Arr2 4 [[1; 1; 1; 1]]) 22050 = (Some [0; 0], None).
Proof. apply (calculate_tdoa_enhanced_one_frame 4). lia. Qed.

(** A reference [0, 1] against a channel [1, 0] at 1 Hz: the correlation
    peaks one sample after the zero lag, a delay of one second. *)
Lemma refined_tdoa_one_second : refined_tdoa [0; 1] [1; 0] 1 = Ok 1.
Proof.
  unfold refined_tdoa. rewrite correlate_full_2.
  replace (0 * 0) with 0 by lra. replace (0 * 1 + 1 * 0) with 0 by lra.
  replace (1 * 1) with 1 by lra.
  cbn [bind map np.argmax np.argmax_from]. rewrite Rabs_R0, Rabs_R1.
  destruct (Rlt_dec 0 0); [exfalso; lra |].
  destruct (Rlt_dec 0 1); [| exfalso; lra].
  cbn [length Z.of_nat Pos.of_succ_nat Pos.succ Z.ltb Z.compare Z.sub Z.add Z.opp
       Z.pos_sub Pos.compare Pos.compare_cont Pos.pred_double andb INR].
  f_equal. lra.
Qed.

Lemma tdoa_within_physical_bound_witness :
  refined_tdoa [0; 1] [1; 0] 1 = Ok 1
  /\ calculate_tdoa_enhanced (np.Arr2 3 [[0; 1; 1]; [1; 0; 0]]) 1
     = (Some [0; 0], None)
  /\ Forall (fun t => Rabs t <= 2 / 343 \/ t = 0) [0; 0].
Proof.
  split; [exact refined_tdoa_one_second |].
  assert (Hcol0 : np.column (map (map (fun x => x / 1)) [[0; 1; 1]; [1; 0; 0]]) 0
                  = [0; 1]) by (cbn; list_eq; lra).
  assert (Hcol1 : np.column (map (map (fun x => x / 1)) [[0; 1; 1]; [1; 0; 0]]) 1
                  = [1; 0]) by (cbn; list_eq; lra).
  assert (Hcol2 : np.column (map (map (fun x => x / 1)) [[0; 1; 1]; [1; 0; 0]]) 2
                  = [1; 0]) by (cbn; list_eq; lra).
  assert (Hv : validate_tdoa 1 = 0).
  { apply validate_tdoa_clamps. unfold max_physical_delay. rewrite Rabs_R1. lra. }
  assert (H : calculate_tdoa_enhanced (np.Arr2 3 [[0; 1; 1]; [1; 0; 0]]) 1
              = (Some [0; 0], None)).
  { rewrite (calculate_tdoa_enhanced_eq _ _ _ 1 1 1); [rewrite Hv; reflexivity | | | |].
    - lia.
    - cbn [np.flatten concat List.app map np.max fold_left].
      rewrite Rabs_R0, Rabs_R1.
      rewrite (Rmax_right 0 1), !(Rmax_left 1) by lra. reflexivity.
    - rewrite Hcol0, Hcol1. exact refined_tdoa_one_second.
    - rewrite Hcol0, Hcol2. exact refined_tdoa_one_second. }
  split; [exact H |].
  exact (proj1 (tdoa_within_physical_bound 3 [[0; 1; 1]; [1; 0; 0]] 1 [0; 0]
                  ltac:(lia) H)).
Defined.

End Tdoa.

(** ** Feature extraction: shapes *)

Section Shapes.

Import audio_processor.

Lemma Forall_map_seq {A : Type} (P : A -> Prop) (f : nat -> A) (start len : nat) :
  (forall i, P (f i)) -> Forall P (map f (seq start len)).
Proof. intros H. apply Forall_forall. intros x Hx. apply in_map_iff in Hx. destruct Hx as [i [<- _]]. apply H. Qed.

Lemma shape_is_map {A : Type} (g : A -> list float) (xs : list A) (cols : nat) :
  (forall a, length (g a) = cols) -> shape_is (map g xs) (length xs) cols.
Proof.
  intros H. split; [apply length_map |].
  apply Forall_forall. intros row Hrow. apply in_map_iff in Hrow.
  destruct Hrow as [a [<- _]]. apply H.
Qed.

Lemma shape_is_map_seq (g : nat -> list float) (rows cols : nat) :
  (forall i, length (g i) = cols) -> shape_is (map g (seq 0 rows)) rows cols.
Proof.
  intros H. pose proof (shape_is_map g (seq 0 rows) cols H) as Hs.
  rewrite length_seq in Hs. exact Hs.
Qed.

Lemma shape_is_map_map (f : float -> float) (m : matrix) (rows cols : nat) :
  shape_is m rows cols -> shape_is (map (map f) m) rows cols.
Proof.
  intros [Hr Hc]. split; [rewrite length_map; exact Hr |].
  apply Forall_forall. intros row Hrow. apply in_map_iff in Hrow.
  destruct Hrow as [r [<- Hin]]. rewrite length_map.
  exact (proj1 (Forall_forall _ _) Hc r Hin).
Qed.

Lemma shape1_of_shape (m : matrix) (rows cols : nat) :
  shape_is m rows cols -> rows <> 0%nat -> npf.shape1 m = cols.
Proof.
  intros [Hr Hc] Hne. unfold npf.shape1.
  destruct m as [| row m]; [cbn in Hr; congruence |].
  inversion Hc; subst. reflexivity.
Qed.

Lemma target_samples_eq (sr : Z) :
  py.int (inject_Z sr * target_duration) = (3 * sr)%Z.
Proof.
  unfold py.int, target_duration. cbn [Qmult inject_Z Qnum Qden Pos.mul].
  rewrite Z.quot_1_r. lia.
Qed.

Lemma preprocess_audio_length (y : list float) (sr : Z) :
  length (preprocess_audio y sr) = Z.to_nat (3 * sr).
Proof.
  unfold preprocess_audio. rewrite target_samples_eq.
  destruct (Z.ltb_spec (Z.of_nat (length y)) (3 * sr)) as [H | H].
  - rewrite length_app, repeat_length. lia.
  - rewrite length_firstn. lia.
Qed.

Lemma spectrogram_shape (x : list float) (fs : Z) (nperseg noverlap : nat) :
  length x <> 0%nat ->
  (noverlap < Nat.min (length x) nperseg)%nat ->
  exists Sxx,
    npf.spectrogram x fs nperseg noverlap = Ok Sxx
    /\ shape_is Sxx (Nat.min (length x) nperseg / 2 + 1)
                 ((length x - noverlap) / (Nat.min (length x) nperseg - noverlap)).
Proof.
  intros Hne Hov. unfold npf.spectrogram.
  destruct (Nat.eqb_spec (length x) 0) as [E | _]; [contradiction |].
  replace (if (length x <? nperseg)%nat then length x else nperseg)
    with (Nat.min (length x) nperseg)
    by (destruct (Nat.ltb_spec (length x) nperseg); lia).
  destruct (Nat.leb_spec (Nat.min (length x) nperseg) noverlap) as [H | _]; [lia |].
  eexists. split; [reflexivity |].
  apply shape_is_map_seq. intros f. rewrite length_map, length_seq. reflexivity.
Qed.

Lemma create_mel_filterbank_length (sr : Z) (mels bins : nat) :
  length (create_mel_filterbank sr mels bins) = mels.
Proof. unfold create_mel_filterbank. rewrite length_map, length_seq. reflexivity. Qed.

Lemma linear_to_mel_shape (Sxx : matrix) (sr : Z) (mels : nat) :
  shape_is (linear_to_mel Sxx sr mels) mels (npf.shape1 Sxx).
Proof.
  unfold linear_to_mel, npf.dot.
  rewrite <- (create_mel_filterbank_length sr mels (length Sxx)) at 2.
  apply shape_is_map. intros row. rewrite length_map, length_seq. reflexivity.
Qed.

Lemma round_IZR (z : Z) : py.round (IZR z) = z.
Proof.
  unfold py.round. rewrite ZfloorZ.
  destruct (Rlt_dec _ _) as [_ | H]; [reflexivity | exfalso; lra].
Qed.

Lemma round_INR (n : nat) : Z.to_nat (py.round (INR n)) = n.
Proof. rewrite INR_IZR_INZ, round_IZR. apply Nat2Z.id. Qed.

Lemma zoom_shape (input : matrix) (factor : R * R) :
  shape_is (npf.zoom input factor)
    (Z.to_nat (py.round (INR (length input) * fst factor)))
    (Z.to_nat (py.round (INR (npf.shape1 input) * snd factor))).
Proof.
  unfold npf.zoom.
  apply shape_is_map_seq. intros i. rewrite length_map, length_seq. reflexivity.
Qed.

Lemma resize_to_target_shape (features : matrix) (rows cols target : nat) :
  shape_is features rows cols -> rows <> 0%nat -> cols <> 0%nat ->
  exists resized,
    resize_to_target features target = Ok resized
    /\ shape_is resized rows target.
Proof.
  intros Hs Hr Hc. unfold resize_to_target.
  rewrite (shape1_of_shape _ _ _ Hs Hr).
  destruct (Nat.eqb_spec cols target) as [-> | Hne].
  { exists features. split; [reflexivity | exact Hs]. }
  destruct (Nat.eqb_spec cols 0) as [E | _]; [contradiction |].
  pose proof (zoom_shape features (1, INR target / INR cols)) as Hz.
  cbn [fst snd] in Hz.
  rewrite (shape1_of_shape _ _ _ Hs Hr), (proj1 Hs) in Hz.
  rewrite Rmult_1_r, round_INR in Hz.
  replace (INR cols * (INR target / INR cols)) with (INR target) in Hz
    by (field; apply not_0_INR; exact Hc).
  rewrite round_INR in Hz.
  rewrite (shape1_of_shape _ _ _ Hz Hr).
  rewrite Nat.ltb_irrefl.
  eexists. split; [reflexivity | exact Hz].
Qed.

(** The spectrogram of the padded or truncated waveform, for a sample
    rate of at least 257 Hz: at least one bin and one frame. *)
Lemma spectrogram_of_processed (y : list float) (sr : Z) :
  (257 <= sr)%Z ->
  exists Sxx bins frames,
    npf.spectrogram (preprocess_audio y sr) sr n_fft (n_fft - hop_length) = Ok Sxx
    /\ shape_is Sxx bins frames /\ bins <> 0%nat /\ frames <> 0%nat.
Proof.
  intros Hsr.
  pose proof (preprocess_audio_length y sr) as Hlen.
  assert (Hn : (768 < length (preprocess_audio y sr))%nat) by lia.
  change (n_fft - hop_length)%nat with 768%nat. change n_fft with 1024%nat.
  destruct (spectrogram_shape (preprocess_audio y sr) sr 1024 768) as [Sxx [HS Hshape]];
    [lia | lia |].
  exists Sxx. do 2 eexists. split; [exact HS | split; [exact Hshape | split]].
  - lia.
  - apply Nat.neq_0_lt_0. apply Nat.div_str_pos. lia.
Qed.

Lemma extract_features_eq (y : list float) (sr : Z) (Sxx resized : matrix) :
  npf.spectrogram (preprocess_audio y sr) sr n_fft (n_fft - hop_length) = Ok Sxx ->
  (if negb (npf.shape1 (to_db (linear_to_mel Sxx sr n_mels)) =? expected_time_frames)%nat
   then resize_to_target (to_db (linear_to_mel Sxx sr n_mels)) expected_time_frames
   else Ok (to_db (linear_to_mel Sxx sr n_mels))) = Ok resized ->
  extract_features y sr
  = Ok {| dt := float32; data := [normalize resized; normalize resized; normalize resized] |}.
Proof.
  intros HS HR. unfold extract_features. rewrite HS. cbn [bind].
  rewrite HR. reflexivity.
Qed.

(** Feature extraction succeeds at every sample rate of at least 257 Hz,
    whatever the samples are. *)
Lemma extract_features_ok (y : list float) (sr : Z) :
  (257 <= sr)%Z ->
  exists Sxx resized,
    npf.spectrogram (preprocess_audio y sr) sr n_fft (n_fft - hop_length) = Ok Sxx
    /\ (if negb (npf.shape1 (to_db (linear_to_mel Sxx sr n_mels)) =? expected_time_frames)%nat
        then resize_to_target (to_db (linear_to_mel Sxx sr n_mels)) expected_time_frames
        else Ok (to_db (linear_to_mel Sxx sr n_mels))) = Ok resized
    /\ shape_is resized 64 259
    /\ extract_features y sr
       = Ok {| dt := float32;
               data := [normalize resized; normalize resized; normalize resized] |}.
Proof.
  intros Hsr.
  destruct (spectrogram_of_processed y sr Hsr) as (Sxx & bins & frames & HS & Hshape & Hb & Hf).
  assert (Hmel : shape_is (to_db (linear_to_mel Sxx sr n_mels)) 64 frames).
  { apply shape_is_map_map.
    rewrite <- (shape1_of_shape _ _ _ Hshape Hb). apply linear_to_mel_shape. }
  assert (HR : exists resized,
             (if negb (npf.shape1 (to_db (linear_to_mel Sxx sr n_mels)) =? expected_time_frames)%nat
              then resize_to_target (to_db (linear_to_mel Sxx sr n_mels)) expected_time_frames
              else Ok (to_db (linear_to_mel Sxx sr n_mels))) = Ok resized
             /\ shape_is resized 64 259).
  { rewrite (shape1_of_shape _ _ _ Hmel) by discriminate.
    destruct (Nat.eqb_spec frames expected_time_frames) as [E | Hne]; cbn [negb].
    - eexists. split; [reflexivity |]. rewrite E in Hmel. exact Hmel.
    - apply (resize_to_target_shape _ 64 frames); [exact Hmel | discriminate | exact Hf]. }
  destruct HR as [resized [HR Hres]].
  exists Sxx, resized. repeat split; try assumption; try apply Hres.
  apply (extract_features_eq _ _ Sxx); assumption.
Qed.

Lemma normalize_shape (m : matrix) (rows cols : nat) :
  shape_is m rows cols -> shape_is (normalize m) rows cols.
Proof. apply shape_is_map_map. Qed.

(** Below 257 Hz the three seconds kept are at most 768 samples, not more
    than the overlap, and the spectrogram is refused. *)
Lemma extract_features_raises (y : list float) (sr : Z) :
  (0 < sr <= 256)%Z ->
  extract_features y sr
  = Raise "Feature extraction failed: noverlap must be less than nperseg.".
Proof.
  intros Hsr. unfold extract_features, npf.spectrogram.
  pose proof (preprocess_audio_length y sr) as Hlen.
  change (n_fft - hop_length)%nat with 768%nat. change n_fft with 1024%nat.
  destruct (Nat.eqb_spec (length (preprocess_audio y sr)) 0) as [E | _]; [lia |].
  destruct (Nat.ltb_spec (length (preprocess_audio y sr)) 1024) as [_ | H]; [| lia].
  destruct (Nat.leb_spec (length (preprocess_audio y sr)) 768) as [_ | H]; [| lia].
  reflexivity.
Qed.

(** C5 (as the code has it): at every sample rate of at least 257 Hz,
    for every waveform, the features are three copies of one normalised
    64 x 259 matrix, of 32-bit floats; at a positive sample rate below 257 Hz
    the call raises. *)
Theorem extract_features_shape (y : list float) (sr : Z) :
  ((257 <= sr)%Z ->
   exists mel : matrix,
     extract_features y sr = Ok {| dt := float32; data := [mel; mel; mel] |}
     /\ shape_is mel 64 259)
  /\ ((0 < sr <= 256)%Z ->
      extract_features y sr
      = Raise "Feature extraction failed: noverlap must be less than nperseg.").
Proof.
  split.
  - intros Hsr.
    destruct (extract_features_ok y sr Hsr) as (Sxx & resized & _ & _ & Hshape & H).
    exists (normalize resized). split; [exact H |].
    apply normalize_shape. exact Hshape.
  - apply extract_features_raises.
Qed.

Lemma extract_features_shape_witness :
  (exists mel : matrix,
     extract_features (repeat (Num 0) 10) 22050
     = Ok {| dt := float32; data := [mel; mel; mel] |}
     /\ shape_is mel 64 259)
  /\ extract_features (repeat (Num 0) 10) 256
     = Raise "Feature extraction failed: noverlap must be less than nperseg.".
Proof.
  split.
  - apply (proj1 (extract_features_shape (repeat (Num 0) 10) 22050)). lia.
  - apply (proj2 (extract_features_shape (repeat (Num 0) 10) 256)). lia.
Defined.

(** C5 (as stated) fails: a tenth of a second of silence at 100 Hz is
    padded to 300 samples, fewer than the overlap of 768, and the
    spectrogram is refused. *)
Lemma extract_features_low_rate :
  extract_features (repeat (Num 0) 10) 100
  = Raise "Feature extraction failed: noverlap must be less than nperseg.".
Proof. reflexivity. Qed.

End Shapes.

(** ** Scanning long recordings *)

Section Scanning.

Import app.

Lemma predict_eq (loader : model_loader.ModelLoader) (net : model_loader.network)
  (features : audio_processor.tensor) (threshold : R) (logits : R * R) :
  model_loader.model loader = Some net ->
  net (audio_processor.data features) = Ok logits ->
  model_loader.predict loader features threshold
  = Ok {| model_loader.is_drone := Rleb threshold (snd (model_loader.softmax logits));
          model_loader.confidence :=
            Rmax (fst (model_loader.softmax logits)) (snd (model_loader.softmax logits));
          model_loader.class_probabilities := model_loader.softmax logits;
          model_loader.predicted_class :=
            nth (if Rlt_dec (fst (model_loader.softmax logits))
                            (snd (model_loader.softmax logits)) then 1 else 0)%nat
                model_loader.class_names ""%string;
          model_loader.raw_drone_probability := snd (model_loader.softmax logits);
          model_loader.threshold_used := threshold |}.
Proof.
  intros Hm Hn. unfold model_loader.predict. rewrite Hm, Hn. reflexivity.
Qed.

Lemma predict_inv (loader : model_loader.ModelLoader)
  (features : audio_processor.tensor) (threshold : R) (r : model_loader.prediction) :
  model_loader.predict loader features threshold = Ok r ->
  exists logits,
    model_loader.class_probabilities r = model_loader.softmax logits
    /\ model_loader.confidence r
       = Rmax (fst (model_loader.softmax logits)) (snd (model_loader.softmax logits))
    /\ model_loader.is_drone r = Rleb threshold (snd (model_loader.softmax logits)).
Proof.
  unfold model_loader.predict.
  destruct (model_loader.model loader) as [net |]; [| discriminate].
  destruct (net _) as [logits | e]; cbn [bind]; [| discriminate].
  intros H. injection H as <-. exists logits. auto.
Qed.

Lemma softmax_sum (logits : R * R) :
  0 < fst (model_loader.softmax logits) /\ 0 < snd (model_loader.softmax logits)
  /\ fst (model_loader.softmax logits) + snd (model_loader.softmax logits) = 1.
Proof.
  destruct logits as [z0 z1]. cbn [model_loader.softmax fst snd].
  pose proof (exp_pos z0). pose proof (exp_pos z1).
  repeat split.
  - apply Rdiv_lt_0_compat; lra.
  - apply Rdiv_lt_0_compat; lra.
  - field. lra.
Qed.

Lemma for_each_scan_ok (loader : model_loader.ModelLoader) (audio : list float)
  (sr : Z) (threshold : R) (seg : Z) (starts : list Z) (infos : list Segment.t) :
  Forall2 (fun s info => classify_window loader audio sr threshold seg s = Ok info)
          starts infos ->
  forall st,
    for_each starts (scan_step loader audio sr threshold seg) st
    = Ok (fold_left scan_update infos st).
Proof.
  induction 1 as [| s info starts infos Hs _ IH]; intros st; [reflexivity |].
  cbn [for_each fold_left]. unfold scan_step at 1. rewrite Hs. cbn [bind]. apply IH.
Qed.

Lemma for_each_scan_inv (loader : model_loader.ModelLoader) (audio : list float)
  (sr : Z) (threshold : R) (seg : Z) (starts : list Z) :
  forall st st',
    for_each starts (scan_step loader audio sr threshold seg) st = Ok st' ->
    exists infos,
      Forall2 (fun s info => classify_window loader audio sr threshold seg s = Ok info)
              starts infos
      /\ st' = fold_left scan_update infos st.
Proof.
  induction starts as [| s starts IH]; intros st st' H.
  - injection H as <-. exists []. split; [constructor | reflexivity].
  - cbn [for_each] in H. unfold scan_step at 1 in H.
    destruct (classify_window loader audio sr threshold seg s) as [info | e] eqn:E;
      cbn [bind] in H; [| discriminate].
    destruct (IH _ _ H) as [infos [HF ->]].
    exists (info :: infos). split; [constructor; assumption | reflexivity].
Qed.

(** The first window that raises ends the loop with its exception. *)
Lemma for_each_scan_raise (loader : model_loader.ModelLoader) (audio : list float)
  (sr : Z) (threshold : R) (seg : Z) (before : list Z) (infos : list Segment.t)
  (s : Z) (after : list Z) (e : string) :
  Forall2 (fun s info => classify_window loader audio sr threshold seg s = Ok info)
          before infos ->
  classify_window loader audio sr threshold seg s = Raise e ->
  forall st,
    for_each (before ++ s :: after) (scan_step loader audio sr threshold seg) st
    = Raise e.
Proof.
  intros HF Hs. induction HF as [| s0 info before infos H0 _ IH]; intros st.
  - cbn [List.app for_each]. unfold scan_step. rewrite Hs. reflexivity.
  - cbn [List.app for_each]. unfold scan_step at 1. rewrite H0. cbn [bind]. apply IH.
Qed.

Lemma scan_update_segments (infos : list Segment.t) :
  forall segments m best,
    fst (fst (fold_left scan_update infos (segments, m, best))) = segments ++ infos.
Proof.
  induction infos as [| info infos IH]; intros segments m best.
  - cbn. rewrite app_nil_r. reflexivity.
  - cbn [fold_left]. unfold scan_update at 2.
    destruct (Rlt_dec _ _); rewrite IH, <- app_assoc; reflexivity.
Qed.

Lemma scan_update_max (infos : list Segment.t) :
  forall segments m best,
    m <= snd (fst (fold_left scan_update infos (segments, m, best)))
    /\ Forall (fun info =>
                 Segment.confidence info
                 <= snd (fst (fold_left scan_update infos (segments, m, best))))
              infos.
Proof.
  induction infos as [| info infos IH]; intros segments m best.
  - cbn. split; [lra | constructor].
  - cbn [fold_left]. unfold scan_update at 2 4.
    destruct (Rlt_dec m (Segment.confidence info)) as [Hlt | Hge].
    + destruct (IH (segments ++ [info]) (Segment.confidence info) (Some info)) as [H1 H2].
      split; [lra |]. constructor; assumption.
    + destruct (IH (segments ++ [info]) m best) as [H1 H2].
      split; [lra |]. constructor; [lra | assumption].
Qed.

Lemma analyze_long_audio_eq (loader : model_loader.ModelLoader) (audio : list float)
  (sr : Z) (threshold : R) (starts : list Z) (infos : list Segment.t) :
  py.range 0 (Z.of_nat (length audio) - py.int (3 * inject_Z sr))
           (py.int (3 * inject_Z sr * (1 # 2))) = Ok starts ->
  Forall2 (fun s info =>
             classify_window loader audio sr threshold (py.int (3 * inject_Z sr)) s
             = Ok info) starts infos ->
  analyze_long_audio loader audio sr threshold
  = Ok (summarize threshold (fold_left scan_update infos ([], 0, None))).
Proof.
  intros Hr HF. unfold analyze_long_audio. rewrite Hr. cbn [bind].
  rewrite (for_each_scan_ok _ _ _ _ _ _ _ HF). reflexivity.
Qed.

Lemma analyze_long_audio_inv (loader : model_loader.ModelLoader) (audio : list float)
  (sr : Z) (threshold : R) (res : Scan.t) :
  analyze_long_audio loader audio sr threshold = Ok res ->
  exists starts infos,
    py.range 0 (Z.of_nat (length audio) - py.int (3 * inject_Z sr))
             (py.int (3 * inject_Z sr * (1 # 2))) = Ok starts
    /\ Forall2 (fun s info =>
                  classify_window loader audio sr threshold (py.int (3 * inject_Z sr)) s
                  = Ok info) starts infos
    /\ res = summarize threshold (fold_left scan_update infos ([], 0, None)).
Proof.
  unfold analyze_long_audio.
  destruct (py.range _ _ _) as [starts | e]; cbn [bind]; [| discriminate].
  destruct (for_each starts _ _) as [st | e] eqn:E; cbn [bind]; [| discriminate].
  intros H. injection H as <-.
  destruct (for_each_scan_inv _ _ _ _ _ _ _ _ E) as [infos [HF ->]].
  exists starts, infos. auto.
Qed.

Lemma analyze_long_audio_raise (loader : model_loader.ModelLoader) (audio : list float)
  (sr : Z) (threshold : R) (before : list Z) (infos : list Segment.t) (s : Z)
  (after : list Z) (e : string) :
  py.range 0 (Z.of_nat (length audio) - py.int (3 * inject_Z sr))
           (py.int (3 * inject_Z sr * (1 # 2))) = Ok (before ++ s :: after) ->
  Forall2 (fun s info =>
             classify_window loader audio sr threshold (py.int (3 * inject_Z sr)) s
             = Ok info) before infos ->
  classify_window loader audio sr threshold (py.int (3 * inject_Z sr)) s = Raise e ->
  analyze_long_audio loader audio sr threshold = Raise e.
Proof.
  intros Hr HF Hs. unfold analyze_long_audio. rewrite Hr. cbn [bind].
  rewrite (for_each_scan_raise _ _ _ _ _ _ _ _ _ _ HF Hs). reflexivity.
Qed.

Lemma summarize_segments (threshold : R) (infos : list Segment.t) :
  Scan.segments (summarize threshold (fold_left scan_update infos ([], 0, None)))
  = infos.
Proof.
  pose proof (scan_update_segments infos [] 0 None) as H.
  destruct (fold_left scan_update infos ([], 0, None)) as [[segments m] best].
  exact H.
Qed.

(** The windows of a twelve-second recording at 22050 Hz. *)
Lemma range_twelve_seconds (audio : list float) :
  Z.of_nat (length audio) = 264600%Z ->
  py.range 0 (Z.of_nat (length audio) - py.int (3 * inject_Z 22050))
           (py.int (3 * inject_Z 22050 * (1 # 2)))
  = Ok [0; 33075; 66150; 99225; 132300; 165375]%Z.
Proof. intros ->. reflexivity. Qed.

Lemma classify_window_inv (loader : model_loader.ModelLoader) (audio : list float)
  (sr : Z) (threshold : R) (seg s : Z) (info : Segment.t) :
  classify_window loader audio sr threshold seg s = Ok info ->
  Segment.start_time info = IZR s / IZR sr
  /\ Segment.end_time info = IZR (s + seg) / IZR sr
  /\ exists logits,
       Segment.confidence info
       = Rmax (fst (model_loader.softmax logits)) (snd (model_loader.softmax logits))
       /\ Segment.is_drone info = Rleb threshold (snd (model_loader.softmax logits))
       /\ Segment.probability info = snd (model_loader.softmax logits).
Proof.
  unfold classify_window.
  destruct (audio_processor.extract_features _ _) as [features | e]; cbn [bind];
    [| discriminate].
  destruct (model_loader.predict _ _ _) as [r | e] eqn:E; cbn [bind]; [| discriminate].
  intros H. injection H as <-. cbn.
  destruct (predict_inv _ _ _ _ E) as (logits & Hp & Hc & Hd).
  repeat split. exists logits. rewrite Hp. auto.
Qed.

(** With a loaded network that answers every input, every window of a
    recording at 257 Hz or more is classified. *)
Lemma classify_window_total (loader : model_loader.ModelLoader)
  (net : model_loader.network) (audio : list float) (sr : Z) (threshold : R)
  (seg s : Z) :
  (257 <= sr)%Z ->
  model_loader.model loader = Some net ->
  (forall f, exists logits, net f = Ok logits) ->
  exists info, classify_window loader audio sr threshold seg s = Ok info.
Proof.
  intros Hsr Hm Hnet. unfold classify_window.
  destruct (extract_features_ok (py.slice audio s (s + seg)) sr Hsr)
    as (Sxx & resized & _ & _ & _ & ->).
  cbn [bind].
  match goal with
  | |- context [model_loader.predict loader ?features threshold] =>
      destruct (Hnet (audio_processor.data features)) as [logits Hl];
      rewrite (predict_eq loader net features threshold logits Hm Hl)
  end.
  cbn [bind]. eexists. reflexivity.
Qed.

Lemma Forall2_total {A B : Type} (P : A -> B -> Prop) (xs : list A) :
  (forall x, exists y, P x y) -> exists ys, Forall2 P xs ys.
Proof.
  intros H. induction xs as [| x xs [ys IH]].
  - exists []. constructor.
  - destruct (H x) as [y Hy]. exists (y :: ys). constructor; assumption.
Qed.

Lemma classify_window_const (loader : model_loader.ModelLoader)
  (net : model_loader.network) (logits : R * R) (audio : list float) (sr : Z)
  (threshold : R) (seg s : Z) :
  (257 <= sr)%Z ->
  model_loader.model loader = Some net ->
  (forall f, net f = Ok logits) ->
  classify_window loader audio sr threshold seg s
  = Ok {| Segment.start_time := IZR s / IZR sr;
          Segment.end_time := IZR (s + seg) / IZR sr;
          Segment.confidence :=
            Rmax (fst (model_loader.softmax logits)) (snd (model_loader.softmax logits));
          Segment.is_drone := Rleb threshold (snd (model_loader.softmax logits));
          Segment.probability := snd (model_loader.softmax logits) |}.
Proof.
  intros Hsr Hm Hnet. unfold classify_window.
  destruct (extract_features_ok (py.slice audio s (s + seg)) sr Hsr)
    as (Sxx & resized & _ & _ & _ & ->).
  cbn [bind].
  match goal with
  | |- context [model_loader.predict loader ?features threshold] =>
      rewrite (predict_eq loader net features threshold logits Hm (Hnet _))
  end.
  reflexivity.
Qed.

Lemma classify_window_net_raises (loader : model_loader.ModelLoader)
  (net : model_loader.network) (e : string) (audio : list float) (sr : Z)
  (threshold : R) (seg s : Z) :
  (257 <= sr)%Z ->
  model_loader.model loader = Some net ->
  (forall f, net f = Raise e) ->
  classify_window loader audio sr threshold seg s
  = Raise ("Prediction failed: " ++ e).
Proof.
  intros Hsr Hm Hnet. unfold classify_window.
  destruct (extract_features_ok (py.slice audio s (s + seg)) sr Hsr)
    as (Sxx & resized & _ & _ & _ & ->).
  cbn [bind]. unfold model_loader.predict. rewrite Hm, Hnet. reflexivity.
Qed.

Lemma length_twelve_seconds :
  Z.of_nat (length (repeat (Num 0) (Z.to_nat 264600))) = 264600%Z.
Proof. rewrite repeat_length. apply Z2Nat.id. lia. Qed.

(** C2: a twelve-second recording at 22050 Hz is cut into six windows,
    starting every 1.5 s from 0 s to 7.5 s; the last one ends at 10.5 s and
    the window from 9 s to 12 s is not scanned. *)
Theorem twelve_seconds_six_segments (loader : model_loader.ModelLoader)
  (net : model_loader.network) (audio : list float) (threshold : R) :
  model_loader.model loader = Some net ->
  (forall f, exists logits, net f = Ok logits) ->
  Z.of_nat (length audio) = 264600%Z ->
  exists res,
    analyze_long_audio loader audio 22050 threshold = Ok res
    /\ map Segment.start_time (Scan.segments res) = [0; 3 / 2; 3; 9 / 2; 6; 15 / 2]
    /\ map Segment.end_time (Scan.segments res) = [3; 9 / 2; 6; 15 / 2; 9; 21 / 2]
    /\ Summary.total_segments (Scan.detection_summary res) = 6%nat.
Proof.
  intros Hm Hnet Hlen.
  pose proof (range_twelve_seconds audio Hlen) as Hr.
  destruct (Forall2_total
              (fun s info =>
                 classify_window loader audio 22050 threshold
                   (py.int (3 * inject_Z 22050)) s = Ok info)
              [0; 33075; 66150; 99225; 132300; 165375]%Z) as [infos HF].
  { intros s. apply (classify_window_total loader net); [lia | exact Hm | exact Hnet]. }
  exists (summarize threshold (fold_left scan_update infos ([], 0, None))).
  split; [apply (analyze_long_audio_eq _ _ _ _ _ _ Hr HF) |].
  assert (Hseg : Scan.segments (summarize threshold (fold_left scan_update infos ([], 0, None)))
                 = infos) by apply summarize_segments.
  assert (Htot : Summary.total_segments
                   (Scan.detection_summary
                      (summarize threshold (fold_left scan_update infos ([], 0, None))))
                 = length infos).
  { rewrite <- Hseg at 2.
    destruct (fold_left scan_update infos ([], 0, None)) as [[segments m] best].
    reflexivity. }
  rewrite Hseg, Htot.
  repeat match goal with
         | H : Forall2 _ (_ :: _) _ |- _ => inversion H; clear H; subst
         | H : Forall2 _ [] _ |- _ => inversion H; clear H; subst
         end.
  repeat match goal with
         | H : classify_window _ _ _ _ _ _ = Ok _ |- _ =>
             apply classify_window_inv in H; destruct H as (? & ? & _)
         end.
  change (py.int (3 * inject_Z 22050)) with 66150%Z in *.
  cbn [map length Z.add Pos.add Pos.succ Pos.add_carry] in *.
  split; [| split; [| reflexivity]]; list_eq; (etransitivity; [eassumption | lra]).
Qed.

Lemma twelve_seconds_six_segments_witness :
  exists res,
    analyze_long_audio {| model_loader.model := Some (fun _ => Ok (0, 0)) |}
      (repeat (Num 0) (Z.to_nat 264600)) 22050 (7 / 10) = Ok res
    /\ map Segment.start_time (Scan.segments res) = [0; 3 / 2; 3; 9 / 2; 6; 15 / 2]
    /\ map Segment.end_time (Scan.segments res) = [3; 9 / 2; 6; 15 / 2; 9; 21 / 2]
    /\ Summary.total_segments (Scan.detection_summary res) = 6%nat.
Proof.
  apply (twelve_seconds_six_segments
           {| model_loader.model := Some (fun _ => Ok (0, 0)) |}
           (fun _ => Ok (0, 0))).
  - reflexivity.
  - intros f. exists (0, 0). reflexivity.
  - exact length_twelve_seconds.
Defined.

(** C4 (as the code has it): the first window whose feature extraction or
    classification raises ends the scan; the call raises that exception and
    returns no segments and no aggregate. *)
Theorem failing_window_aborts_scan (loader : model_loader.ModelLoader)
  (audio : list float) (sr : Z) (threshold : R) (before : list Z)
  (infos : list Segment.t) (s : Z) (after : list Z) (e : string) :
  py.range 0 (Z.of_nat (length audio) - py.int (3 * inject_Z sr))
           (py.int (3 * inject_Z sr * (1 # 2))) = Ok (before ++ s :: after) ->
  Forall2 (fun s info =>
             classify_window loader audio sr threshold (py.int (3 * inject_Z sr)) s
             = Ok info) before infos ->
  classify_window loader audio sr threshold (py.int (3 * inject_Z sr)) s = Raise e ->
  analyze_long_audio loader audio sr threshold = Raise e.
Proof.
  intros Hrange Hbefore Hraise.
  unfold analyze_long_audio. rewrite Hrange. cbn [bind].
  (* the windows before [s] update the state, the window [s] leaves the loop *)
  rewrite (for_each_scan_raise _ _ _ _ _ _ _ _ _ _ Hbefore Hraise).
  reflexivity.
Qed.

Lemma failing_window_aborts_scan_witness :
  analyze_long_audio
    {| model_loader.model := Some (fun _ => Raise "forward pass failed") |}
    (repeat (Num 0) (Z.to_nat 264600)) 22050 (7 / 10)
  = Raise "Prediction failed: forward pass failed".
Proof.
  apply (failing_window_aborts_scan _ _ _ _ [] [] 0%Z
           [33075; 66150; 99225; 132300; 165375]%Z).
  - apply range_twelve_seconds. exact length_twelve_seconds.
  - constructor.
  - apply (classify_window_net_raises _ (fun _ => Raise "forward pass failed"));
      [lia | reflexivity | reflexivity].
Defined.

Lemma softmax_ln9 : model_loader.softmax (ln 9, 0) = (9 / 10, 1 / 10).
Proof.
  cbn [model_loader.softmax]. rewrite exp_ln by lra. rewrite exp_0.
  f_equal; lra.
Qed.

Lemma predict_confidence (loader : model_loader.ModelLoader)
  (features : audio_processor.tensor) (threshold : R) (r : model_loader.prediction) :
  model_loader.predict loader features threshold = Ok r ->
  model_loader.confidence r
  = Rmax (fst (model_loader.class_probabilities r))
         (snd (model_loader.class_probabilities r))
  /\ 1 / 2 <= model_loader.confidence r.
Proof.
  intros H. destruct (predict_inv _ _ _ _ H) as (logits & Hp & Hc & _).
  rewrite Hc, Hp. split; [reflexivity |].
  destruct (softmax_sum logits) as (_ & _ & Hsum).
  unfold Rmax. destruct (Rle_dec _ _); lra.
Qed.

(** A scan whose windows are all classified non-drone, one of them with a
    confidence that reaches the threshold, reports a detection. *)
Lemma all_non_drone_detected (loader : model_loader.ModelLoader)
  (audio : list float) (sr : Z) (threshold : R) (res : Scan.t) :
  analyze_long_audio loader audio sr threshold = Ok res ->
  Forall (fun s => Segment.is_drone s = false) (Scan.segments res) ->
  Exists (fun s => threshold <= Segment.confidence s) (Scan.segments res) ->
  Scan.detected res = true
  /\ Summary.detected_segments (Scan.detection_summary res) = 0%nat.
Proof.
  intros H Hnd Hex.
  destruct (analyze_long_audio_inv _ _ _ _ _ H) as (starts & infos & _ & _ & ->).
  rewrite summarize_segments in Hnd, Hex.
  pose proof (scan_update_segments infos [] 0 None) as Hsegs.
  destruct (scan_update_max infos [] 0 None) as [_ Hmax].
  destruct (fold_left scan_update infos ([], 0, None)) as [[segments m] best].
  cbn [fst snd List.app] in Hsegs, Hmax. subst segments.
  cbn [summarize Scan.detected Scan.detection_summary Summary.detected_segments].
  split.
  - apply Rleb_true.
    apply Exists_exists in Hex. destruct Hex as (s & Hin & Hs).
    pose proof (proj1 (Forall_forall _ _) Hmax s Hin). lra.
  - clear - Hnd. induction Hnd as [| s infos Hs _ IH]; [reflexivity |].
    cbn [filter]. rewrite Hs. exact IH.
Qed.

(** A recording of twelve seconds and a network that answers 0.9 non-drone,
    0.1 drone on every window. *)
Lemma non_drone_scan (threshold : R) :
  1 / 10 < threshold <= 9 / 10 ->
  exists res,
    analyze_long_audio {| model_loader.model := Some (fun _ => Ok (ln 9, 0)) |}
      (repeat (Num 0) (Z.to_nat 264600)) 22050 threshold = Ok res
    /\ Scan.segments res <> []
    /\ Forall (fun s => Segment.is_drone s = false /\ Segment.confidence s = 9 / 10)
              (Scan.segments res)
    /\ Scan.detected res = true
    /\ Summary.detected_segments (Scan.detection_summary res) = 0%nat.
Proof.
  intros [Hlo Hhi].
  set (loader := {| model_loader.model := Some (fun _ => Ok (ln 9, 0)) |}).
  set (audio := repeat (Num 0) (Z.to_nat 264600)).
  set (info := fun s : Z =>
         {| Segment.start_time := IZR s / IZR 22050;
            Segment.end_time := IZR (s + py.int (3 * inject_Z 22050)) / IZR 22050;
            Segment.confidence := 9 / 10;
            Segment.is_drone := false;
            Segment.probability := 1 / 10 |}).
  assert (Hw : forall s,
             classify_window loader audio 22050 threshold
               (py.int (3 * inject_Z 22050)) s = Ok (info s)).
  { intros s.
    rewrite (classify_window_const loader (fun _ => Ok (ln 9, 0)) (ln 9, 0));
      [| lia | reflexivity | reflexivity].
    rewrite softmax_ln9. cbn [fst snd]. unfold info.
    rewrite Rmax_left by lra. rewrite Rleb_false by lra. reflexivity. }
  pose (infos := map info [0; 33075; 66150; 99225; 132300; 165375]%Z).
  assert (HF : Forall2 (fun s i =>
                  classify_window loader audio 22050 threshold
                    (py.int (3 * inject_Z 22050)) s = Ok i)
                 [0; 33075; 66150; 99225; 132300; 165375]%Z infos)
    by (unfold infos; cbn [map]; repeat (constructor; [apply Hw |]); constructor).
  pose proof (analyze_long_audio_eq loader audio 22050 threshold _ _
                (range_twelve_seconds audio length_twelve_seconds) HF) as Hres.
  exists (summarize threshold (fold_left scan_update infos ([], 0, None))).
  assert (Hall : Forall (fun s => Segment.is_drone s = false
                                  /\ Segment.confidence s = 9 / 10) infos)
    by (repeat constructor).
  split; [exact Hres |].
  rewrite summarize_segments.
  split; [discriminate |]. split; [exact Hall |].
  apply (all_non_drone_detected _ _ _ _ _ Hres); rewrite summarize_segments.
  - apply (Forall_impl _ (fun s H => proj1 H) Hall).
  - apply Exists_cons_hd. cbn [Segment.confidence info]. exact Hhi.
Qed.

(** C10: the confidence of a prediction is the larger class probability,
    at least 1/2 whether a drone is reported or not; a twelve-second
    recording whose windows are all classified non-drone with confidence 0.9
    is reported as detected, with no detected segment, at every threshold
    above 0.1 and up to 0.9. *)
Theorem confident_non_drone_is_detected :
  (forall loader features threshold r,
     model_loader.predict loader features threshold = Ok r ->
     model_loader.confidence r
     = Rmax (fst (model_loader.class_probabilities r))
            (snd (model_loader.class_probabilities r))
     /\ 1 / 2 <= model_loader.confidence r)
  /\ exists loader audio sr,
      forall threshold,
        1 / 10 < threshold <= 9 / 10 ->
        exists res,
          analyze_long_audio loader audio sr threshold = Ok res
          /\ Scan.segments res <> []
          /\ Forall (fun s => Segment.is_drone s = false
                              /\ Segment.confidence s = 9 / 10)
                    (Scan.segments res)
          /\ Scan.detected res = true
          /\ Summary.detected_segments (Scan.detection_summary res) = 0%nat.
Proof.
  split; [exact predict_confidence |].
  exists {| model_loader.model := Some (fun _ => Ok (ln 9, 0)) |},
         (repeat (Num 0) (Z.to_nat 264600)), 22050%Z.
  exact non_drone_scan.
Qed.

Lemma confident_non_drone_is_detected_witness :
  (exists r,
     model_loader.predict {| model_loader.model := Some (fun _ => Ok (ln 9, 0)) |}
       {| audio_processor.dt := audio_processor.float32; audio_processor.data := [] |}
       (7 / 10) = Ok r
     /\ 1 / 2 <= model_loader.confidence r)
  /\ exists loader audio sr res,
      analyze_long_audio loader audio sr (7 / 10) = Ok res
      /\ Scan.detected res = true
      /\ Summary.detected_segments (Scan.detection_summary res) = 0%nat.
Proof.
  split.
  - eexists.
    pose proof (predict_eq {| model_loader.model := Some (fun _ => Ok (ln 9, 0)) |}
                  (fun _ => Ok (ln 9, 0))
                  {| audio_processor.dt := audio_processor.float32;
                     audio_processor.data := [] |}
                  (7 / 10) (ln 9, 0) eq_refl eq_refl) as Hp.
    split; [exact Hp |].
    exact (proj2 (proj1 confident_non_drone_is_detected _ _ _ _ Hp)).
  - destruct (proj2 confident_non_drone_is_detected) as (loader & audio & sr & H).
    destruct (H (7 / 10)) as (res & Hres & _ & _ & Hd & Hn); [lra |].
    exists loader, audio, sr, res. auto.
Defined.

End Scanning.

(** ** Feature extraction: non-finite samples *)

Section NonFinite.

Import audio_processor.

Lemma fadd_nan_r (x : float) : fadd x NaN = NaN.
Proof. destruct x; reflexivity. Qed.

Lemma fmul_nan_r (x : float) : fmul x NaN = NaN.
Proof. destruct x; reflexivity. Qed.

Lemma sum_nan (xs : list float) : In NaN xs -> npf.sum xs = NaN.
Proof.
  induction xs as [| x xs IH]; intros H; [contradiction |].
  cbn [npf.sum fold_right]. destruct H as [-> | H]; [reflexivity |].
  change (fold_right fadd (Num 0) xs) with (npf.sum xs).
  rewrite (IH H). apply fadd_nan_r.
Qed.

Lemma preprocess_audio_nan (y : list float) (sr : Z) :
  (0 < sr)%Z -> nan_head y -> nan_head (preprocess_audio y sr).
Proof.
  intros Hsr [rest ->]. unfold preprocess_audio. rewrite target_samples_eq.
  destruct (Z.ltb_spec (Z.of_nat (length (NaN :: rest))) (3 * sr)) as [H | H].
  - eexists. reflexivity.
  - destruct (Z.to_nat (3 * sr)) as [| k] eqn:E; [lia |].
    eexists. reflexivity.
Qed.

Lemma dft_magnitude_nan (xs : list float) (f : nat) :
  nan_head xs -> npf.dft_magnitude xs f = NaN.
Proof.
  intros [rest ->]. unfold npf.dft_magnitude.
  cbn [length seq combine map]. rewrite sum_nan by (left; reflexivity).
  reflexivity.
Qed.

(** Frame 0 of the spectrogram of a waveform that starts with NaN is NaN in
    every bin. *)
Lemma spectrogram_nan (x : list float) (fs : Z) (nperseg noverlap : nat)
  (Sxx : matrix) :
  nan_head x ->
  (noverlap < Nat.min (length x) nperseg)%nat ->
  npf.spectrogram x fs nperseg noverlap = Ok Sxx ->
  Forall nan_head Sxx.
Proof.
  intros Hx Hov. unfold npf.spectrogram.
  destruct (Nat.eqb_spec (length x) 0) as [E | _]; [lia |].
  replace (if (length x <? nperseg)%nat then length x else nperseg)
    with (Nat.min (length x) nperseg)
    by (destruct (Nat.ltb_spec (length x) nperseg); lia).
  remember (Nat.min (length x) nperseg) as p eqn:Hp.
  destruct (Nat.leb_spec p noverlap) as [H | _]; [lia |].
  assert (Hpos : ((length x - noverlap) / (p - noverlap) <> 0)%nat).
  { apply Nat.neq_0_lt_0. apply Nat.div_str_pos. lia. }
  remember ((length x - noverlap) / (p - noverlap))%nat as frames eqn:Hframes.
  intros H. injection H as <-.
  apply Forall_forall. intros row Hrow. apply in_map_iff in Hrow.
  destruct Hrow as [f [<- _]].
  destruct frames as [| frames]; [contradiction |].
  destruct p as [| k]; [lia |].
  destruct Hx as [rest ->].
  cbn [seq map]. eexists. f_equal.
Qed.

Lemma linear_to_mel_nan (Sxx : matrix) (sr : Z) (mels : nat) :
  Sxx <> [] -> Forall nan_head Sxx ->
  Forall nan_head (linear_to_mel Sxx sr mels).
Proof.
  intros Hne Hnan. destruct Sxx as [| row0 Sxx]; [contradiction |].
  inversion Hnan as [| ? ? [rest0 ->] _]; subst.
  unfold linear_to_mel, npf.dot, create_mel_filterbank, npf.shape1.
  rewrite map_map.
  apply Forall_forall. intros row Hrow. apply in_map_iff in Hrow.
  destruct Hrow as [i [<- _]].
  cbn [hd length seq map combine nth].
  rewrite sum_nan; [eexists; reflexivity |].
  left. apply fmul_nan_r.
Qed.

Lemma to_db_nan (m : matrix) :
  Forall nan_head m -> Forall nan_head (to_db m).
Proof.
  intros H. unfold to_db. apply Forall_forall. intros row Hrow.
  apply in_map_iff in Hrow. destruct Hrow as [r [<- Hin]].
  destruct (proj1 (Forall_forall _ _) H r Hin) as [rest ->].
  eexists. reflexivity.
Qed.

Lemma zoom_nan (input : matrix) (factor : R * R) (rows cols : nat) :
  shape_is (npf.zoom input factor) rows cols ->
  rows <> 0%nat -> cols <> 0%nat ->
  nan_head (hd [] input) ->
  nan_head (hd [] (npf.zoom input factor)).
Proof.
  intros Hs Hr Hc [rest Hin].
  pose proof (zoom_shape input factor) as Hz.
  assert (E1 : Z.to_nat (py.round (INR (length input) * fst factor)) = rows)
    by (destruct Hs as [<- _], Hz as [<- _]; reflexivity).
  assert (E2 : Z.to_nat (py.round (INR (npf.shape1 input) * snd factor)) = cols).
  { rewrite <- (shape1_of_shape _ _ _ Hs Hr). symmetry.
    apply (shape1_of_shape _ _ _ Hz). rewrite E1. exact Hr. }
  unfold npf.zoom. rewrite E1, E2.
  destruct rows as [| rows]; [contradiction |].
  destruct cols as [| cols]; [contradiction |].
  cbn [seq map hd INR]. rewrite !Rmult_0_l.
  unfold npf.interpolate. rewrite ZfloorZ.
  destruct input as [| row0 input]; [discriminate |].
  cbn [hd] in Hin. subst row0. cbn [Z.to_nat nth].
  eexists. reflexivity.
Qed.

Lemma resize_to_target_nan (features resized : matrix) (rows cols target : nat) :
  shape_is features rows cols -> rows <> 0%nat -> cols <> 0%nat -> target <> 0%nat ->
  nan_head (hd [] features) ->
  resize_to_target features target = Ok resized ->
  nan_head (hd [] resized).
Proof.
  intros Hs Hr Hc Ht Hnan. unfold resize_to_target.
  rewrite (shape1_of_shape _ _ _ Hs Hr).
  destruct (Nat.eqb_spec cols target) as [-> | Hne].
  { intros H. injection H as <-. exact Hnan. }
  destruct (Nat.eqb_spec cols 0) as [E | _]; [contradiction |].
  pose proof (zoom_shape features (1, INR target / INR cols)) as Hz.
  cbn [fst snd] in Hz.
  rewrite (shape1_of_shape _ _ _ Hs Hr), (proj1 Hs) in Hz.
  rewrite Rmult_1_r, round_INR in Hz.
  replace (INR cols * (INR target / INR cols)) with (INR target) in Hz
    by (field; apply not_0_INR; exact Hc).
  rewrite round_INR in Hz.
  rewrite (shape1_of_shape _ _ _ Hz Hr), Nat.ltb_irrefl.
  intros H. injection H as <-.
  apply (zoom_nan _ _ rows target); assumption.
Qed.

Lemma normalize_nan (m : matrix) :
  nan_head (hd [] m) -> normalize m = map (map (fun _ => NaN)) m.
Proof.
  intros [rest Hhd]. destruct m as [| row0 m]; [discriminate |].
  cbn [hd] in Hhd. subst row0.
  unfold normalize.
  assert (Hmu : npf.mean ((NaN :: rest) :: m) = NaN).
  { unfold npf.mean. rewrite sum_nan by (left; reflexivity). reflexivity. }
  rewrite Hmu.
  apply map_ext. intros row. apply map_ext. intros x.
  destruct x; reflexivity.
Qed.

Lemma all_nan_repeat (m : matrix) (rows cols : nat) :
  shape_is m rows cols ->
  map (map (fun _ => NaN)) m = repeat (repeat NaN cols) rows.
Proof.
  intros [<- Hc]. induction Hc as [| row m Hrow _ IH]; [reflexivity |].
  cbn [map length repeat]. f_equal; [| exact IH].
  rewrite <- Hrow. clear. induction row as [| x row IH]; [reflexivity |].
  cbn [map length repeat]. f_equal. exact IH.
Qed.

(** No step of the extraction looks at the values: a waveform that starts
    with NaN yields the tensor whose every cell is NaN. *)
Lemma extract_features_nan (y : list float) (sr : Z) :
  (257 <= sr)%Z -> nan_head y ->
  extract_features y sr
  = Ok {| dt := float32; data := repeat (repeat (repeat NaN 259) 64) 3 |}.
Proof.
  intros Hsr Hy.
  destruct (extract_features_ok y sr Hsr) as (Sxx & resized & HS & HR & Hshape & ->).
  assert (Hx : nan_head (preprocess_audio y sr))
    by (apply preprocess_audio_nan; [lia | exact Hy]).
  pose proof (preprocess_audio_length y sr) as Hlen.
  destruct (spectrogram_of_processed y sr Hsr)
    as (Sxx' & bins & frames & HS' & HshapeS & Hb & Hf).
  rewrite HS in HS'. injection HS' as <-.
  assert (HnS : Forall nan_head Sxx).
  { apply (spectrogram_nan _ _ _ _ _ Hx) in HS; [exact HS |].
    change (n_fft - hop_length)%nat with 768%nat. change n_fft with 1024%nat. lia. }
  assert (HneS : Sxx <> []) by (destruct HshapeS as [E _]; destruct Sxx; [cbn in E; congruence | discriminate]).
  pose proof (to_db_nan _ (linear_to_mel_nan Sxx sr n_mels HneS HnS)) as Hdb.
  assert (Hmel : shape_is (to_db (linear_to_mel Sxx sr n_mels)) 64 frames).
  { apply shape_is_map_map.
    rewrite <- (shape1_of_shape _ _ _ HshapeS Hb). apply linear_to_mel_shape. }
  assert (Hhd : nan_head (hd [] (to_db (linear_to_mel Sxx sr n_mels)))).
  { destruct Hmel as [E _].
    destruct (to_db (linear_to_mel Sxx sr n_mels)) as [| row0 m]; [discriminate |].
    inversion Hdb; subst. assumption. }
  assert (Hres : nan_head (hd [] resized)).
  { destruct (negb _) in HR.
    - apply (resize_to_target_nan _ _ 64 frames 259 Hmel); try assumption; discriminate.
    - apply Ok_inj in HR. rewrite <- HR. exact Hhd. }
  rewrite (normalize_nan _ Hres), (all_nan_repeat _ _ _ Hshape). reflexivity.
Qed.

(** C6 (as the code has it): no finiteness check is made.  At a sample
    rate of at least 257 Hz every waveform gets a tensor, and a waveform whose
    first sample is NaN gets the tensor whose every cell is NaN. *)
Theorem extract_features_passes_nan (y : list float) (sr : Z) :
  (257 <= sr)%Z ->
  (exists t, extract_features y sr = Ok t)
  /\ (hd (Num 0) y = NaN ->
      extract_features y sr
      = Ok {| dt := float32; data := repeat (repeat (repeat NaN 259) 64) 3 |}).
Proof.
  intros Hsr. split.
  - destruct (extract_features_ok y sr Hsr) as (Sxx & resized & _ & _ & _ & ->).
    eexists. reflexivity.
  - intros Hhd. apply extract_features_nan; [exact Hsr |].
    destruct y as [| x rest]; [discriminate |]. cbn [hd] in Hhd. subst x.
    eexists. reflexivity.
Qed.

Lemma extract_features_passes_nan_witness :
  extract_features [NaN; Num 1; Num 0] 22050
  = Ok {| dt := float32; data := repeat (repeat (repeat NaN 259) 64) 3 |}.
Proof.
  apply (proj2 (extract_features_passes_nan [NaN; Num 1; Num 0] 22050 ltac:(lia))).
  reflexivity.
Defined.

(** C6 (as stated) fails: a waveform made of one NaN sample, at 22050 Hz,
    is answered with a tensor of NaN, not with a failure. *)
Lemma nan_sample_returns_nan_tensor :
  extract_features [NaN] 22050
  = Ok {| dt := float32; data := repeat (repeat (repeat NaN 259) 64) 3 |}.
Proof. apply extract_features_nan; [lia | eexists; reflexivity]. Qed.

(** C4 (as stated) fails: twelve seconds of silence whose very first
    sample is NaN, and a classifier that refuses non-finite features.  Only
    the first of the six windows holds the NaN; the classifier raises on it
    and the scan returns that exception, with no result for the other five
    windows. *)
Lemma scan_raises_on_failing_window :
  app.analyze_long_audio {| model_loader.model := Some finite_only_network |}
    (NaN :: repeat (Num 0) (Z.to_nat 264599)) 22050 (7 / 10)
  = Raise "Prediction failed: non-finite features".
Proof.
  apply (analyze_long_audio_raise _ _ _ _ [] [] 0%Z
           [33075; 66150; 99225; 132300; 165375]%Z).
  - apply range_twelve_seconds. cbn [length]. rewrite repeat_length. lia.
  - constructor.
  - unfold app.classify_window.
    change (py.int (3 * inject_Z 22050)) with 66150%Z.
    rewrite extract_features_nan.
    + reflexivity.
    + lia.
    + unfold py.slice. cbn [Z.to_nat skipn]. eexists. reflexivity.
Qed.

End NonFinite.

(** ** Autocorrelation *)

Section Autocorrelation.

Lemma sum_map_ext {A : Type} (f g : A -> R) (l : list A) :
  (forall i, In i l -> f i = g i) -> np.sum (map f l) = np.sum (map g l).
Proof.
  intros H. induction l as [| i l IH]; [reflexivity |].
  cbn [map np.sum fold_right]. rewrite (H i) by (left; reflexivity).
  f_equal. apply IH. intros j Hj. apply H. right. exact Hj.
Qed.

Lemma sum_app (l1 l2 : list R) : np.sum (l1 ++ l2) = np.sum l1 + np.sum l2.
Proof.
  induction l1 as [| x l1 IH]; cbn [List.app np.sum fold_right].
  - unfold np.sum. lra.
  - fold (np.sum (l1 ++ l2)). fold (np.sum l1). rewrite IH. lra.
Qed.

Lemma sum_map_zero {A : Type} (f : A -> R) (l : list A) :
  (forall i, In i l -> f i = 0) -> np.sum (map f l) = 0.
Proof.
  intros H. induction l as [| i l IH]; [reflexivity |].
  cbn [map np.sum fold_right]. fold (np.sum (map f l)).
  rewrite (H i) by (left; reflexivity).
  rewrite IH by (intros j Hj; apply H; right; exact Hj). lra.
Qed.

Lemma sum_map_combine {A : Type} (f g : A -> R) (c d : R) (l : list A) :
  np.sum (map (fun i => c * f i + d * g i) l)
  = c * np.sum (map f l) + d * np.sum (map g l).
Proof.
  induction l as [| i l IH]; cbn [map np.sum fold_right].
  - lra.
  - fold (np.sum (map (fun i => c * f i + d * g i) l)).
    fold (np.sum (map f l)). fold (np.sum (map g l)). rewrite IH. lra.
Qed.

Lemma sum_map_nonneg {A : Type} (f : A -> R) (l : list A) :
  (forall i, 0 <= f i) -> 0 <= np.sum (map f l).
Proof.
  intros H. induction l as [| i l IH]; cbn [map np.sum fold_right]; [lra |].
  fold (np.sum (map f l)). pose proof (H i). lra.
Qed.

Lemma sum_map_nonneg_zero {A : Type} (f : A -> R) (l : list A) :
  (forall i, 0 <= f i) -> np.sum (map f l) = 0 -> forall i, In i l -> f i = 0.
Proof.
  intros H. induction l as [| j l IH]; intros Hs i Hi; [contradiction |].
  cbn [map np.sum fold_right] in Hs. fold (np.sum (map f l)) in Hs.
  pose proof (H j). pose proof (sum_map_nonneg f l H).
  destruct Hi as [<- | Hi]; [lra |]. apply IH; [lra | exact Hi].
Qed.

Lemma seq_shift_map (start len : nat) :
  seq start len = map (fun i => (start + i)%nat) (seq 0 len).
Proof.
  revert start. induction len as [| len IH]; intros start; [reflexivity |].
  cbn [seq map]. f_equal; [lia |].
  rewrite (IH (S start)), (IH 1%nat), map_map.
  apply map_ext. intros i. lia.
Qed.

(** A sum over [0 .. n + m) is the sum over [0 .. n) plus the shifted sum
    over [0 .. m). *)
Lemma sum_seq_split (f : nat -> R) (n m : nat) :
  np.sum (map f (seq 0 (n + m)))
  = np.sum (map f (seq 0 n)) + np.sum (map (fun i => f (n + i)%nat) (seq 0 m)).
Proof.
  rewrite seq_app, map_app, sum_app. f_equal.
  cbn [Nat.add]. rewrite (seq_shift_map n m), map_map. reflexivity.
Qed.

Lemma delayed_before (a : list R) (s i : nat) : (i < s)%nat -> delayed a s i = 0.
Proof. intros H. unfold delayed. destruct (Nat.ltb_spec i s); [reflexivity | lia]. Qed.

Lemma delayed_after (a : list R) (s i : nat) : delayed a s (s + i) = nth i a 0.
Proof.
  unfold delayed. destruct (Nat.ltb_spec (s + i) s); [lia |].
  f_equal. lia.
Qed.

(** The lagged product, written with the delayed signal over the joint
    support of both. *)
Lemma lagged_product_delayed (a : list R) (s : nat) :
  lagged_product a s
  = np.sum (map (fun i => nth i a 0 * delayed a s i) (seq 0 (s + length a))).
Proof.
  rewrite sum_seq_split.
  rewrite sum_map_zero.
  2:{ intros i Hi. apply in_seq in Hi. rewrite delayed_before by lia. ring. }
  rewrite Rplus_0_l. unfold lagged_product.
  apply sum_map_ext. intros i _. rewrite delayed_after.
  rewrite (Nat.add_comm i s). ring.
Qed.

Lemma lagged_product_delayed_short (a : list R) (s : nat) :
  lagged_product a s
  = np.sum (map (fun i => nth i a 0 * delayed a s i) (seq 0 (length a))).
Proof.
  rewrite lagged_product_delayed, (Nat.add_comm s), sum_seq_split.
  rewrite (sum_map_zero (fun i => nth (length a + i) a 0 * delayed a s (length a + i))).
  - ring.
  - intros i _. rewrite nth_overflow by lia. ring.
Qed.

Lemma energy_padded (a : list R) (s : nat) :
  np.sum (map (fun i => nth i a 0 * nth i a 0) (seq 0 (s + length a)))
  = lagged_product a 0.
Proof.
  rewrite (Nat.add_comm s), sum_seq_split.
  rewrite (sum_map_zero (fun i => nth (length a + i) a 0 * nth (length a + i) a 0)).
  2:{ intros i _. rewrite nth_overflow by lia. ring. }
  rewrite Rplus_0_r. unfold lagged_product.
  apply sum_map_ext. intros i _. rewrite Nat.add_0_r. reflexivity.
Qed.

Lemma energy_delayed (a : list R) (s : nat) :
  np.sum (map (fun i => delayed a s i * delayed a s i) (seq 0 (s + length a)))
  = lagged_product a 0.
Proof.
  rewrite sum_seq_split.
  rewrite sum_map_zero.
  2:{ intros i Hi. apply in_seq in Hi. rewrite delayed_before by lia. ring. }
  rewrite Rplus_0_l. unfold lagged_product.
  apply sum_map_ext. intros i _. rewrite delayed_after, Nat.add_0_r. reflexivity.
Qed.

(** The squared distance between a signal and [e] times its delayed copy,
    for [e] of square 1. *)
Lemma squared_difference (a : list R) (s : nat) (e : R) :
  e * e = 1 ->
  np.sum (map (fun i => (nth i a 0 - e * delayed a s i)
                        * (nth i a 0 - e * delayed a s i))
              (seq 0 (s + length a)))
  = 2 * lagged_product a 0 - 2 * e * lagged_product a s.
Proof.
  intros He.
  rewrite (sum_map_ext _
             (fun i => 1 * (1 * (nth i a 0 * nth i a 0)
                            + 1 * (delayed a s i * delayed a s i))
                       + (- 2 * e) * (nth i a 0 * delayed a s i))).
  2:{ intros i _.
      replace (1 * (delayed a s i * delayed a s i))
        with ((e * e) * (delayed a s i * delayed a s i)) by (rewrite He; ring).
      ring. }
  rewrite (sum_map_combine
             (fun i => 1 * (nth i a 0 * nth i a 0) + 1 * (delayed a s i * delayed a s i))
             (fun i => nth i a 0 * delayed a s i)).
  rewrite (sum_map_combine (fun i => nth i a 0 * nth i a 0)
                           (fun i => delayed a s i * delayed a s i)).
  rewrite energy_padded, energy_delayed, <- lagged_product_delayed. ring.
Qed.

(** A signal that agrees, up to sign, with a proper delay of itself is
    zero. *)
Lemma delayed_copy_zero (a : list R) (s : nat) (e : R) :
  (1 <= s)%nat ->
  (forall i, (i < s + length a)%nat -> nth i a 0 = e * delayed a s i) ->
  forall i, nth i a 0 = 0.
Proof.
  intros Hs H i. induction i as [i IH] using lt_wf_ind.
  destruct (Nat.lt_ge_cases i (s + length a)) as [Hi | Hi].
  - rewrite (H i Hi). unfold delayed.
    destruct (Nat.ltb_spec i s); [ring |].
    rewrite IH by lia. ring.
  - apply nth_overflow. lia.
Qed.

Lemma lagged_product_signed (a : list R) (s : nat) (e : R) :
  e * e = 1 -> (1 <= s)%nat -> (exists j, nth j a 0 <> 0) ->
  e * lagged_product a s < lagged_product a 0.
Proof.
  intros He Hs [j Hj].
  pose proof (squared_difference a s e He) as Hsq.
  pose proof (sum_map_nonneg
                (fun i => (nth i a 0 - e * delayed a s i)
                          * (nth i a 0 - e * delayed a s i))
                (seq 0 (s + length a))) as Hpos.
  rewrite Hsq in Hpos.
  assert (H0 : 0 <= 2 * lagged_product a 0 - 2 * e * lagged_product a s)
    by (apply Hpos; intros i; apply Rle_0_sqr).
  destruct (Req_dec_T (2 * lagged_product a 0 - 2 * e * lagged_product a s) 0)
    as [E | NE]; [| lra].
  exfalso. apply Hj. apply (delayed_copy_zero a s e Hs).
  intros i Hi. rewrite <- Hsq in E.
  pose proof (sum_map_nonneg_zero _ _ (fun i => Rle_0_sqr _) E i) as Hz.
  assert (Hin : In i (seq 0 (s + length a))) by (apply in_seq; lia).
  specialize (Hz Hin). cbv beta in Hz.
  apply Rmult_integral in Hz. lra.
Qed.

(** The autocorrelation has its only peak at lag 0. *)
Lemma lagged_product_strict (a : list R) (s : nat) :
  (1 <= s)%nat -> (exists j, nth j a 0 <> 0) ->
  Rabs (lagged_product a s) < lagged_product a 0.
Proof.
  intros Hs Hne.
  pose proof (lagged_product_signed a s 1 ltac:(lra) Hs Hne).
  pose proof (lagged_product_signed a s (-1) ltac:(lra) Hs Hne).
  unfold Rabs. destruct (Rcase_abs _); lra.
Qed.

Lemma nth_map_seq (F : nat -> R) (m k : nat) :
  (k < m)%nat -> nth k (map F (seq 0 m)) 0 = F k.
Proof.
  intros H. rewrite (nth_indep _ 0 (F 0%nat)) by (rewrite length_map, length_seq; exact H).
  rewrite map_nth, seq_nth by exact H. reflexivity.
Qed.

Lemma at_or_zero_nat (a : list R) (i : nat) : np.at_or_zero a (Z.of_nat i) = nth i a 0.
Proof.
  unfold np.at_or_zero. destruct (Z.ltb_spec (Z.of_nat i) 0); [lia |].
  rewrite Nat2Z.id. reflexivity.
Qed.

Lemma at_or_zero_delayed (a : list R) (s n : nat) :
  np.at_or_zero a (Z.of_nat n - Z.of_nat s) = delayed a s n.
Proof.
  unfold np.at_or_zero, delayed.
  destruct (Z.ltb_spec (Z.of_nat n - Z.of_nat s) 0), (Nat.ltb_spec n s);
    try lia; try reflexivity.
  f_equal. lia.
Qed.

Lemma correlate_full_eq (a v : list R) :
  a <> [] -> v <> [] ->
  np.correlate_full a v
  = Ok (map (fun k =>
               np.sum (map (fun n =>
                              np.at_or_zero a
                                (Z.of_nat n + Z.of_nat k - (Z.of_nat (length v) - 1))
                              * nth n v 0)
                           (seq 0 (length v))))
            (seq 0 (length a + length v - 1))).
Proof. intros Ha Hv. destruct a, v; try contradiction; reflexivity. Qed.

(** The correlation of a signal with itself, [s] samples after the middle
    and [s] samples before it. *)
Lemma autocorrelation_after (a c : list R) (s : nat) :
  np.correlate_full a a = Ok c -> (s < length a)%nat ->
  nth (length a - 1 + s) c 0 = lagged_product a s.
Proof.
  intros Hc Hs.
  rewrite correlate_full_eq in Hc by (intros ->; cbn in Hs; lia).
  apply Ok_inj in Hc. subst c.
  rewrite nth_map_seq by lia. unfold lagged_product.
  apply sum_map_ext. intros n _.
  replace (Z.of_nat n + Z.of_nat (length a - 1 + s) - (Z.of_nat (length a) - 1))%Z
    with (Z.of_nat (n + s)) by lia.
  rewrite at_or_zero_nat. ring.
Qed.

Lemma autocorrelation_before (a c : list R) (s : nat) :
  np.correlate_full a a = Ok c -> (s < length a)%nat ->
  nth (length a - 1 - s) c 0 = lagged_product a s.
Proof.
  intros Hc Hs.
  rewrite correlate_full_eq in Hc by (intros ->; cbn in Hs; lia).
  apply Ok_inj in Hc. subst c.
  rewrite nth_map_seq by lia. rewrite lagged_product_delayed_short.
  apply sum_map_ext. intros n _.
  replace (Z.of_nat n + Z.of_nat (length a - 1 - s) - (Z.of_nat (length a) - 1))%Z
    with (Z.of_nat n - Z.of_nat s)%Z by lia.
  rewrite at_or_zero_delayed. ring.
Qed.

Lemma argmax_from_spec (xs : list R) :
  forall (pre : list R) (best : R) (best_i i : nat),
    i = length pre ->
    (best_i < i)%nat ->
    nth best_i pre 0 = best ->
    (forall k, (k < best_i)%nat -> nth k pre 0 < best) ->
    (forall k, (k < i)%nat -> nth k pre 0 <= best) ->
    (np.argmax_from best best_i i xs < length (pre ++ xs))%nat
    /\ (forall k, (k < length (pre ++ xs))%nat ->
                  nth k (pre ++ xs) 0
                  <= nth (np.argmax_from best best_i i xs) (pre ++ xs) 0)
    /\ (forall k, (k < np.argmax_from best best_i i xs)%nat ->
                  nth k (pre ++ xs) 0
                  < nth (np.argmax_from best best_i i xs) (pre ++ xs) 0).
Proof.
  induction xs as [| x xs IH]; intros pre best best_i i Hi Hb Hbest Hfirst Hall.
  - cbn [np.argmax_from]. rewrite app_nil_r. subst i. rewrite Hbest.
    repeat split; [exact Hb | exact Hall | exact Hfirst].
  - cbn [np.argmax_from].
    replace (pre ++ x :: xs) with ((pre ++ [x]) ++ xs)
      by (rewrite <- app_assoc; reflexivity).
    assert (Hlen : S i = length (pre ++ [x]))
      by (rewrite length_app; cbn; lia).
    assert (Hold : forall k, (k < i)%nat -> nth k (pre ++ [x]) 0 = nth k pre 0)
      by (intros k Hk; apply app_nth1; lia).
    assert (Hnew : nth i (pre ++ [x]) 0 = x)
      by (subst i; apply nth_middle).
    destruct (Rlt_dec best x) as [Hlt | Hge]; apply IH; try exact Hlen; try lia.
    + exact Hnew.
    + intros k Hk. rewrite Hold by exact Hk. pose proof (Hall k Hk). lra.
    + intros k Hk. destruct (Nat.eq_dec k i) as [-> | Hne].
      * rewrite Hnew. lra.
      * rewrite Hold by lia. pose proof (Hall k ltac:(lia)). lra.
    + rewrite Hold by exact Hb. exact Hbest.
    + intros k Hk. rewrite Hold by lia. apply Hfirst. exact Hk.
    + intros k Hk. destruct (Nat.eq_dec k i) as [-> | Hne].
      * rewrite Hnew. lra.
      * rewrite Hold by lia. apply Hall. lia.
Qed.

(** Where [argmax] points: an entry that no entry exceeds and that every
    earlier entry is below. *)
Lemma argmax_first (l : list R) (p : nat) :
  np.argmax l = Ok p ->
  (p < length l)%nat
  /\ (forall k, (k < length l)%nat -> nth k l 0 <= nth p l 0)
  /\ (forall k, (k < p)%nat -> nth k l 0 < nth p l 0).
Proof.
  destruct l as [| x rest]; [discriminate |].
  cbn [np.argmax]. intros H. apply Ok_inj in H. subst p.
  apply (argmax_from_spec rest [x] x 0 1).
  - reflexivity.
  - lia.
  - reflexivity.
  - intros k Hk. lia.
  - intros k Hk. replace k with 0%nat by lia. cbn. lra.
Qed.

(** An entry above every other one is where [argmax] points. *)
Lemma argmax_unique (l : list R) (p : nat) :
  (p < length l)%nat ->
  (forall k, (k < length l)%nat -> k <> p -> nth k l 0 < nth p l 0) ->
  np.argmax l = Ok p.
Proof.
  intros Hp Hmax.
  destruct (np.argmax l) as [j | e] eqn:E.
  - destruct (argmax_first l j E) as (Hj & Hle & _).
    destruct (Nat.eq_dec j p) as [-> | NE]; [reflexivity |].
    pose proof (Hmax j Hj NE). pose proof (Hle p Hp). lra.
  - destruct l; [cbn in Hp; lia | discriminate].
Qed.

(** The parabolic refinement never divides by zero: the peak of the
    absolute correlation is above its left neighbour and not below its right
    one. *)
Lemma refinement_denominator (c : list R) (p : nat) :
  np.argmax (map Rabs c) = Ok p ->
  (0 < p)%nat -> (p + 1 < length c)%nat ->
  2 * (2 * nth p c 0 - nth (p - 1) c 0 - nth (p + 1) c 0) <> 0.
Proof.
  intros H Hp Hq.
  destruct (argmax_first _ _ H) as (Hlen & Hle & Hlt).
  rewrite length_map in Hlen, Hle.
  assert (Habs : forall k, (k < length c)%nat -> nth k (map Rabs c) 0 = Rabs (nth k c 0)).
  { intros k Hk. rewrite (nth_indep _ 0 (Rabs 0)) by (rewrite length_map; exact Hk).
    apply map_nth. }
  pose proof (Hlt (p - 1)%nat ltac:(lia)) as Hleft.
  pose proof (Hle (p + 1)%nat Hq) as Hright.
  rewrite !Habs in Hleft, Hright by lia.
  intros E.
  assert (E' : 2 * nth p c 0 = nth (p - 1) c 0 + nth (p + 1) c 0) by lra.
  pose proof (Rabs_triang (nth (p - 1) c 0) (nth (p + 1) c 0)) as Ht.
  rewrite <- E', Rabs_mult, (Rabs_pos_eq 2) in Ht by lra.
  lra.
Qed.

Lemma lagged_product_zero_nonneg (a : list R) : 0 <= lagged_product a 0.
Proof.
  unfold lagged_product. apply sum_map_nonneg. intros n.
  rewrite Nat.add_0_r. apply Rle_0_sqr.
Qed.

(** The delay of a non-zero signal against itself is 0. *)
Lemma refined_tdoa_self (a : list R) (sr : Z) :
  (exists j, nth j a 0 <> 0) -> app.refined_tdoa a a sr = Ok 0.
Proof.
  intros Hne.
  assert (Hlen : (1 <= length a)%nat).
  { destruct Hne as [j Hj]. destruct a; [destruct j; contradiction | cbn; lia]. }
  assert (Ha : a <> []) by (intros ->; cbn in Hlen; lia).
  destruct (correlate_full_ok a a Ha Ha) as [c [Hc Hclen]].
  unfold app.refined_tdoa. rewrite Hc. cbn [bind].
  assert (Hmid : nth (length a - 1) c 0 = lagged_product a 0).
  { rewrite <- (autocorrelation_after a c 0 Hc) by lia. f_equal. lia. }
  assert (Hpeak : np.argmax (map Rabs c) = Ok (length a - 1)%nat).
  { apply argmax_unique; rewrite length_map; [lia |].
    intros k Hk Hkp.
    rewrite !(nth_indep (map Rabs c) 0 (Rabs 0)) by (rewrite length_map; lia).
    rewrite !map_nth, Hmid.
    rewrite (Rabs_pos_eq (lagged_product a 0)) by apply lagged_product_zero_nonneg.
    destruct (Nat.lt_ge_cases k (length a - 1)) as [Hlt | Hge].
    - replace k with (length a - 1 - (length a - 1 - k))%nat by lia.
      rewrite (autocorrelation_before a c _ Hc) by lia.
      apply lagged_product_strict; [lia | exact Hne].
    - replace k with (length a - 1 + (k - (length a - 1)))%nat by lia.
      rewrite (autocorrelation_after a c _ Hc) by lia.
      apply lagged_product_strict; [lia | exact Hne]. }
  rewrite Hpeak. cbn [bind]. f_equal.
  assert (HN : INR (length a - 1) = INR (length a) - 1)
    by (rewrite minus_INR by lia; reflexivity).
  destruct ((0 <? Z.of_nat (length a - 1))%Z
            && (Z.of_nat (length a - 1) <? Z.of_nat (length c) - 1)%Z) eqn:E.
  - apply andb_prop in E. destruct E as [E1 _]. apply Z.ltb_lt in E1.
    rewrite (autocorrelation_before a c 1 Hc) by lia.
    rewrite (autocorrelation_after a c 1 Hc) by lia.
    rewrite HN. unfold Rdiv. ring.
  - rewrite HN. unfold Rdiv. ring.
Qed.

Lemma fold_left_Rmax_ge (xs : list R) :
  forall init,
    init <= fold_left Rmax xs init
    /\ forall x, In x xs -> x <= fold_left Rmax xs init.
Proof.
  induction xs as [| y xs IH]; intros init; cbn [fold_left].
  - split; [lra | intros x []].
  - destruct (IH (Rmax init y)) as [H1 H2].
    pose proof (Rmax_l init y). pose proof (Rmax_r init y).
    split; [lra |]. intros x [<- | Hx]; [lra | apply H2; exact Hx].
Qed.

Lemma max_ge (xs : list R) (m : R) :
  np.max xs = Ok m -> forall x, In x xs -> x <= m.
Proof.
  destruct xs as [| y xs]; [discriminate |].
  cbn [np.max]. intros H. apply Ok_inj in H. subst m.
  destruct (fold_left_Rmax_ge xs y) as [H1 H2].
  intros x [<- | Hx]; [exact H1 | apply H2; exact Hx].
Qed.

(** The normalised copy of any of the first [channels] channels, when the
    channels are identical. *)
Lemma column_identical (channels : nat) (frames : list (list R)) (peak : R) (i : nat) :
  Forall (fun row => exists x, row = repeat x channels) frames ->
  (i < channels)%nat ->
  np.column (map (map (fun x => x / peak)) frames) i
  = map (fun row => nth 0 row 0 / peak) frames.
Proof.
  intros Hid Hi. unfold np.column. rewrite map_map.
  apply map_ext_in. intros row Hrow.
  destruct (proj1 (Forall_forall _ _) Hid row Hrow) as [x ->].
  rewrite map_repeat, !nth_repeat_lt by lia. reflexivity.
Qed.

(** C8: when all channels of a waveform with at least three channels are
    identical and not identically zero, both delays are 0. *)
Theorem identical_channels_zero_delay (channels : nat) (frames : list (list R))
  (sr : Z) :
  (3 <= channels)%nat ->
  (0 < sr)%Z ->
  Forall (fun row => exists x, row = repeat x channels) frames ->
  (exists row x, In row frames /\ In x row /\ x <> 0) ->
  app.calculate_tdoa_enhanced (np.Arr2 channels frames) sr = (Some [0; 0], None).
Proof.
  intros Hc Hsr Hid (row & x & Hrow & Hx & Hx0).
  assert (Hflat : In (Rabs x) (map Rabs (np.flatten frames))).
  { apply in_map. unfold np.flatten. apply in_concat. exists row. split; assumption. }
  destruct (max_nonempty (map Rabs (np.flatten frames))) as [peak Hpeak].
  { intros E. rewrite E in Hflat. contradiction. }
  assert (Hpos : 0 < peak).
  { pose proof (max_ge _ _ Hpeak _ Hflat). pose proof (Rabs_pos_lt x Hx0). lra. }
  assert (Hself : app.refined_tdoa (map (fun row => nth 0 row 0 / peak) frames)
                    (map (fun row => nth 0 row 0 / peak) frames) sr = Ok 0).
  { apply refined_tdoa_self.
    destruct (In_nth frames row [] Hrow) as (j & Hj & Hnth).
    exists j.
    rewrite (nth_indep _ 0 (nth 0 ([] : list R) 0 / peak)) by (rewrite length_map; exact Hj).
    rewrite (map_nth (fun row => nth 0 row 0 / peak)), Hnth.
    destruct (proj1 (Forall_forall _ _) Hid row Hrow) as [x' ->].
    apply repeat_spec in Hx. subst x'.
    rewrite nth_repeat_lt by lia.
    intros E. apply Hx0.
    apply (Rmult_eq_reg_r (/ peak)); [| apply Rinv_neq_0_compat; lra].
    unfold Rdiv in E. rewrite E. ring. }
  assert (Hv : app.validate_tdoa 0 = 0).
  { unfold app.validate_tdoa, app.max_physical_delay. rewrite Rabs_R0.
    destruct (Rlt_dec (2 / 343) 0); [exfalso; lra | reflexivity]. }
  rewrite (calculate_tdoa_enhanced_eq channels frames sr peak 0 0 Hc Hpeak).
  - rewrite Hv. reflexivity.
  - rewrite !(column_identical channels frames peak) by (assumption || lia). exact Hself.
  - rewrite !(column_identical channels frames peak) by (assumption || lia). exact Hself.
Qed.

Lemma identical_channels_zero_delay_witness :
  app.calculate_tdoa_enhanced
    (np.Arr2 3 [[1; 1; 1]; [-2; -2; -2]; [1 / 2; 1 / 2; 1 / 2]]) 22050
  = (Some [0; 0], None).
Proof.
  apply identical_channels_zero_delay.
  - lia.
  - lia.
  - repeat (constructor; [eexists; reflexivity |]). constructor.
  - exists [1; 1; 1], 1. split; [left; reflexivity | split; [left; reflexivity | lra]].
Defined.

End Autocorrelation.

(** * Further properties of the code *)

(** ** audio_processor.py: padding, truncation, mel scale, resizing, loading *)

Section Preprocessing.

Import audio_processor.

Lemma preprocess_audio_nth (y : list float) (sr : Z) (i : nat) :
  (i < Z.to_nat (3 * sr))%nat ->
  nth i (preprocess_audio y sr) (Num 0) = nth i y (Num 0).
Proof.
  intros Hi. unfold preprocess_audio. rewrite target_samples_eq.
  destruct (Z.ltb_spec (Z.of_nat (length y)) (3 * sr)) as [H | H].
  - destruct (Nat.lt_ge_cases i (length y)) as [Hlt | Hge].
    + apply app_nth1. exact Hlt.
    + rewrite app_nth2 by exact Hge.
      rewrite (nth_overflow y) by exact Hge.
      apply nth_repeat.
  - rewrite <- (firstn_skipn (Z.to_nat (3 * sr)) y) at 2.
    rewrite app_nth1; [reflexivity |].
    rewrite length_firstn. lia.
Qed.

Lemma preprocess_audio_ext (y1 y2 : list float) (sr : Z) :
  (forall i, (i < Z.to_nat (3 * sr))%nat -> nth i y1 (Num 0) = nth i y2 (Num 0)) ->
  preprocess_audio y1 sr = preprocess_audio y2 sr.
Proof.
  intros H.
  apply (nth_ext _ _ (Num 0) (Num 0)); [rewrite !preprocess_audio_length; reflexivity |].
  intros i Hi. rewrite preprocess_audio_length in Hi.
  rewrite !preprocess_audio_nth by exact Hi. apply H. exact Hi.
Qed.

(** X1: for a sample rate that is not negative, [preprocess_audio] returns
    exactly [3 * sr] samples: those of the input, read as zero beyond its
    end; applying it twice changes nothing more. *)
Theorem preprocess_audio_samples (y : list float) (sr : Z) :
  (0 <= sr)%Z ->
  length (preprocess_audio y sr) = Z.to_nat (3 * sr)
  /\ (forall i, (i < Z.to_nat (3 * sr))%nat ->
                nth i (preprocess_audio y sr) (Num 0) = nth i y (Num 0))
  /\ preprocess_audio (preprocess_audio y sr) sr = preprocess_audio y sr.
Proof.
  intros _.
  split; [apply preprocess_audio_length |].
  split; [intros i Hi; apply preprocess_audio_nth; exact Hi |].
  apply preprocess_audio_ext. intros i Hi. apply preprocess_audio_nth. exact Hi.
Qed.

Lemma preprocess_audio_samples_witness :
  nth 1 (preprocess_audio [Num 1; Num 2] 1) (Num 0) = Num 2.
Proof.
  apply (proj1 (proj2 (preprocess_audio_samples [Num 1; Num 2] 1 ltac:(lia)))).
  cbn. lia.
Defined.

(** X2: the features depend on the first three seconds only: two waveforms
    that agree there, read as zero beyond their ends, have the same features,
    and so have a waveform, its first three seconds and its zero-padded
    copies. *)
Theorem extract_features_first_three_seconds (y1 y2 : list float) (sr : Z) :
  (0 <= sr)%Z ->
  (forall i, (i < Z.to_nat (3 * sr))%nat -> nth i y1 (Num 0) = nth i y2 (Num 0)) ->
  extract_features y1 sr = extract_features y2 sr.
Proof.
  intros _ H. unfold extract_features.
  rewrite (preprocess_audio_ext y1 y2 sr H). reflexivity.
Qed.

Lemma extract_features_first_three_seconds_witness :
  extract_features (repeat (Num 1) (Z.to_nat 66150) ++ [Num 5; NaN]) 22050
  = extract_features (repeat (Num 1) (Z.to_nat 66150)) 22050.
Proof.
  apply extract_features_first_three_seconds; [lia |].
  intros i Hi. apply app_nth1. rewrite repeat_length. lia.
Defined.

End Preprocessing.

Section MelScale.

Import audio_processor.

Lemma ln_10_pos : 0 < ln 10.
Proof. rewrite <- ln_1. apply ln_increasing; lra. Qed.

(** X3: the two conversions of the mel scale are inverse of each other:
    from Hz to mel and back for every frequency above -700 Hz, from mel to Hz
    and back for every mel value. *)
Theorem mel_hz_round_trip (frequency mel : R) :
  (-700 < frequency -> mel_to_hz (hz_to_mel frequency) = frequency)
  /\ hz_to_mel (mel_to_hz mel) = mel.
Proof.
  pose proof ln_10_pos as H10.
  split.
  - intros Hf. unfold mel_to_hz, hz_to_mel, Rpower.
    replace (2595 * (ln (1 + frequency / 700) / ln 10) / 2595 * ln 10)
      with (ln (1 + frequency / 700)) by (field; lra).
    rewrite exp_ln by lra. field.
  - unfold mel_to_hz, hz_to_mel, Rpower.
    replace (1 + 700 * (exp (mel / 2595 * ln 10) - 1) / 700)
      with (exp (mel / 2595 * ln 10)) by field.
    rewrite ln_exp. field. lra.
Qed.

Lemma mel_hz_round_trip_witness :
  mel_to_hz (hz_to_mel 11025) = 11025.
Proof. apply (proj1 (mel_hz_round_trip 11025 0)). lra. Defined.

End MelScale.

Section Resize.

Import audio_processor.

(** X4: for a matrix of at least one row, [resize_to_target] returns the
    input itself when it already has the target number of columns, raises a
    division by zero when it has no column, and otherwise returns a matrix
    with the same number of rows and exactly the target number of columns,
    which a second call leaves as it is. *)
Theorem resize_to_target_frames (features : matrix) (rows cols target : nat) :
  shape_is features rows cols -> rows <> 0%nat -> target <> 0%nat ->
  (cols = target -> resize_to_target features target = Ok features)
  /\ (cols = 0%nat -> resize_to_target features target = Raise "division by zero")
  /\ (cols <> 0%nat ->
      exists resized,
        resize_to_target features target = Ok resized
        /\ shape_is resized rows target
        /\ resize_to_target resized target = Ok resized).
Proof.
  intros Hs Hr Ht. split; [| split].
  - intros ->. unfold resize_to_target.
    rewrite (shape1_of_shape _ _ _ Hs Hr), Nat.eqb_refl. reflexivity.
  - intros ->. unfold resize_to_target.
    rewrite (shape1_of_shape _ _ _ Hs Hr).
    destruct (Nat.eqb_spec 0 target) as [E | _]; [congruence | reflexivity].
  - intros Hc.
    destruct (resize_to_target_shape features rows cols target Hs Hr Hc)
      as [resized [E Hshape]].
    exists resized. split; [exact E |]. split; [exact Hshape |].
    unfold resize_to_target.
    rewrite (shape1_of_shape _ _ _ Hshape Hr), Nat.eqb_refl. reflexivity.
Qed.

Lemma resize_to_target_frames_witness :
  exists resized,
    resize_to_target [[Num 1; Num 2]; [Num 3; Num 4]] 3 = Ok resized
    /\ shape_is resized 2 3
    /\ resize_to_target resized 3 = Ok resized.
Proof.
  apply (resize_to_target_frames [[Num 1; Num 2]; [Num 3; Num 4]] 2 2 3).
  - split; [reflexivity | repeat constructor].
  - discriminate.
  - discriminate.
  - discriminate.
Defined.

End Resize.

Section Prediction.

Import model_loader.

Lemma predict_fields (self : ModelLoader) (features : audio_processor.tensor)
  (threshold : R) (r : prediction) :
  predict self features threshold = Ok r ->
  exists net logits,
    model self = Some net
    /\ net (audio_processor.data features) = Ok logits
    /\ r = {| is_drone := Rleb threshold (snd (softmax logits));
              confidence := Rmax (fst (softmax logits)) (snd (softmax logits));
              class_probabilities := softmax logits;
              predicted_class :=
                nth (if Rlt_dec (fst (softmax logits)) (snd (softmax logits))
                     then 1 else 0)%nat class_names ""%string;
              raw_drone_probability := snd (softmax logits);
              threshold_used := threshold |}.
Proof.
  unfold predict. destruct (model self) as [net |]; [| discriminate].
  destruct (net (audio_processor.data features)) as [logits | e] eqn:E;
    cbn [bind]; [| discriminate].
  intros H. apply Ok_inj in H. subst r.
  exists net, logits. repeat split; assumption.
Qed.

(** X5: a prediction carries two class probabilities between 0 and 1 that
    sum to one (in exact arithmetic); the predicted class is "drone" exactly
    when the drone probability is the larger one, [is_drone] holds whenever
    the reported drone probability is at least the threshold, and the
    threshold is reported back as it was given.  (The source compares the
    single-precision probability with the threshold, so a probability just
    below the threshold can be flagged too: nothing is stated in that
    direction.) *)
Theorem predict_probabilities (self : ModelLoader)
  (features : audio_processor.tensor) (threshold : R) (r : prediction) :
  predict self features threshold = Ok r ->
  0 <= fst (class_probabilities r) <= 1
  /\ 0 <= snd (class_probabilities r) <= 1
  /\ fst (class_probabilities r) + snd (class_probabilities r) = 1
  /\ raw_drone_probability r = snd (class_probabilities r)
  /\ threshold_used r = threshold
  /\ (predicted_class r = "drone"%string
      <-> fst (class_probabilities r) < snd (class_probabilities r))
  /\ (predicted_class r = "non_drone"%string
      <-> snd (class_probabilities r) <= fst (class_probabilities r))
  /\ (threshold <= snd (class_probabilities r) -> is_drone r = true).
Proof.
  intros H. destruct (predict_fields _ _ _ _ H) as [net [logits [_ [_ ->]]]].
  cbn [class_probabilities raw_drone_probability predicted_class is_drone
       threshold_used].
  destruct (softmax_sum logits) as [H0 [H1 Hsum]].
  split; [lra |]. split; [lra |]. split; [exact Hsum |].
  split; [reflexivity |]. split; [reflexivity |].
  split; [| split]; [split | split | apply Rleb_true].
  - destruct (Rlt_dec _ _) as [L | L]; [trivial | discriminate].
  - destruct (Rlt_dec _ _) as [L | L]; [reflexivity | contradiction].
  - destruct (Rlt_dec _ _) as [L | L]; [discriminate | intros _; lra].
  - destruct (Rlt_dec _ _) as [L | L]; [intros; lra | reflexivity].
Qed.

Lemma predict_probabilities_witness :
  exists r,
    predict {| model := Some (fun _ => Ok (0, 0)) |}
      {| audio_processor.dt := audio_processor.float32; audio_processor.data := [] |}
      (1 / 4) = Ok r
    /\ fst (class_probabilities r) + snd (class_probabilities r) = 1
    /\ is_drone r = true.
Proof.
  set (self := {| model := Some (fun _ => Ok (0, 0)) |}).
  set (features := {| audio_processor.dt := audio_processor.float32;
                      audio_processor.data := [] |}).
  pose proof (predict_eq self _ features (1 / 4) (0, 0) eq_refl eq_refl) as E.
  eexists. split; [exact E |].
  destruct (predict_probabilities _ _ _ _ E)
    as (_ & _ & Hsum & _ & _ & _ & _ & Hdrone).
  split; [exact Hsum |]. apply Hdrone.
  cbn [class_probabilities snd softmax]. rewrite exp_0. lra.
Defined.



Lemma predict_batch_from (self : ModelLoader)
  (features_list : list audio_processor.tensor) :
  forall results,
    fold_left
      (fun results features =>
         match predict self features 0.5 with
         | Ok r => results ++ [Predicted r]
         | Raise e => results ++ [Failed e]
         end)
      features_list results
    = results ++ map (fun features =>
                        match predict self features 0.5 with
                        | Ok r => Predicted r
                        | Raise e => Failed e
                        end) features_list.
Proof.
  induction features_list as [| f rest IH]; intros results; cbn [fold_left map].
  - rewrite app_nil_r. reflexivity.
  - rewrite IH. destruct (predict self f 0.5); rewrite <- app_assoc; reflexivity.
Qed.

(** X7: [predict_batch] never raises and answers every input, in order:
    entry [i] of its result is the prediction of input [i] at threshold 0.5,
    or the error of that prediction alone; without a model every entry is
    the error "Model not loaded". *)
Theorem predict_batch_entries (self : ModelLoader)
  (features_list : list audio_processor.tensor) :
  length (predict_batch self features_list) = length features_list
  /\ (forall i features,
        nth_error features_list i = Some features ->
        nth_error (predict_batch self features_list) i
        = Some (match predict self features 0.5 with
                | Ok r => Predicted r
                | Raise e => Failed e
                end))
  /\ (model self = None ->
      predict_batch self features_list
      = repeat (Failed "Model not loaded") (length features_list)).
Proof.
  unfold predict_batch. rewrite predict_batch_from. cbn [app].
  split; [apply length_map |]. split.
  - intros i features H. rewrite nth_error_map, H. reflexivity.
  - intros Hm. induction features_list as [| f rest IH]; [reflexivity |].
    cbn [map length repeat]. rewrite IH. unfold predict. rewrite Hm. reflexivity.
Qed.

Lemma predict_batch_entries_witness :
  predict_batch {| model := None |}
    [{| audio_processor.dt := audio_processor.float32; audio_processor.data := [] |}]
  = [Failed "Model not loaded"].
Proof.
  apply (proj2 (proj2 (predict_batch_entries {| model := None |}
    [{| audio_processor.dt := audio_processor.float32; audio_processor.data := [] |}]))).
  reflexivity.
Defined.

End Prediction.

Section Loading.

Import audio_processor.

(** X8: whatever the decoder returns, a successful
    [load_audio_from_fileobj] yields a one-dimensional waveform at 22050 Hz,
    so the test for at least three channels that the detection endpoints
    make on it is never met. *)
Theorem loaded_audio_is_mono (sf_read : result (waveform * Z))
  (signal_resample : list float -> Z -> result (list float))
  (audio : waveform) (rate : Z) :
  load_audio_from_fileobj sf_read signal_resample = Ok (audio, rate) ->
  rate = 22050%Z
  /\ (exists samples, audio = Mono samples)
  /\ app.enough_channels audio = false.
Proof.
  unfold load_audio_from_fileobj.
  destruct sf_read as [[decoded original_sr] | e]; cbn [bind]; [| discriminate].
  match goal with
  | |- context [bind ?m _] => destruct m as [samples | e]
  end; cbn [bind]; [| discriminate].
  intros H. apply Ok_inj in H. injection H as <- <-.
  split; [reflexivity |]. split; [eexists; reflexivity | reflexivity].
Qed.

Lemma loaded_audio_is_mono_witness :
  load_audio_from_fileobj (Ok (Mono [Num 1; Num 2], 44100%Z))
    (fun xs n => Ok (firstn (Z.to_nat n) xs))
  = Ok (Mono [Num 1], 22050%Z)
  /\ app.enough_channels (Mono [Num 1]) = false.
Proof.
  assert (E : load_audio_from_fileobj (Ok (Mono [Num 1; Num 2], 44100%Z))
                (fun xs n => Ok (firstn (Z.to_nat n) xs))
              = Ok (Mono [Num 1], 22050%Z)) by reflexivity.
  split; [exact E |].
  exact (proj2 (proj2 (loaded_audio_is_mono _ _ _ _ E))).
Defined.

(** X9: every failure of [load_audio_from_fileobj] is reported with the
    prefix "Audio loading failed: ": it is the error of the decoder, or the
    error of the resampler under the second prefix "Resampling failed: ". *)
Theorem load_failure_is_wrapped (sf_read : result (waveform * Z))
  (signal_resample : list float -> Z -> result (list float)) (e : string) :
  load_audio_from_fileobj sf_read signal_resample = Raise e ->
  (exists e', sf_read = Raise e' /\ e = ("Audio loading failed: " ++ e')%string)
  \/ (exists decoded original_sr e',
        sf_read = Ok (decoded, original_sr)
        /\ original_sr <> 22050%Z
        /\ e = ("Audio loading failed: Resampling failed: " ++ e')%string).
Proof.
  unfold load_audio_from_fileobj.
  destruct sf_read as [[decoded original_sr] | e0]; cbn [bind].
  - destruct (Z.eqb_spec original_sr sr) as [-> | Hne]; cbn [negb bind];
      [discriminate |].
    unfold resample_audio.
    destruct (if (original_sr =? 0)%Z then _ else _) as [resampled | e1];
      cbn [bind]; [discriminate |].
    intros H. injection H as <-. right.
    exists decoded, original_sr, e1.
    split; [reflexivity |]. split; [exact Hne | reflexivity].
  - intros H. injection H as <-. left. exists e0. split; reflexivity.
Qed.

Lemma load_failure_is_wrapped_witness :
  load_audio_from_fileobj (Raise "Format not recognised") (fun xs _ => Ok xs)
  = Raise "Audio loading failed: Format not recognised".
Proof.
  destruct (load_failure_is_wrapped (Raise "Format not recognised")
              (fun xs _ => Ok xs) _ eq_refl) as [[e' [H E]] | [d [o [e' [H _]]]]].
  - reflexivity.
  - discriminate H.
Defined.

End Loading.

Section Multilateration.

Import app.

Lemma solved_position_three (t1 t2 c : R) (m0 m1 m2 : R * R) (rest : list (R * R)) :
  solved_position [t1; t2] (m0 :: m1 :: m2 :: rest) c
  = (solution <-
       np.lstsq [[2 * (fst m1 - fst m0); 2 * (snd m1 - snd m0)];
                 [2 * (fst m2 - fst m0); 2 * (snd m2 - snd m0)]]
                [[fst m1 * fst m1 + snd m1 * snd m1 - fst m0 * fst m0
                  - snd m0 * snd m0 - t1 * c * (t1 * c)];
                 [fst m2 * fst m2 + snd m2 * snd m2 - fst m0 * fst m0
                  - snd m0 * snd m0 - t2 * c * (t2 * c)]] ;;
     Ok (np.flatten solution)).
Proof. destruct m0, m1, m2. reflexivity. Qed.

Lemma lstsq_two (a11 a12 a21 a22 b1 b2 : R) :
  exists x y, np.lstsq [[a11; a12]; [a21; a22]] [[b1]; [b2]] = Ok [[x]; [y]].
Proof.
  unfold np.lstsq. repeat destruct (Req_dec_T _ _); eexists; eexists; reflexivity.
Qed.

Lemma solved_position_two (tdoas : list R) (mics : list (R * R)) (c : R) :
  length tdoas = 2%nat -> (3 <= length mics)%nat ->
  exists x y, solved_position tdoas mics c = Ok [x; y].
Proof.
  intros Ht Hm.
  destruct tdoas as [| t1 [| t2 [| ? ?]]]; try discriminate Ht.
  destruct mics as [| m0 [| m1 [| m2 rest]]]; cbn [length] in Hm; try lia.
  rewrite solved_position_three.
  destruct (lstsq_two (2 * (fst m1 - fst m0)) (2 * (snd m1 - snd m0))
              (2 * (fst m2 - fst m0)) (2 * (snd m2 - snd m0))
              (fst m1 * fst m1 + snd m1 * snd m1 - fst m0 * fst m0
               - snd m0 * snd m0 - t1 * c * (t1 * c))
              (fst m2 * fst m2 + snd m2 * snd m2 - fst m0 * fst m0
               - snd m0 * snd m0 - t2 * c * (t2 * c))) as [x [y E]].
  rewrite E. exists x, y. reflexivity.
Qed.

Lemma out_of_area_inside (x y : R) :
  out_of_area [x; y] = false -> -10 <= x <= 10 /\ -10 <= y <= 10.
Proof.
  unfold out_of_area, Rltb. cbn [nth].
  repeat destruct (Rlt_dec _ _); cbn [orb]; try discriminate. intros _. lra.
Qed.

(** X10: [localize_drone_enhanced] answers "Invalid TDOA data" unless it is
    given exactly two delays; given two delays and at least three
    microphones it always returns a position and no error, and that position
    has two coordinates, both within [-10, 10]. *)
Theorem localize_drone_enhanced_in_area (tdoas : option (list R))
  (mics : list (R * R)) (c : R) :
  ((tdoas = None \/ exists ts, tdoas = Some ts /\ length ts <> 2%nat) ->
   localize_drone_enhanced tdoas mics c = (None, Some "Invalid TDOA data"%string))
  /\ ((exists ts, tdoas = Some ts /\ length ts = 2%nat) ->
      (3 <= length mics)%nat ->
      exists x y,
        localize_drone_enhanced tdoas mics c = (Some [x; y], None)
        /\ -10 <= x <= 10 /\ -10 <= y <= 10).
Proof.
  split.
  - intros [-> | [ts [-> Hlen]]]; [reflexivity |].
    unfold localize_drone_enhanced.
    destruct (Nat.eqb_spec (length ts) 2) as [E | _]; [contradiction | reflexivity].
  - intros [ts [-> Hlen]] Hm.
    destruct (solved_position_two ts mics c Hlen Hm) as [x [y Hsol]].
    rewrite (localize_solved _ _ _ _ Hlen Hsol).
    destruct (out_of_area [x; y]) eqn:E.
    + exists 1, 1. split; [reflexivity | lra].
    + exists x, y. split; [reflexivity | apply out_of_area_inside; exact E].
Qed.

Lemma localize_drone_enhanced_in_area_witness :
  exists x y,
    localize_drone_enhanced (Some [0; 0]) MIC_POSITIONS SOUND_SPEED
    = (Some [x; y], None)
    /\ -10 <= x <= 10 /\ -10 <= y <= 10.
Proof.
  apply (proj2 (localize_drone_enhanced_in_area (Some [0; 0]) MIC_POSITIONS SOUND_SPEED)).
  - exists [0; 0]. split; reflexivity.
  - cbn [MIC_POSITIONS length]. lia.
Defined.

Lemma Rabs_square (t t' : R) : Rabs t = Rabs t' -> t * t = t' * t'.
Proof.
  intros H. unfold Rabs in H.
  destruct (Rcase_abs t), (Rcase_abs t'); nra.
Qed.

(** X11: the solver only uses the squares of the delays: two delay vectors
    with the same absolute values give the same answer, so the sign of a
    delay (which microphone heard the sound first) has no effect. *)
Theorem localize_drone_enhanced_ignores_sign (t1 t2 t1' t2' : R)
  (mics : list (R * R)) (c : R) :
  Rabs t1 = Rabs t1' -> Rabs t2 = Rabs t2' ->
  localize_drone_enhanced (Some [t1; t2]) mics c
  = localize_drone_enhanced (Some [t1'; t2']) mics c.
Proof.
  intros H1 H2.
  assert (E : solved_position [t1; t2] mics c = solved_position [t1'; t2'] mics c).
  { destruct mics as [| [x0 y0] [| [x1 y1] [| m2 rest]]];
      [reflexivity | reflexivity | reflexivity |].
    rewrite !solved_position_three.
    replace (t1 * c * (t1 * c)) with (t1' * c * (t1' * c))
      by (pose proof (Rabs_square _ _ H1); nra).
    replace (t2 * c * (t2 * c)) with (t2' * c * (t2' * c))
      by (pose proof (Rabs_square _ _ H2); nra).
    reflexivity. }
  unfold localize_drone_enhanced. cbn [length Nat.eqb negb]. rewrite E. reflexivity.
Qed.

Lemma localize_drone_enhanced_ignores_sign_witness :
  localize_drone_enhanced (Some [1 / 1000; 2 / 1000]) MIC_POSITIONS SOUND_SPEED
  = localize_drone_enhanced (Some [- (1 / 1000); 2 / 1000]) MIC_POSITIONS SOUND_SPEED.
Proof.
  apply localize_drone_enhanced_ignores_sign.
  - rewrite Rabs_Ropp. reflexivity.
  - reflexivity.
Defined.

(** X12: [localize_drone] builds the same matrix as the enhanced solver
    but the opposite right-hand side: whenever the least-squares position of
    [localize_drone_enhanced] is [(x, y)], [localize_drone] returns
    [(-x, -y)] for the same delays and microphones. *)
Theorem localize_drone_negates (tdoas : list R) (mics : list (R * R))
  (c x y : R) :
  length tdoas = 2%nat ->
  solved_position tdoas mics c = Ok [x; y] ->
  localize_drone (Some tdoas) mics c = (Some [- x; - y], None)
  /\ (out_of_area [x; y] = false ->
      localize_drone_enhanced (Some tdoas) mics c = (Some [x; y], None)).
Proof.
  intros Hlen Hsol. split.
  - destruct tdoas as [| t1 [| t2 [| ? ?]]]; try discriminate Hlen.
    destruct mics as [| [x0 y0] [| [x1 y1] [| [x2 y2] rest]]]; try discriminate Hsol.
    rewrite solved_position_three in Hsol. cbn [fst snd] in Hsol.
    revert Hsol.
    unfold localize_drone, py.getitem, np.lstsq.
    cbn [length Nat.eqb negb nth_error bind map nth].
    destruct (Req_dec_T _ 0) as [D | D]; [destruct (Req_dec_T _ 0) as [N | N] |];
      cbn [bind np.flatten concat List.app]; intros Hsol;
      apply Ok_inj in Hsol; injection Hsol as <- <-;
      (apply (f_equal (fun p => (Some p, @None string)));
       apply f_equal2; [| apply f_equal2; [| reflexivity]]);
      try lra; field; assumption.
  - intros Hin. rewrite (localize_solved _ _ _ _ Hlen Hsol), Hin. reflexivity.
Qed.

Lemma localize_drone_negates_witness :
  localize_drone (Some [0; 0]) [(0, 0); (2, 0); (0, 2)] 343 = (Some [- 1; - 1], None)
  /\ localize_drone_enhanced (Some [0; 0]) [(0, 0); (2, 0); (0, 2)] 343
     = (Some [1; 1], None).
Proof.
  assert (E : solved_position [0; 0] [(0, 0); (2, 0); (0, 2)] 343 = Ok [1; 1]).
  { rewrite solved_position_right_angle by lra. list_eq; field. }
  destruct (localize_drone_negates [0; 0] [(0, 0); (2, 0); (0, 2)] 343 1 1
              eq_refl E) as [H1 H2].
  split; [exact H1 |]. apply H2. apply out_of_area_false; cbn [nth]; lra.
Defined.

Lemma solved_position_configured (t1 t2 : R) :
  solved_position [t1; t2] MIC_POSITIONS SOUND_SPEED
  = Ok [1 / 4 - (343 * t1) * (343 * t1); 1 / 4 - (343 * t2) * (343 * t2)].
Proof.
  unfold MIC_POSITIONS, SOUND_SPEED.
  rewrite solved_position_right_angle by lra. list_eq; lra.
Qed.

(** X13: with the configured microphones and speed of sound the position
    found is [(0.25 - (343 t1)^2, 0.25 - (343 t2)^2)]: each coordinate
    depends on one delay only and never exceeds 0.25 m; it is returned
    unless a coordinate is below -10, in which case the default (1, 1) is
    returned. *)
Theorem configured_array_position (t1 t2 : R) :
  let x := 1 / 4 - (343 * t1) * (343 * t1) in
  let y := 1 / 4 - (343 * t2) * (343 * t2) in
  x <= 1 / 4 /\ y <= 1 / 4
  /\ (-10 <= x -> -10 <= y ->
      localize_drone_enhanced (Some [t1; t2]) MIC_POSITIONS SOUND_SPEED
      = (Some [x; y], None))
  /\ (x < -10 \/ y < -10 ->
      localize_drone_enhanced (Some [t1; t2]) MIC_POSITIONS SOUND_SPEED
      = (Some [1; 1], None)).
Proof.
  intros x y.
  assert (Hx : x <= 1 / 4) by (subst x; nra).
  assert (Hy : y <= 1 / 4) by (subst y; nra).
  split; [exact Hx |]. split; [exact Hy |].
  rewrite (localize_solved [t1; t2] _ _ _ eq_refl (solved_position_configured t1 t2)).
  fold x y. split.
  - intros Lx Ly. rewrite out_of_area_false by (cbn [nth]; lra). reflexivity.
  - intros H. rewrite out_of_area_true by (cbn [nth]; lra). reflexivity.
Qed.

Lemma configured_array_position_witness :
  localize_drone_enhanced (Some [1 / 343; 0]) MIC_POSITIONS SOUND_SPEED
  = (Some [1 / 4 - (343 * (1 / 343)) * (343 * (1 / 343)); 1 / 4 - (343 * 0) * (343 * 0)],
     None).
Proof.
  apply (proj1 (proj2 (proj2 (configured_array_position (1 / 343) 0)))); lra.
Defined.

(** X14: for a positive sample rate and a waveform that is not identically
    zero, the delays that [calculate_tdoa_enhanced] returns are two, and
    [localize_drone_enhanced] with the configured array turns them into the
    position [(0.25 - (343 t1)^2, 0.25 - (343 t2)^2)] with both coordinates
    between -3.75 and 0.25: on the estimator's delays the default position
    is never substituted. *)
Theorem estimated_delays_localize (channels : nat) (frames : list (list R))
  (sr : Z) (tdoas : list R) :
  (0 < sr)%Z ->
  (exists row x, In row frames /\ In x row /\ x <> 0) ->
  calculate_tdoa_enhanced (np.Arr2 channels frames) sr = (Some tdoas, None) ->
  exists t1 t2,
    tdoas = [t1; t2]
    /\ localize_drone_enhanced (Some tdoas) MIC_POSITIONS SOUND_SPEED
       = (Some [1 / 4 - (343 * t1) * (343 * t1); 1 / 4 - (343 * t2) * (343 * t2)],
          None)
    /\ -15 / 4 <= 1 / 4 - (343 * t1) * (343 * t1) <= 1 / 4
    /\ -15 / 4 <= 1 / 4 - (343 * t2) * (343 * t2) <= 1 / 4.
Proof.
  intros _ _ H.
  destruct (calculate_tdoa_enhanced_inv _ _ _ _ H) as [peak [u1 [u2 [_ [_ [_ ->]]]]]].
  exists (validate_tdoa u1), (validate_tdoa u2).
  assert (B : forall u, -15 / 4 <= 1 / 4 - (343 * validate_tdoa u) * (343 * validate_tdoa u)
                        <= 1 / 4).
  { intros u. destruct (validate_tdoa_bounded u) as [Hb | ->]; [| lra].
    unfold max_physical_delay in Hb.
    assert (-2 <= 343 * validate_tdoa u <= 2).
    { unfold Rabs in Hb. destruct (Rcase_abs _); lra. }
    nra. }
  split; [reflexivity |].
  pose proof (B u1) as B1. pose proof (B u2) as B2.
  split; [| split; assumption].
  rewrite (localize_solved [_; _] _ _ _ eq_refl (solved_position_configured _ _)).
  rewrite out_of_area_false by (cbn [nth]; lra). reflexivity.
Qed.

Lemma estimated_delays_localize_witness :
  localize_drone_enhanced (Some [0; 0]) MIC_POSITIONS SOUND_SPEED
  = (Some [1 / 4 - (343 * 0) * (343 * 0); 1 / 4 - (343 * 0) * (343 * 0)], None).
Proof.
  assert (Hne : exists row x, In row [[1; 1; 1]] /\ In x row /\ x <> 0).
  { exists [1; 1; 1], 1. split; [left; reflexivity |].
    split; [left; reflexivity | lra]. }
  destruct (estimated_delays_localize 3 [[1; 1; 1]] 22050 [0; 0] ltac:(lia) Hne
              (calculate_tdoa_enhanced_one_frame 3 22050 (le_n 3)))
    as [t1 [t2 [E [H _]]]].
  injection E as <- <-. exact H.
Defined.

End Multilateration.

Section LongAudio.

Import app.

Lemma segment_samples_eq (sr : Z) : py.int (3 * inject_Z sr) = (3 * sr)%Z.
Proof.
  unfold py.int, inject_Z. cbn [Qmult Qnum Qden Pos.mul].
  rewrite Z.quot_1_r. reflexivity.
Qed.

Lemma hop_size_eq (sr : Z) : py.int (3 * inject_Z sr * (1 # 2)) = Z.quot (3 * sr) 2.
Proof.
  unfold py.int, inject_Z. cbn [Qmult Qnum Qden Pos.mul].
  rewrite Z.mul_1_r. reflexivity.
Qed.

Lemma hop_size_pos (sr : Z) : (0 < sr)%Z -> (0 < Z.quot (3 * sr) 2)%Z.
Proof.
  intros H. rewrite Z.quot_div_nonneg by lia.
  apply Z.div_str_pos. lia.
Qed.

(** [range(start, stop, step)] with a positive step. *)
Lemma range_positive (start stop step : Z) :
  (0 < step)%Z ->
  py.range start stop step
  = Ok (map (fun i => (start + Z.of_nat i * step)%Z)
            (seq 0 (Z.to_nat ((stop - start + step - 1) / step)))).
Proof.
  intros H. unfold py.range.
  destruct (Z.eqb_spec step 0) as [E | _]; [lia |].
  destruct (Z.ltb_spec 0 step) as [_ | L]; [reflexivity | lia].
Qed.

Lemma range_empty (start stop step : Z) :
  (0 < step)%Z -> (stop <= start)%Z -> py.range start stop step = Ok [].
Proof.
  intros H L. rewrite range_positive by exact H.
  assert ((stop - start + step - 1) / step < 1)%Z
    by (apply Z.div_lt_upper_bound; lia).
  replace (Z.to_nat _) with 0%nat by lia. reflexivity.
Qed.

(** X15: a recording of at most three seconds is not scanned at all:
    whatever the classifier, [analyze_long_audio] returns no segment, a
    confidence of 0 and no best segment, and reports a detection only for a
    threshold that is not positive. *)
Theorem short_audio_not_scanned (loader : model_loader.ModelLoader)
  (audio : list float) (sr : Z) (threshold : R) :
  (0 < sr)%Z ->
  (Z.of_nat (length audio) <= 3 * sr)%Z ->
  analyze_long_audio loader audio sr threshold
  = Ok {| Scan.detected := Rleb threshold 0;
          Scan.confidence := 0;
          Scan.best_segment := None;
          Scan.segments := [];
          Scan.detection_summary :=
            {| Summary.total_segments := 0;
               Summary.detected_segments := 0;
               Summary.max_confidence := 0 |} |}.
Proof.
  intros Hsr Hlen.
  apply (analyze_long_audio_eq loader audio sr threshold [] []); [| constructor].
  rewrite segment_samples_eq, hop_size_eq.
  apply range_empty; [apply hop_size_pos; exact Hsr | lia].
Qed.

Lemma short_audio_not_scanned_witness :
  exists res,
    analyze_long_audio {| model_loader.model := None |}
      (repeat (Num 1) (Z.to_nat 66150)) 22050 (7 / 10) = Ok res
    /\ Scan.segments res = [] /\ Scan.detected res = false.
Proof.
  eexists. split.
  - apply short_audio_not_scanned; [lia |]. rewrite repeat_length. lia.
  - split; [reflexivity |]. apply Rleb_false. lra.
Defined.

Lemma Forall2_nth_error {A B : Type} (P : A -> B -> Prop) (xs : list A) (ys : list B) :
  Forall2 P xs ys ->
  length xs = length ys
  /\ forall i y, nth_error ys i = Some y ->
                 exists x, nth_error xs i = Some x /\ P x y.
Proof.
  induction 1 as [| x y xs ys Hxy HF [IHl IH]].
  - split; [reflexivity |]. intros [| i] y H; discriminate H.
  - split; [cbn [length]; congruence |].
    intros [| i] y' H; cbn [nth_error] in *.
    + injection H as <-. exists x. split; [reflexivity | exact Hxy].
    + apply IH. exact H.
Qed.

(** X16: the windows of a successful scan.  With [hop] the integer part of
    [1.5 * sr] and [total] the number of samples, the scan has
    [ceil((total - 3 sr) / hop)] segments; segment [i] starts at sample
    [i * hop], is three seconds long, and ends strictly before the last
    sample of the recording. *)
Theorem scan_windows (loader : model_loader.ModelLoader) (audio : list float)
  (sr : Z) (threshold : R) (res : Scan.t) :
  (0 < sr)%Z ->
  analyze_long_audio loader audio sr threshold = Ok res ->
  let hop := Z.quot (3 * sr) 2 in
  let total := Z.of_nat (length audio) in
  length (Scan.segments res) = Z.to_nat ((total - 3 * sr + hop - 1) / hop)
  /\ forall i info,
       nth_error (Scan.segments res) i = Some info ->
       Segment.start_time info = IZR (Z.of_nat i * hop) / IZR sr
       /\ Segment.end_time info = IZR (Z.of_nat i * hop + 3 * sr) / IZR sr
       /\ (Z.of_nat i * hop + 3 * sr < total)%Z.
Proof.
  intros Hsr H hop total.
  destruct (analyze_long_audio_inv _ _ _ _ _ H) as (starts & infos & Hr & HF & ->).
  rewrite summarize_segments.
  rewrite segment_samples_eq, hop_size_eq in Hr.
  fold hop total in Hr.
  assert (Hhop : (0 < hop)%Z) by (apply hop_size_pos; exact Hsr).
  rewrite range_positive in Hr by exact Hhop.
  apply Ok_inj in Hr. subst starts.
  destruct (Forall2_nth_error _ _ _ HF) as [Hlen Hnth].
  rewrite length_map, length_seq in Hlen.
  replace (total - 3 * sr - 0 + hop - 1)%Z with (total - 3 * sr + hop - 1)%Z in *
    by lia.
  split; [symmetry; exact Hlen |].
  intros i info Hi.
  destruct (Hnth i info Hi) as [s [Hs Hc]].
  assert (Hlt : (i < Z.to_nat ((total - 3 * sr + hop - 1) / hop))%nat).
  { rewrite Hlen. apply nth_error_Some. congruence. }
  rewrite nth_error_map, nth_error_seq in Hs.
  destruct (Nat.ltb_spec i (Z.to_nat ((total - 3 * sr + hop - 1) / hop)))
    as [_ | Hge]; [| lia].
  cbn [option_map] in Hs. injection Hs as Hs.
  assert (Es : s = (Z.of_nat i * hop)%Z) by (rewrite <- Hs; cbn [Nat.add]; lia).
  clear Hs. subst s.
  destruct (classify_window_inv _ _ _ _ _ _ _ Hc) as [Hst [Hen _]].
  rewrite segment_samples_eq in Hen.
  rewrite Hst, Hen.
  split; [reflexivity |]. split; [reflexivity |].
  assert (Hi' : (Z.of_nat i < (total - 3 * sr + hop - 1) / hop)%Z) by lia.
  assert (Hq : (hop * ((total - 3 * sr + hop - 1) / hop) <= total - 3 * sr + hop - 1)%Z)
    by (apply Z.mul_div_le; exact Hhop).
  nia.
Qed.

(** A recording one sample longer than three seconds at 257 Hz has a single
    window. *)
Lemma one_window_scan (logits : R * R) (threshold : R) :
  analyze_long_audio {| model_loader.model := Some (fun _ => Ok logits) |}
    (repeat (Num 0) 772) 257 threshold
  = Ok (summarize threshold
          (scan_update ([], 0, None)
             {| Segment.start_time := IZR 0 / IZR 257;
                Segment.end_time := IZR (0 + py.int (3 * inject_Z 257)) / IZR 257;
                Segment.confidence :=
                  Rmax (fst (model_loader.softmax logits))
                       (snd (model_loader.softmax logits));
                Segment.is_drone := Rleb threshold (snd (model_loader.softmax logits));
                Segment.probability := snd (model_loader.softmax logits) |})).
Proof.
  apply (analyze_long_audio_eq _ _ _ _ [0%Z] [_]); [reflexivity |].
  constructor; [| constructor].
  apply (classify_window_const _ (fun _ => Ok logits)); [lia | reflexivity | reflexivity].
Qed.

Lemma scan_windows_witness :
  exists res,
    analyze_long_audio {| model_loader.model := Some (fun _ => Ok (0, 0)) |}
      (repeat (Num 0) 772) 257 (7 / 10) = Ok res
    /\ length (Scan.segments res) = 1%nat.
Proof.
  eexists. split; [apply one_window_scan |].
  destruct (scan_windows _ _ 257 _ _ ltac:(lia) (one_window_scan (0, 0) (7 / 10)))
    as [Hl _].
  rewrite Hl. reflexivity.
Defined.

(** What the loop keeps beside the list: no best segment and a maximum of 0
    before the first window, afterwards a segment of the list whose
    confidence is the maximum. *)
Lemma scan_update_best (infos : list Segment.t) :
  Forall (fun info => 0 < Segment.confidence info) infos ->
  forall segments m best,
    match best with
    | None => m = 0 /\ segments = []
    | Some b => In b segments /\ Segment.confidence b = m
    end ->
    match fold_left scan_update infos (segments, m, best) with
    | (segments', m', None) => m' = 0 /\ segments' = []
    | (segments', m', Some b) => In b segments' /\ Segment.confidence b = m'
    end.
Proof.
  induction 1 as [| info infos Hpos _ IH]; intros segments m best I.
  - cbn [fold_left]. exact I.
  - cbn [fold_left]. unfold scan_update at 2.
    destruct (Rlt_dec m (Segment.confidence info)) as [L | L].
    + apply IH. split; [apply in_or_app; right; left; reflexivity | reflexivity].
    + apply IH. destruct best as [b |].
      * destruct I as [Hin Hc]. split; [apply in_or_app; left; exact Hin | exact Hc].
      * destruct I as [-> _]. contradiction.
Qed.

Lemma classified_confidence_pos (loader : model_loader.ModelLoader)
  (audio : list float) (sr : Z) (threshold : R) (seg : Z)
  (starts : list Z) (infos : list Segment.t) :
  Forall2 (fun s info => classify_window loader audio sr threshold seg s = Ok info)
          starts infos ->
  Forall (fun info =>
            0 < Segment.confidence info
            /\ (Segment.is_drone info = true -> threshold <= Segment.confidence info))
         infos.
Proof.
  induction 1 as [| s info starts infos Hc _ IH]; constructor; [| exact IH].
  destruct (classify_window_inv _ _ _ _ _ _ _ Hc) as [_ [_ [logits [-> [-> _]]]]].
  destruct (softmax_sum logits) as [H0 [H1 _]].
  pose proof (Rmax_l (fst (model_loader.softmax logits)) (snd (model_loader.softmax logits))).
  pose proof (Rmax_r (fst (model_loader.softmax logits)) (snd (model_loader.softmax logits))).
  split; [lra |].
  unfold Rleb. destruct (Rle_dec _ _); [intros _; lra | discriminate].
Qed.

(** X17: the aggregate of a successful scan is consistent with its list of
    segments: the counts are those of the list, the reported confidence
    bounds the confidence of every segment, and as soon as there is one
    segment the best segment is a segment of the list whose confidence is
    the reported one; the scan is flagged exactly when that confidence
    reaches the threshold. *)
Theorem scan_aggregate (loader : model_loader.ModelLoader) (audio : list float)
  (sr : Z) (threshold : R) (res : Scan.t) :
  analyze_long_audio loader audio sr threshold = Ok res ->
  Summary.total_segments (Scan.detection_summary res) = length (Scan.segments res)
  /\ Summary.detected_segments (Scan.detection_summary res)
     = length (filter Segment.is_drone (Scan.segments res))
  /\ (Summary.detected_segments (Scan.detection_summary res)
      <= Summary.total_segments (Scan.detection_summary res))%nat
  /\ Summary.max_confidence (Scan.detection_summary res) = Scan.confidence res
  /\ Forall (fun info => Segment.confidence info <= Scan.confidence res)
            (Scan.segments res)
  /\ (Scan.segments res = [] ->
      Scan.best_segment res = None /\ Scan.confidence res = 0)
  /\ (Scan.segments res <> [] ->
      exists best,
        Scan.best_segment res = Some best
        /\ In best (Scan.segments res)
        /\ Segment.confidence best = Scan.confidence res)
  /\ (Scan.detected res = true <-> threshold <= Scan.confidence res).
Proof.
  intros H.
  destruct (analyze_long_audio_inv _ _ _ _ _ H) as (starts & infos & _ & HF & ->).
  pose proof (classified_confidence_pos _ _ _ _ _ _ _ HF) as Hpos.
  assert (Hpos' : Forall (fun info => 0 < Segment.confidence info) infos).
  { eapply Forall_impl; [| exact Hpos]. intros info [Hp _]. exact Hp. }
  pose proof (scan_update_segments infos [] 0 None) as Hsegs.
  destruct (scan_update_max infos [] 0 None) as [_ Hmax].
  pose proof (scan_update_best infos Hpos' [] 0 None (conj eq_refl eq_refl)) as Hbest.
  destruct (fold_left scan_update infos ([], 0, None)) as [[segments m] best].
  cbn [fst snd List.app] in Hsegs, Hmax. subst segments.
  cbn [summarize Scan.detected Scan.detection_summary Scan.segments Scan.confidence
       Scan.best_segment Summary.detected_segments Summary.total_segments
       Summary.max_confidence].
  repeat split; try reflexivity.
  - apply filter_length_le.
  - exact Hmax.
  - destruct best as [b |]; [| reflexivity].
    destruct Hbest as [Hin _]. rewrite H0 in Hin. destruct Hin.
  - destruct best as [b |]; [| tauto].
    destruct Hbest as [Hin _]. rewrite H0 in Hin. destruct Hin.
  - intros Hne. destruct best as [b |].
    + exists b. destruct Hbest as [Hin Hc]. auto.
    + destruct Hbest as [_ ->]. contradiction.
  - unfold Rleb. destruct (Rle_dec _ _); [trivial | discriminate].
  - apply Rleb_true.
Qed.

Lemma scan_aggregate_witness :
  exists res,
    analyze_long_audio {| model_loader.model := None |}
      (repeat (Num 1) (Z.to_nat 66150)) 22050 (7 / 10) = Ok res
    /\ Summary.total_segments (Scan.detection_summary res)
       = length (Scan.segments res).
Proof.
  assert (E : analyze_long_audio {| model_loader.model := None |}
                (repeat (Num 1) (Z.to_nat 66150)) 22050 (7 / 10)
              = Ok (summarize (7 / 10) ([], 0, None))).
  { apply (analyze_long_audio_eq _ _ _ _ [] []); [| constructor].
    rewrite segment_samples_eq, hop_size_eq.
    apply range_empty; [apply hop_size_pos; lia | rewrite repeat_length; lia]. }
  eexists. split; [exact E |].
  exact (proj1 (scan_aggregate _ _ _ _ _ E)).
Defined.

Lemma classified_probability_le (loader : model_loader.ModelLoader)
  (audio : list float) (sr : Z) (threshold : R) (seg : Z)
  (starts : list Z) (infos : list Segment.t) :
  Forall2 (fun s info => classify_window loader audio sr threshold seg s = Ok info)
          starts infos ->
  Forall (fun info => Segment.probability info <= Segment.confidence info) infos.
Proof.
  induction 1 as [| s info starts infos Hc _ IH]; constructor; [| exact IH].
  destruct (classify_window_inv _ _ _ _ _ _ _ Hc) as [_ [_ [logits [-> [_ ->]]]]].
  apply Rmax_r.
Qed.

(** X18: a scan with at least one segment whose reported drone probability
    is at least the threshold is flagged as a detection, and its confidence
    is at least the threshold.  (The flag [is_drone] of a segment is not
    used: the source sets it by a single-precision comparison.) *)
Theorem probable_segment_flags_scan (loader : model_loader.ModelLoader)
  (audio : list float) (sr : Z) (threshold : R) (res : Scan.t) :
  analyze_long_audio loader audio sr threshold = Ok res ->
  Exists (fun s => threshold <= Segment.probability s) (Scan.segments res) ->
  Scan.detected res = true /\ threshold <= Scan.confidence res.
Proof.
  intros H.
  destruct (analyze_long_audio_inv _ _ _ _ _ H) as (starts & infos & _ & HF & ->).
  pose proof (classified_probability_le _ _ _ _ _ _ _ HF) as Hle.
  rewrite summarize_segments.
  pose proof (scan_update_segments infos [] 0 None) as Hsegs.
  destruct (scan_update_max infos [] 0 None) as [_ Hmax].
  destruct (fold_left scan_update infos ([], 0, None)) as [[segments m] best].
  cbn [fst snd List.app] in Hsegs, Hmax. subst segments.
  cbn [summarize Scan.detected Scan.confidence].
  intros Hex. apply Exists_exists in Hex. destruct Hex as (d & Hin & Hd).
  pose proof (proj1 (Forall_forall _ _) Hle d Hin) as Hp.
  pose proof (proj1 (Forall_forall _ _) Hmax d Hin) as Hm.
  split; [apply Rleb_true |]; lra.
Qed.

Lemma probable_segment_flags_scan_witness :
  exists res,
    analyze_long_audio {| model_loader.model := Some (fun _ => Ok (0, 0)) |}
      (repeat (Num 0) 772) 257 (1 / 2) = Ok res
    /\ Scan.detected res = true /\ 1 / 2 <= Scan.confidence res.
Proof.
  eexists. split; [apply one_window_scan |].
  apply (probable_segment_flags_scan _ _ _ _ _ (one_window_scan (0, 0) (1 / 2))).
  assert (Es : model_loader.softmax (0, 0) = (1 / 2, 1 / 2)).
  { unfold model_loader.softmax. rewrite exp_0. f_equal; lra. }
  rewrite Es. cbn [fst snd]. unfold scan_update, Segment.confidence.
  destruct (Rlt_dec _ _); cbn [summarize Scan.segments List.app];
    constructor; cbn [Segment.probability]; lra.
Defined.

End LongAudio.

Section IntegerDelays.

Import app.

Lemma calculate_tdoa_eq (channels : nat) (frames : list (list R)) (sr : Z)
  (t1 t2 : R) :
  (3 <= channels)%nat ->
  integer_tdoa (np.column frames 0) (np.column frames 1) sr = Ok t1 ->
  integer_tdoa (np.column frames 0) (np.column frames 2) sr = Ok t2 ->
  calculate_tdoa (np.Arr2 channels frames) sr = (Some [t1; t2], None).
Proof.
  intros Hc H1 H2. unfold calculate_tdoa.
  destruct (Nat.ltb_spec channels 3) as [L | _]; [lia |].
  cbn [for_each]. rewrite H1. cbn [bind]. rewrite H2. reflexivity.
Qed.

Lemma column_length (frames : list (list R)) (i : nat) :
  length (np.column frames i) = length frames.
Proof. apply length_map. Qed.

Lemma argmax_ok (l : list R) : l <> [] -> exists p, np.argmax l = Ok p.
Proof. destruct l; [contradiction | eexists; reflexivity]. Qed.

(** The integer delay of two channels of [n] samples each: a whole number
    of samples between [-(n - 1)] and [n - 1], over the sample rate. *)
Lemma integer_tdoa_lag (a v : list R) (sr : Z) :
  a <> [] -> length v = length a ->
  exists lag : Z,
    integer_tdoa a v sr = Ok (IZR lag / IZR sr)
    /\ (- (Z.of_nat (length a) - 1) <= lag <= Z.of_nat (length a) - 1)%Z.
Proof.
  intros Ha Hl.
  assert (Hv : v <> []) by (intros ->; destruct a; [contradiction | discriminate]).
  destruct (correlate_full_ok a v Ha Hv) as [c [Hc Hclen]].
  assert (Hne : c <> []).
  { intros ->. destruct a; [contradiction |]. cbn [length] in Hclen, Hl. lia. }
  destruct (argmax_ok c Hne) as [p Hp].
  destruct (argmax_first c p Hp) as [Hlt _].
  unfold integer_tdoa. rewrite Hc. cbn [bind]. rewrite Hp. cbn [bind].
  eexists. split; [reflexivity |]. lia.
Qed.

(** X19: [calculate_tdoa] refuses a waveform with fewer than three
    channels; for at least three channels, at least one frame and a positive
    sample rate it returns two delays, each a whole number of samples, at
    most the number of frames minus one in absolute value, divided by the
    sample rate; with no frame it returns an error. *)
Theorem calculate_tdoa_whole_samples (audio : np.ndarray) (sr : Z) :
  ((np.ndim audio <> 2 \/ np.channels_of audio < 3)%nat ->
   calculate_tdoa audio sr
   = (None, Some "Audio must have at least 3 channels for localization"%string))
  /\ (np.ndim audio = 2%nat -> (3 <= np.channels_of audio)%nat ->
      np.samples_of audio <> 0%nat -> (0 < sr)%Z ->
      exists lag1 lag2 : Z,
        calculate_tdoa audio sr
        = (Some [IZR lag1 / IZR sr; IZR lag2 / IZR sr], None)
        /\ (Z.abs lag1 <= Z.of_nat (np.samples_of audio) - 1)%Z
        /\ (Z.abs lag2 <= Z.of_nat (np.samples_of audio) - 1)%Z)
  /\ (np.ndim audio = 2%nat -> (3 <= np.channels_of audio)%nat ->
      np.samples_of audio = 0%nat ->
      exists e, calculate_tdoa audio sr = (None, Some e)).
Proof.
  destruct audio as [samples | channels frames];
    cbn [np.ndim np.channels_of np.samples_of].
  - split; [reflexivity |]. split; intros H; discriminate H.
  - split; [| split].
    + intros [H | H]; [contradiction |].
      unfold calculate_tdoa.
      destruct (Nat.ltb_spec channels 3) as [_ | L]; [reflexivity | lia].
    + intros _ Hc Hn _.
      assert (H0 : np.column frames 0 <> []).
      { intros E. apply (f_equal (@length R)) in E.
        rewrite column_length in E. cbn [length] in E. contradiction. }
      destruct (integer_tdoa_lag (np.column frames 0) (np.column frames 1) sr H0)
        as [lag1 [E1 B1]]; [rewrite !column_length; reflexivity |].
      destruct (integer_tdoa_lag (np.column frames 0) (np.column frames 2) sr H0)
        as [lag2 [E2 B2]]; [rewrite !column_length; reflexivity |].
      rewrite column_length in B1, B2.
      exists lag1, lag2.
      split; [apply calculate_tdoa_eq; assumption |]. lia.
    + intros _ Hc Hn. destruct frames; [| discriminate Hn].
      unfold calculate_tdoa.
      destruct (Nat.ltb_spec channels 3) as [L | _]; [lia |].
      eexists. reflexivity.
Qed.

Lemma calculate_tdoa_whole_samples_witness :
  exists lag1 lag2 : Z,
    calculate_tdoa (np.Arr2 3 [[0; 1; 0]; [1; 0; 0]]) 22050
    = (Some [IZR lag1 / IZR 22050; IZR lag2 / IZR 22050], None)
    /\ (Z.abs lag1 <= 1)%Z /\ (Z.abs lag2 <= 1)%Z.
Proof.
  apply (proj1 (proj2 (calculate_tdoa_whole_samples
                         (np.Arr2 3 [[0; 1; 0]; [1; 0; 0]]) 22050))).
  - reflexivity.
  - cbn [np.channels_of]. lia.
  - discriminate.
  - lia.
Defined.

Lemma integer_tdoa_self (a : list R) (sr : Z) :
  (exists j, nth j a 0 <> 0) -> integer_tdoa a a sr = Ok 0.
Proof.
  intros Hne.
  assert (Hlen : (1 <= length a)%nat).
  { destruct Hne as [j Hj]. destruct a; [destruct j; contradiction | cbn; lia]. }
  assert (Ha : a <> []) by (intros ->; cbn in Hlen; lia).
  destruct (correlate_full_ok a a Ha Ha) as [c [Hc Hclen]].
  unfold integer_tdoa. rewrite Hc. cbn [bind].
  assert (Hmid : nth (length a - 1) c 0 = lagged_product a 0).
  { rewrite <- (autocorrelation_after a c 0 Hc) by lia. f_equal. lia. }
  assert (Hpeak : np.argmax c = Ok (length a - 1)%nat).
  { apply argmax_unique; [lia |].
    intros k Hk Hkp. rewrite Hmid.
    destruct (Nat.lt_ge_cases k (length a - 1)) as [Hlt | Hge].
    - replace k with (length a - 1 - (length a - 1 - k))%nat by lia.
      rewrite (autocorrelation_before a c _ Hc) by lia.
      eapply Rle_lt_trans; [apply Rle_abs |].
      apply lagged_product_strict; [lia | exact Hne].
    - replace k with (length a - 1 + (k - (length a - 1)))%nat by lia.
      rewrite (autocorrelation_after a c _ Hc) by lia.
      eapply Rle_lt_trans; [apply Rle_abs |].
      apply lagged_product_strict; [lia | exact Hne]. }
  rewrite Hpeak. cbn [bind]. f_equal.
  replace (Z.of_nat (length a - 1) - (Z.of_nat (length a) - 1))%Z with 0%Z by lia.
  unfold Rdiv. ring.
Qed.

Lemma column_identical_raw (channels : nat) (frames : list (list R)) (i : nat) :
  Forall (fun row => exists x, row = repeat x channels) frames ->
  (i < channels)%nat ->
  np.column frames i = map (fun row => nth 0 row 0) frames.
Proof.
  intros Hid Hi. unfold np.column.
  apply map_ext_in. intros row Hrow.
  destruct (proj1 (Forall_forall _ _) Hid row Hrow) as [x ->].
  rewrite !nth_repeat_lt by lia. reflexivity.
Qed.

(** X20: when all channels of a waveform with at least three channels are
    identical and not identically zero, [calculate_tdoa] returns two delays
    of 0, for every positive sample rate. *)
Theorem calculate_tdoa_identical_channels (channels : nat)
  (frames : list (list R)) (sr : Z) :
  (3 <= channels)%nat ->
  (0 < sr)%Z ->
  Forall (fun row => exists x, row = repeat x channels) frames ->
  (exists row x, In row frames /\ In x row /\ x <> 0) ->
  calculate_tdoa (np.Arr2 channels frames) sr = (Some [0; 0], None).
Proof.
  intros Hc _ Hid (row & x & Hrow & Hx & Hx0).
  assert (Hself : integer_tdoa (map (fun row => nth 0 row 0) frames)
                    (map (fun row => nth 0 row 0) frames) sr = Ok 0).
  { apply integer_tdoa_self.
    destruct (In_nth frames row [] Hrow) as (j & Hj & Hnth).
    exists j.
    rewrite (nth_indep _ 0 (nth 0 ([] : list R) 0)) by (rewrite length_map; exact Hj).
    rewrite (map_nth (fun row => nth 0 row 0)), Hnth.
    destruct (proj1 (Forall_forall _ _) Hid row Hrow) as [x' ->].
    apply repeat_spec in Hx. subst x'.
    rewrite nth_repeat_lt by lia. exact Hx0. }
  apply calculate_tdoa_eq; [exact Hc | |];
    rewrite !(column_identical_raw channels frames) by (assumption || lia);
    exact Hself.
Qed.

Lemma calculate_tdoa_identical_channels_witness :
  calculate_tdoa (np.Arr2 3 [[1; 1; 1]; [-2; -2; -2]; [1 / 2; 1 / 2; 1 / 2]]) 22050
  = (Some [0; 0], None).
Proof.
  apply calculate_tdoa_identical_channels.
  - lia.
  - lia.
  - repeat (constructor; [eexists; reflexivity |]). constructor.
  - exists [1; 1; 1], 1. split; [left; reflexivity | split; [left; reflexivity | lra]].
Defined.






End IntegerDelays.

Section Refinement.

Import app.

Lemma parabolic_offset_bound (y1 y2 y3 : R) :
  Rabs y1 < Rabs y2 -> Rabs y3 <= Rabs y2 ->
  -1 / 2 <= (y3 - y1) / (2 * (2 * y2 - y1 - y3)) <= 1 / 2.
Proof.
  intros H1 H3.
  set (q := (y3 - y1) / (2 * (2 * y2 - y1 - y3))).
  pose proof (Rle_abs y1) as A1. pose proof (Rle_abs y3) as A3.
  pose proof (Rle_abs (- y1)) as B1. pose proof (Rle_abs (- y3)) as B3.
  rewrite Rabs_Ropp in B1, B3.
  destruct (Rle_lt_dec 0 y2) as [P | N].
  - rewrite (Rabs_pos_eq y2 P) in H1, H3.
    assert (D : 0 < 2 * y2 - y1 - y3) by lra.
    assert (Hq : q * (2 * (2 * y2 - y1 - y3)) = y3 - y1) by (unfold q; field; lra).
    split; nra.
  - rewrite (Rabs_left y2 N) in H1, H3.
    assert (D : 2 * y2 - y1 - y3 < 0) by lra.
    assert (Hq : q * (2 * (2 * y2 - y1 - y3)) = y3 - y1) by (unfold q; field; lra).
    split; nra.
Qed.

Lemma INR_affine (p n : nat) (k : Z) :
  (Z.of_nat p <= 2 * Z.of_nat n + k)%Z -> INR p <= 2 * INR n + IZR k.
Proof.
  intros H. rewrite !INR_IZR_INZ.
  replace (2 * IZR (Z.of_nat n) + IZR k) with (IZR (2 * Z.of_nat n + k))
    by (rewrite plus_IZR, mult_IZR; reflexivity).
  apply IZR_le. exact H.
Qed.

(** X22: for two channels of [n >= 1] samples each and a positive sample
    rate, [refined_tdoa] returns a delay.  With [c] the full correlation of
    the two channels ([2 n - 1] values) and [p] the first index of its
    largest absolute value: when [p] is not at an end of [c], the divisor of
    the parabolic interpolation is not zero, the offset it gives lies in
    [-1/2, 1/2] and the delay is [(p + offset - (n - 1)) / sr]; when [p] is
    at an end no offset is added and the delay is [(p - (n - 1)) / sr]; in
    both cases the delay is at most [(n - 1) / sr] in absolute value. *)
Theorem refined_tdoa_within_recording (a v : list R) (sr : Z) :
  a <> [] -> length v = length a -> (0 < sr)%Z ->
  exists (c : list R) (p : nat),
    np.correlate_full a v = Ok c
    /\ length c = (2 * length a - 1)%nat
    /\ np.argmax (map Rabs c) = Ok p
    /\ (p < length c)%nat
    /\ ((0 < p)%nat /\ (p + 1 < length c)%nat ->
        2 * (2 * nth p c 0 - nth (p - 1) c 0 - nth (p + 1) c 0) <> 0
        /\ -1 / 2
           <= (nth (p + 1) c 0 - nth (p - 1) c 0)
              / (2 * (2 * nth p c 0 - nth (p - 1) c 0 - nth (p + 1) c 0))
           <= 1 / 2
        /\ refined_tdoa a v sr
           = Ok ((INR p
                  + (nth (p + 1) c 0 - nth (p - 1) c 0)
                    / (2 * (2 * nth p c 0 - nth (p - 1) c 0 - nth (p + 1) c 0))
                  - (INR (length a) - 1)) / IZR sr))
    /\ (p = 0%nat \/ (p + 1)%nat = length c ->
        refined_tdoa a v sr = Ok ((INR p - (INR (length a) - 1)) / IZR sr))
    /\ exists t,
         refined_tdoa a v sr = Ok t
         /\ Rabs t <= (INR (length a) - 1) / IZR sr.
Proof.
  intros Ha Hl Hsr.
  assert (Hv : v <> []) by (intros ->; destruct a; [contradiction | discriminate]).
  destruct (correlate_full_ok a v Ha Hv) as [c [Hc Hclen]].
  assert (Hn : (1 <= length a)%nat) by (destruct a; [contradiction | cbn; lia]).
  assert (Hne : map Rabs c <> []).
  { intros E. apply (f_equal (@length R)) in E. rewrite length_map in E.
    cbn [length] in E. lia. }
  destruct (argmax_ok _ Hne) as [p Hp].
  destruct (argmax_first _ _ Hp) as (Hlen & Hle & Hlt).
  rewrite length_map in Hlen, Hle.
  assert (Habs : forall k, (k < length c)%nat -> nth k (map Rabs c) 0 = Rabs (nth k c 0)).
  { intros k Hk. rewrite (nth_indep _ 0 (Rabs 0)) by (rewrite length_map; exact Hk).
    apply map_nth. }
  assert (Hsr' : 0 < IZR sr) by (apply IZR_lt; exact Hsr).
  assert (Hbound : forall lag, Rabs lag <= INR (length a) - 1 ->
                               Rabs (lag / IZR sr) <= (INR (length a) - 1) / IZR sr).
  { intros lag Hlag. unfold Rdiv. rewrite Rabs_mult.
    rewrite (Rabs_pos_eq (/ IZR sr)) by (left; apply Rinv_0_lt_compat; exact Hsr').
    apply Rmult_le_compat_r; [left; apply Rinv_0_lt_compat; exact Hsr' | exact Hlag]. }
  pose proof (pos_INR p) as Hp0.
  assert (Hin : (0 < p)%nat /\ (p + 1 < length c)%nat ->
                refined_tdoa a v sr
                = Ok ((INR p
                       + (nth (p + 1) c 0 - nth (p - 1) c 0)
                         / (2 * (2 * nth p c 0 - nth (p - 1) c 0 - nth (p + 1) c 0))
                       - (INR (length a) - 1)) / IZR sr)).
  { intros [I1 I2]. unfold refined_tdoa.
    rewrite Hc. cbn [bind]. rewrite Hp. cbn [bind].
    replace ((0 <? Z.of_nat p)%Z && (Z.of_nat p <? Z.of_nat (length c) - 1)%Z)
      with true; [reflexivity |].
    symmetry. apply andb_true_intro. split; apply Z.ltb_lt; lia. }
  assert (Hend : p = 0%nat \/ (p + 1)%nat = length c ->
                 refined_tdoa a v sr = Ok ((INR p - (INR (length a) - 1)) / IZR sr)).
  { intros I. unfold refined_tdoa.
    rewrite Hc. cbn [bind]. rewrite Hp. cbn [bind].
    replace ((0 <? Z.of_nat p)%Z && (Z.of_nat p <? Z.of_nat (length c) - 1)%Z)
      with false; [reflexivity |].
    symmetry. apply andb_false_iff.
    destruct I as [I | I]; [left | right]; apply Z.ltb_ge; lia. }
  assert (Hoff : (0 < p)%nat /\ (p + 1 < length c)%nat ->
                 -1 / 2
                 <= (nth (p + 1) c 0 - nth (p - 1) c 0)
                    / (2 * (2 * nth p c 0 - nth (p - 1) c 0 - nth (p + 1) c 0))
                 <= 1 / 2).
  { intros [I1 I2].
    pose proof (Hlt (p - 1)%nat ltac:(lia)) as Hleft.
    pose proof (Hle (p + 1)%nat ltac:(lia)) as Hright.
    rewrite !Habs in Hleft, Hright by lia.
    exact (parabolic_offset_bound _ _ _ Hleft Hright). }
  exists c, p.
  split; [exact Hc |]. split; [lia |]. split; [exact Hp |]. split; [exact Hlen |].
  split; [| split; [exact Hend |]].
  - intros I. split; [| split; [exact (Hoff I) | exact (Hin I)]].
    destruct I as [I1 I2]. apply (refinement_denominator c p Hp); lia.
  - destruct (Nat.eq_dec p 0) as [E0 | E0];
      [| destruct (Nat.eq_dec (p + 1) (length c)) as [E1 | E1]].
    + eexists. split; [apply Hend; left; exact E0 |].
      apply Hbound. subst p. cbn [INR].
      assert (H1 : 1 <= INR (length a)) by (apply (le_INR 1); lia).
      unfold Rabs. destruct (Rcase_abs _); lra.
    + eexists. split; [apply Hend; right; exact E1 |].
      apply Hbound.
      assert (H2 : INR p <= 2 * INR (length a) + IZR (-2)) by (apply INR_affine; lia).
      assert (H1 : 1 <= INR (length a)) by (apply (le_INR 1); lia).
      unfold Rabs. destruct (Rcase_abs _); lra.
    + assert (I : (0 < p)%nat /\ (p + 1 < length c)%nat) by lia.
      eexists. split; [apply Hin; exact I |].
      apply Hbound. pose proof (Hoff I) as Ho.
      assert (H1 : 1 <= INR p) by (apply (le_INR 1); lia).
      assert (H2 : INR p <= 2 * INR (length a) + IZR (-3)) by (apply INR_affine; lia).
      unfold Rabs. destruct (Rcase_abs _); lra.
Qed.

Lemma refined_tdoa_within_recording_witness :
  exists (c : list R) (p : nat),
    np.correlate_full [0; 1] [1; 0] = Ok c
    /\ length c = (2 * length [0; 1] - 1)%nat
    /\ np.argmax (map Rabs c) = Ok p
    /\ (p < length c)%nat
    /\ ((0 < p)%nat /\ (p + 1 < length c)%nat ->
        2 * (2 * nth p c 0 - nth (p - 1) c 0 - nth (p + 1) c 0) <> 0
        /\ -1 / 2
           <= (nth (p + 1) c 0 - nth (p - 1) c 0)
              / (2 * (2 * nth p c 0 - nth (p - 1) c 0 - nth (p + 1) c 0))
           <= 1 / 2
        /\ refined_tdoa [0; 1] [1; 0] 1
           = Ok ((INR p
                  + (nth (p + 1) c 0 - nth (p - 1) c 0)
                    / (2 * (2 * nth p c 0 - nth (p - 1) c 0 - nth (p + 1) c 0))
                  - (INR (length [0; 1]) - 1)) / IZR 1))
    /\ (p = 0%nat \/ (p + 1)%nat = length c ->
        refined_tdoa [0; 1] [1; 0] 1
        = Ok ((INR p - (INR (length [0; 1]) - 1)) / IZR 1))
    /\ exists t,
         refined_tdoa [0; 1] [1; 0] 1 = Ok t
         /\ Rabs t <= (INR (length [0; 1]) - 1) / IZR 1.
Proof.
  apply (refined_tdoa_within_recording [0; 1] [1; 0] 1).
  - discriminate.
  - reflexivity.
  - lia.
Defined.

End Refinement.

Section Filterbank.

Import audio_processor.

Lemma hz_to_mel_0 : hz_to_mel 0 = 0.
Proof.
  unfold hz_to_mel. replace (1 + 0 / 700) with 1 by lra.
  rewrite ln_1. unfold Rdiv. ring.
Qed.

Lemma hz_to_mel_pos (f : R) : 0 < f -> 0 < hz_to_mel f.
Proof.
  intros H. unfold hz_to_mel.
  assert (0 < ln (1 + f / 700)).
  { rewrite <- ln_1. apply ln_increasing; lra. }
  pose proof ln_10_pos.
  apply Rmult_lt_0_compat; [lra |].
  apply Rdiv_lt_0_compat; assumption.
Qed.

Lemma mel_to_hz_increasing (m1 m2 : R) : m1 < m2 -> mel_to_hz m1 < mel_to_hz m2.
Proof.
  intros H. unfold mel_to_hz, Rpower.
  pose proof ln_10_pos as H10.
  assert (exp (m1 / 2595 * ln 10) < exp (m2 / 2595 * ln 10)).
  { apply exp_increasing. apply Rmult_lt_compat_r; [exact H10 | lra]. }
  lra.
Qed.

Lemma linspace_nth (a b : R) (num k : nat) :
  (k < num)%nat ->
  nth k (npf.linspace a b num) 0 = a + INR k * ((b - a) / INR (num - 1)).
Proof.
  intros H. unfold npf.linspace.
  apply (nth_map_seq (fun j => a + INR j * ((b - a) / INR (num - 1)))). exact H.
Qed.

Lemma Rinv_nonneg (x : R) : 0 <= x -> 0 <= / x.
Proof.
  intros [H | <-]; [left; apply Rinv_0_lt_compat; exact H | rewrite Rinv_0; lra].
Qed.

Lemma linspace_rising_nonneg (num k : nat) : 0 <= nth k (npf.linspace 0 1 num) 0.
Proof.
  destruct (Nat.lt_ge_cases k num) as [H | H].
  - rewrite linspace_nth by exact H.
    pose proof (pos_INR k). pose proof (Rinv_nonneg _ (pos_INR (num - 1))).
    unfold Rdiv. nra.
  - rewrite nth_overflow; [lra |].
    unfold npf.linspace. rewrite length_map, length_seq. exact H.
Qed.

Lemma linspace_falling_nonneg (num k : nat) : 0 <= nth k (npf.linspace 1 0 num) 0.
Proof.
  destruct (Nat.lt_ge_cases k num) as [H | H].
  - rewrite linspace_nth by exact H.
    destruct (Nat.eq_dec (num - 1) 0) as [E | E].
    + replace k with 0%nat by lia. cbn [INR]. lra.
    + assert (Hk : INR k <= INR (num - 1)) by (apply le_INR; lia).
      assert (Hn : 0 < INR (num - 1)) by (apply lt_0_INR; lia).
      assert (Hq : INR k * ((0 - 1) / INR (num - 1)) = - (INR k / INR (num - 1)))
        by (field; lra).
      rewrite Hq.
      assert (INR k / INR (num - 1) <= 1).
      { apply (Rmult_le_reg_r (INR (num - 1))); [exact Hn |].
        unfold Rdiv. rewrite Rmult_assoc, Rinv_l by lra. lra. }
      lra.
  - rewrite nth_overflow; [lra |].
    unfold npf.linspace. rewrite length_map, length_seq. exact H.
Qed.

(** The band edges in Hz are strictly increasing for a positive rate. *)
Lemma hz_points_increasing (sr : Z) (mels i j : nat) :
  (0 < sr)%Z -> (i < j)%nat -> (j < mels + 2)%nat ->
  nth i (map mel_to_hz
           (npf.linspace (hz_to_mel 0) (hz_to_mel (IZR sr / 2)) (mels + 2))) 0
  < nth j (map mel_to_hz
             (npf.linspace (hz_to_mel 0) (hz_to_mel (IZR sr / 2)) (mels + 2))) 0.
Proof.
  intros Hsr Hij Hj.
  unfold npf.linspace. rewrite map_map.
  rewrite !(nth_map_seq
              (fun x => mel_to_hz (hz_to_mel 0 + INR x *
                          ((hz_to_mel (IZR sr / 2) - hz_to_mel 0) / INR (mels + 2 - 1)))))
    by lia.
  apply mel_to_hz_increasing.
  rewrite hz_to_mel_0.
  assert (Hhigh : 0 < hz_to_mel (IZR sr / 2)).
  { apply hz_to_mel_pos. assert (0 < IZR sr) by (apply IZR_lt; exact Hsr). lra. }
  assert (Hn : 0 < INR (mels + 2 - 1)) by (apply lt_0_INR; lia).
  assert (Hstep : 0 < (hz_to_mel (IZR sr / 2) - 0) / INR (mels + 2 - 1)).
  { apply Rdiv_lt_0_compat; lra. }
  assert (Hlt : INR i < INR j) by (apply lt_INR; exact Hij).
  nra.
Qed.

Lemma mel_filterbank_weights (sr : Z) (mels bins : nat) :
  (0 < sr)%Z ->
  length (create_mel_filterbank sr mels bins) = mels
  /\ Forall (fun row => length row = bins /\ Forall (fun w => 0 <= w) row)
            (create_mel_filterbank sr mels bins).
Proof.
  intros Hsr. split; [apply create_mel_filterbank_length |].
  unfold create_mel_filterbank.
  apply Forall_forall. intros row Hrow.
  apply in_map_iff in Hrow. destruct Hrow as [i [<- Hi]].
  apply in_seq in Hi.
  split; [rewrite length_map, length_seq; reflexivity |].
  apply Forall_forall. intros w Hw.
  apply in_map_iff in Hw. destruct Hw as [j [<- _]].
  pose proof (hz_points_increasing sr mels i (i + 2) Hsr ltac:(lia) ltac:(lia)) as Hinc.
  apply Rmult_le_pos.
  - destruct (_ && _)%bool; [| lra].
    destruct (_ && _)%bool; [apply linspace_rising_nonneg |].
    destruct (_ && _)%bool; [apply linspace_falling_nonneg | lra].
  - left. apply Rdiv_lt_0_compat; lra.
Qed.

(** X23: for a positive sample rate the band edges of the mel filter bank,
    in Hz, are strictly increasing, the bank has [n_mels] rows of
    [n_fft_bins] weights each, and no weight is negative. *)
Theorem mel_filterbank_nonnegative (sr : Z) (mels bins : nat) :
  (0 < sr)%Z ->
  (forall i j, (i < j)%nat -> (j < mels + 2)%nat ->
     nth i (map mel_to_hz
              (npf.linspace (hz_to_mel 0) (hz_to_mel (IZR sr / 2)) (mels + 2))) 0
     < nth j (map mel_to_hz
                (npf.linspace (hz_to_mel 0) (hz_to_mel (IZR sr / 2)) (mels + 2))) 0)
  /\ length (create_mel_filterbank sr mels bins) = mels
  /\ Forall (fun row => length row = bins /\ Forall (fun w => 0 <= w) row)
            (create_mel_filterbank sr mels bins).
Proof.
  intros Hsr. split; [| apply mel_filterbank_weights; exact Hsr].
  intros i j Hij Hj. apply hz_points_increasing; assumption.
Qed.

Lemma mel_filterbank_nonnegative_witness :
  length (create_mel_filterbank 22050 64 513) = 64%nat
  /\ Forall (fun row => length row = 513%nat /\ Forall (fun w => 0 <= w) row)
            (create_mel_filterbank 22050 64 513).
Proof. apply (proj2 (mel_filterbank_nonnegative 22050 64 513 ltac:(lia))). Defined.

End Filterbank.

Section FiniteFeatures.

Import audio_processor.

Lemma nonnegative_finite (x : float) : nonnegative x -> finite x.
Proof. intros [r [-> _]]. exists r. reflexivity. Qed.

Lemma finite_zero : finite (Num 0).
Proof. exists 0. reflexivity. Qed.

Lemma nonnegative_zero : nonnegative (Num 0).
Proof. exists 0. split; [reflexivity | lra]. Qed.

Lemma finite_nth (xs : list float) (i : nat) :
  Forall finite xs -> finite (nth i xs (Num 0)).
Proof.
  intros H. destruct (nth_in_or_default i xs (Num 0)) as [Hin | ->];
    [exact (proj1 (Forall_forall _ _) H _ Hin) | apply finite_zero].
Qed.

Lemma nonnegative_nth (xs : list float) (i : nat) :
  Forall nonnegative xs -> nonnegative (nth i xs (Num 0)).
Proof.
  intros H. destruct (nth_in_or_default i xs (Num 0)) as [Hin | ->];
    [exact (proj1 (Forall_forall _ _) H _ Hin) | apply nonnegative_zero].
Qed.

Lemma sum_finite (xs : list float) : Forall finite xs -> finite (npf.sum xs).
Proof.
  induction 1 as [| x xs [r ->] _ [s IH]]; [apply finite_zero |].
  cbn [npf.sum fold_right] in *. fold (npf.sum xs). rewrite IH.
  eexists. reflexivity.
Qed.

Lemma sum_nonnegative (xs : list float) :
  Forall nonnegative xs -> nonnegative (npf.sum xs).
Proof.
  induction 1 as [| x xs [r [-> Hr]] _ [s [IH Hs]]]; [apply nonnegative_zero |].
  cbn [npf.sum fold_right] in *. fold (npf.sum xs). rewrite IH.
  eexists. split; [reflexivity | lra].
Qed.

Lemma Forall_firstn {A : Type} (P : A -> Prop) (n : nat) (xs : list A) :
  Forall P xs -> Forall P (firstn n xs).
Proof.
  intros H. rewrite <- (firstn_skipn n xs) in H.
  apply Forall_app in H. exact (proj1 H).
Qed.

Lemma Forall_skipn {A : Type} (P : A -> Prop) (n : nat) (xs : list A) :
  Forall P xs -> Forall P (skipn n xs).
Proof.
  intros H. rewrite <- (firstn_skipn n xs) in H.
  apply Forall_app in H. exact (proj2 H).
Qed.

Lemma preprocess_audio_finite (y : list float) (sr : Z) :
  Forall finite y -> Forall finite (preprocess_audio y sr).
Proof.
  intros H. unfold preprocess_audio.
  destruct (_ <? _)%Z.
  - apply Forall_app. split; [exact H |].
    apply Forall_forall. intros x Hx. apply repeat_spec in Hx. subst x.
    apply finite_zero.
  - apply Forall_firstn. exact H.
Qed.

Lemma mean_of_finite (seg : list float) :
  Forall finite seg -> seg <> [] ->
  finite (fdiv (npf.sum seg) (Num (INR (length seg)))).
Proof.
  intros H Hne. destruct (sum_finite seg H) as [s ->].
  unfold fdiv. destruct (Req_dec_T _ _) as [E | _]; [| eexists; reflexivity].
  exfalso. destruct seg; [contradiction |].
  apply (not_0_INR (length (f :: seg))); [discriminate | exact E].
Qed.

Lemma dft_magnitude_nonnegative (xs : list float) (f : nat) :
  Forall finite xs -> nonnegative (npf.dft_magnitude xs f).
Proof.
  intros H. unfold npf.dft_magnitude.
  assert (Hsum : forall g : nat -> R,
             finite (npf.sum (map (fun '(k, x) => fmul x (Num (g k)))
                                  (combine (seq 0 (length xs)) xs)))).
  { intros g. apply sum_finite. apply Forall_forall. intros c Hc.
    apply in_map_iff in Hc. destruct Hc as [[k x] [<- Hin]].
    apply in_combine_r in Hin.
    destruct (proj1 (Forall_forall _ _) H x Hin) as [r ->].
    eexists. reflexivity. }
  destruct (Hsum (fun k => cos (2 * PI * INR f * INR k / INR (length xs)))) as [re ->].
  destruct (Hsum (fun k => sin (2 * PI * INR f * INR k / INR (length xs)))) as [im ->].
  cbn [fmul fadd lift2 fsqrt].
  destruct (Rlt_dec (re * re + im * im) 0) as [L | _]; [exfalso; nra |].
  eexists. split; [reflexivity | apply sqrt_pos].
Qed.

Lemma spectrogram_nonnegative (x : list float) (fs : Z) (nperseg noverlap : nat)
  (Sxx : matrix) :
  Forall finite x ->
  npf.spectrogram x fs nperseg noverlap = Ok Sxx ->
  Forall (Forall nonnegative) Sxx.
Proof.
  intros H. unfold npf.spectrogram.
  destruct (_ =? _)%nat; [discriminate |].
  destruct (_ <=? _)%nat; [discriminate |].
  intros E. apply Ok_inj in E. subst Sxx.
  apply Forall_forall. intros row Hrow.
  apply in_map_iff in Hrow. destruct Hrow as [f [<- _]].
  apply Forall_forall. intros cell Hcell.
  apply in_map_iff in Hcell. destruct Hcell as [t [<- _]].
  match goal with
  | |- nonnegative (fmul (npf.dft_magnitude ?w f) (Num ?scale)) =>
      assert (Hw : Forall finite w); [| destruct (dft_magnitude_nonnegative w f Hw)
                                          as [m [-> Hm]]]
  end.
  - apply Forall_forall. intros c Hc.
    apply in_map_iff in Hc. destruct Hc as [[w s] [<- Hin]].
    apply in_combine_r in Hin.
    apply in_map_iff in Hin. destruct Hin as [s0 [<- Hs0]].
    match type of Hs0 with
    | In s0 ?seg =>
        assert (Hseg : Forall finite seg)
          by (apply Forall_firstn, Forall_skipn; exact H);
        assert (Hne : seg <> []) by (intros E; rewrite E in Hs0; destruct Hs0);
        destruct (mean_of_finite seg Hseg Hne) as [mu ->];
        destruct (proj1 (Forall_forall _ _) Hseg s0 Hs0) as [r ->]
    end.
    eexists. reflexivity.
  - eexists. split; [reflexivity |].
    apply Rmult_le_pos; [exact Hm | apply sqrt_pos].
Qed.

Lemma linear_to_mel_nonnegative (Sxx : matrix) (sr : Z) (mels : nat) :
  (0 < sr)%Z -> Forall (Forall nonnegative) Sxx ->
  Forall (Forall nonnegative) (linear_to_mel Sxx sr mels).
Proof.
  intros Hsr H. unfold linear_to_mel, npf.dot.
  destruct (mel_filterbank_weights sr mels (length Sxx) Hsr) as [_ Hw].
  apply Forall_forall. intros out Hout.
  apply in_map_iff in Hout. destruct Hout as [row [<- Hrow]].
  destruct (proj1 (Forall_forall _ _) Hw row Hrow) as [_ Hpos].
  apply Forall_forall. intros cell Hcell.
  apply in_map_iff in Hcell. destruct Hcell as [t [<- _]].
  apply sum_nonnegative. apply Forall_forall. intros c Hc.
  apply in_map_iff in Hc. destruct Hc as [[w brow] [<- Hin]].
  pose proof (proj1 (Forall_forall _ _) Hpos w (in_combine_l _ _ _ _ Hin)) as Hw0.
  pose proof (proj1 (Forall_forall _ _) H brow (in_combine_r _ _ _ _ Hin)) as Hb.
  destruct (nonnegative_nth brow t Hb) as [r [-> Hr]].
  eexists. split; [reflexivity |]. apply Rmult_le_pos; assumption.
Qed.

Lemma to_db_finite (m : matrix) :
  Forall (Forall nonnegative) m -> Forall (Forall finite) (to_db m).
Proof.
  intros H. unfold to_db.
  apply Forall_forall. intros out Hout.
  apply in_map_iff in Hout. destruct Hout as [row [<- Hrow]].
  apply Forall_forall. intros cell Hcell.
  apply in_map_iff in Hcell. destruct Hcell as [x [<- Hx]].
  destruct (proj1 (Forall_forall _ _)
              (proj1 (Forall_forall _ _) H row Hrow) x Hx) as [r [-> Hr]].
  cbn [fadd lift2 flog10].
  destruct (Rlt_dec 0 (r + 1e-10)) as [_ | N]; [| exfalso; lra].
  eexists. reflexivity.
Qed.

Lemma interpolate_finite (input : matrix) (r c : R) :
  Forall (Forall finite) input -> finite (npf.interpolate input r c).
Proof.
  intros H. unfold npf.interpolate.
  assert (Hcell : forall a b, finite (nth b (nth a input []) (Num 0))).
  { intros a b. apply finite_nth.
    destruct (nth_in_or_default a input []) as [Hin | ->];
      [exact (proj1 (Forall_forall _ _) H _ Hin) | constructor]. }
  destruct (Hcell (Z.to_nat (Zfloor r)) (Z.to_nat (Zfloor c))) as [c00 ->].
  destruct (Hcell (Z.to_nat (Zfloor r)) (S (Z.to_nat (Zfloor c)))) as [c01 ->].
  destruct (Hcell (S (Z.to_nat (Zfloor r))) (Z.to_nat (Zfloor c))) as [c10 ->].
  destruct (Hcell (S (Z.to_nat (Zfloor r))) (S (Z.to_nat (Zfloor c)))) as [c11 ->].
  eexists. reflexivity.
Qed.

Lemma zoom_finite (input : matrix) (factor : R * R) :
  Forall (Forall finite) input -> Forall (Forall finite) (npf.zoom input factor).
Proof.
  intros H. unfold npf.zoom.
  apply Forall_forall. intros row Hrow.
  apply in_map_iff in Hrow. destruct Hrow as [i [<- _]].
  apply Forall_forall. intros cell Hcell.
  apply in_map_iff in Hcell. destruct Hcell as [j [<- _]].
  apply interpolate_finite. exact H.
Qed.

Lemma resize_to_target_finite (features resized : matrix) (target : nat) :
  Forall (Forall finite) features ->
  resize_to_target features target = Ok resized ->
  Forall (Forall finite) resized.
Proof.
  intros H. unfold resize_to_target.
  destruct (_ =? _)%nat; [intros E; apply Ok_inj in E; subst; exact H |].
  destruct (_ =? _)%nat; [discriminate |].
  pose proof (zoom_finite features
                (1, INR target / INR (npf.shape1 features)) H) as Hz.
  destruct (_ <? _)%nat; [| destruct (_ <? _)%nat];
    intros E; apply Ok_inj in E; subst resized.
  - apply Forall_forall. intros row Hrow.
    apply in_map_iff in Hrow. destruct Hrow as [row0 [<- Hin]].
    apply Forall_firstn. exact (proj1 (Forall_forall _ _) Hz _ Hin).
  - apply Forall_forall. intros row Hrow.
    apply in_map_iff in Hrow. destruct Hrow as [row0 [<- Hin]].
    pose proof (proj1 (Forall_forall _ _) Hz _ Hin) as Hrow0.
    apply Forall_app. split; [exact Hrow0 |].
    apply Forall_forall. intros x Hx.
    apply in_concat in Hx. destruct Hx as [xs [Hxs Hx]].
    apply in_map_iff in Hxs. destruct Hxs as [x0 [<- Hx0]].
    apply repeat_spec in Hx. subst x.
    exact (proj1 (Forall_forall _ _) (Forall_skipn _ _ _ Hrow0) _ Hx0).
  - exact Hz.
Qed.

Lemma normalize_finite (m : matrix) :
  Forall (Forall finite) m -> Forall (Forall finite) (normalize m).
Proof.
  intros H. unfold normalize.
  apply Forall_forall. intros out Hout.
  apply in_map_iff in Hout. destruct Hout as [row [<- Hrow]].
  apply Forall_forall. intros cell Hcell.
  apply in_map_iff in Hcell. destruct Hcell as [x [<- Hx]].
  assert (Hcells : Forall finite (concat m)) by (apply Forall_concat; exact H).
  assert (Hne : concat m <> []).
  { intros E. assert (Hin : In x (concat m))
      by (apply in_concat; exists row; split; assumption).
    rewrite E in Hin. destruct Hin. }
  assert (Hn : INR (length (concat m)) <> 0).
  { apply not_0_INR. destruct (concat m); [contradiction | discriminate]. }
  assert (Hn' : 0 < INR (length (concat m))).
  { apply lt_0_INR. destruct (concat m); [contradiction | cbn; lia]. }
  destruct (mean_of_finite _ Hcells Hne) as [mu Hmu].
  unfold npf.std, npf.mean. rewrite Hmu.
  assert (Hsq : nonnegative
                  (npf.sum (map (fun x => fmul (fsub x (Num mu)) (fsub x (Num mu)))
                                (concat m)))).
  { apply sum_nonnegative. apply Forall_forall. intros c Hc.
    apply in_map_iff in Hc. destruct Hc as [x0 [<- Hx0]].
    destruct (proj1 (Forall_forall _ _) Hcells _ Hx0) as [r ->].
    eexists. split; [reflexivity | apply Rle_0_sqr]. }
  destruct Hsq as [q [-> Hq]].
  destruct (proj1 (Forall_forall _ _) (proj1 (Forall_forall _ _) H row Hrow) x Hx)
    as [r ->].
  cbn [fdiv fsub lift2].
  destruct (Req_dec_T (INR (length (concat m))) 0) as [E | _]; [contradiction |].
  cbn [fsqrt].
  assert (Hv : 0 <= q / INR (length (concat m))).
  { unfold Rdiv. apply Rmult_le_pos; [exact Hq | left; apply Rinv_0_lt_compat; exact Hn']. }
  destruct (Rlt_dec (q / INR (length (concat m))) 0) as [L | _]; [exfalso; lra |].
  cbn [fadd lift2 fdiv].
  pose proof (sqrt_pos (q / INR (length (concat m)))) as Hs.
  destruct (Req_dec_T (sqrt (q / INR (length (concat m))) + 1e-8) 0) as [E | _];
    [exfalso; lra |].
  eexists. reflexivity.
Qed.

Lemma finite_is_nan (x : float) : finite x <-> is_nan x = false.
Proof.
  split; [intros [r ->]; reflexivity |].
  destruct x; [intros _; eexists; reflexivity | discriminate].
Qed.

Lemma features_before_normalisation_finite (y : list float) (sr : Z)
  (Sxx resized : matrix) :
  (257 <= sr)%Z ->
  Forall finite y ->
  npf.spectrogram (preprocess_audio y sr) sr n_fft (n_fft - hop_length) = Ok Sxx ->
  (if negb (npf.shape1 (to_db (linear_to_mel Sxx sr n_mels)) =? expected_time_frames)%nat
   then resize_to_target (to_db (linear_to_mel Sxx sr n_mels)) expected_time_frames
   else Ok (to_db (linear_to_mel Sxx sr n_mels))) = Ok resized ->
  Forall (Forall finite) resized.
Proof.
  intros Hsr Hfin HS HR.
  assert (Hdb : Forall (Forall finite) (to_db (linear_to_mel Sxx sr n_mels))).
  { apply to_db_finite, linear_to_mel_nonnegative; [lia |].
    apply (spectrogram_nonnegative _ _ _ _ _ (preprocess_audio_finite y sr Hfin) HS). }
  destruct (negb _).
  - exact (resize_to_target_finite _ _ _ Hdb HR).
  - apply Ok_inj in HR. subst resized. exact Hdb.
Qed.

(** X24: a waveform without a non-finite sample gives features without a
    non-finite cell: for a sample rate of at least 257 Hz, whatever the
    samples (silence included), no step takes the logarithm of a number
    that is not positive or divides by zero, and every cell of the tensor
    that [extract_features] returns is a number. *)
Theorem finite_waveform_finite_features (y : list float) (sr : Z) :
  (257 <= sr)%Z ->
  Forall (fun x => is_nan x = false) y ->
  exists mel : matrix,
    extract_features y sr = Ok {| dt := float32; data := [mel; mel; mel] |}
    /\ Forall (Forall (fun x => is_nan x = false)) mel.
Proof.
  intros Hsr Hy.
  assert (Hfin : Forall finite y).
  { eapply Forall_impl; [| exact Hy]. intros x. apply finite_is_nan. }
  destruct (extract_features_ok y sr Hsr) as (Sxx & resized & HS & HR & _ & E).
  exists (normalize resized). split; [exact E |].
  pose proof (features_before_normalisation_finite y sr Sxx resized Hsr Hfin HS HR)
    as Hres.
  eapply Forall_impl; [| exact (normalize_finite _ Hres)].
  intros row Hrow. eapply Forall_impl; [| exact Hrow].
  intros x. apply finite_is_nan.
Qed.

Lemma finite_waveform_finite_features_witness :
  exists mel : matrix,
    extract_features (repeat (Num 0) 10) 22050
    = Ok {| dt := float32; data := [mel; mel; mel] |}
    /\ Forall (Forall (fun x => is_nan x = false)) mel.
Proof.
  apply finite_waveform_finite_features; [lia |].
  repeat constructor.
Defined.

End FiniteFeatures.

Section Resampling.

Import audio_processor.

(** X25: [resample_audio] reports every failure with the prefix
    "Resampling failed: ": a source rate of 0 as a division by zero, and an
    error of the resampling routine with its own message. *)
Theorem resample_failure_is_wrapped
  (signal_resample : list float -> Z -> result (list float))
  (audio_data : list float) (orig_sr target_sr : Z) :
  (orig_sr = 0%Z ->
   resample_audio signal_resample audio_data orig_sr target_sr
   = Raise "Resampling failed: division by zero")
  /\ (forall e,
        resample_audio signal_resample audio_data orig_sr target_sr = Raise e ->
        exists e', e = ("Resampling failed: " ++ e')%string)
  /\ (forall resampled,
        resample_audio signal_resample audio_data orig_sr target_sr = Ok resampled ->
        orig_sr <> 0%Z
        /\ exists new_length, signal_resample audio_data new_length = Ok resampled).
Proof.
  unfold resample_audio. split; [| split].
  - intros ->. reflexivity.
  - intros e.
    destruct (if (orig_sr =? 0)%Z then _ else _) as [r | e1]; [discriminate |].
    intros H. injection H as <-. exists e1. reflexivity.
  - intros resampled.
    destruct (Z.eqb_spec orig_sr 0) as [E | E]; [discriminate |].
    destruct (signal_resample audio_data _) as [r | e1] eqn:Er; [| discriminate].
    intros H. apply Ok_inj in H. subst r.
    split; [exact E |]. eexists. exact Er.
Qed.

Lemma resample_failure_is_wrapped_witness :
  resample_audio (fun xs _ => Ok xs) [Num 1; Num 2] 0 22050
  = Raise "Resampling failed: division by zero".
Proof.
  apply (proj1 (resample_failure_is_wrapped (fun xs _ => Ok xs) [Num 1; Num 2] 0 22050)).
  reflexivity.
Defined.

End Resampling.

Section Normalisation.

Import audio_processor.

Lemma sum_centred (rs : list R) (mu d : R) :
  np.sum (map (fun r => (r - mu) / d) rs) = (np.sum rs - INR (length rs) * mu) / d.
Proof.
  induction rs as [| r rs IH].
  - cbn. unfold Rdiv. ring.
  - cbn [map np.sum fold_right length] in *. fold (np.sum rs).
    fold (np.sum (map (fun r => (r - mu) / d) rs)).
    rewrite IH, S_INR. unfold Rdiv. ring.
Qed.

Lemma sum_Num_map (g : R -> R) (rs : list R) :
  npf.sum (map (fun r => Num (g r)) rs) = Num (np.sum (map g rs)).
Proof.
  induction rs as [| r rs IH]; [reflexivity |].
  cbn [npf.sum fold_right map np.sum] in *.
  fold (npf.sum (map (fun r => Num (g r)) rs)). rewrite IH. reflexivity.
Qed.

(** What [normalize] computes on a matrix of numbers with at least one
    cell: every cell is centred on the mean and divided by the standard
    deviation plus 1e-8. *)
Lemma normalize_numbers (m : matrix) (rs : list R) :
  concat m = map Num rs -> rs <> [] ->
  exists sigma,
    0 <= sigma
    /\ concat (normalize m)
       = map (fun r => Num ((r - np.sum rs / INR (length rs)) / (sigma + 1e-8))) rs.
Proof.
  intros Hc Hne.
  assert (Hn : 0 < INR (length rs)).
  { apply lt_0_INR. destruct rs; [contradiction | cbn; lia]. }
  assert (Hsum : npf.sum (map Num rs) = Num (np.sum rs)).
  { exact (eq_trans (sum_Num_map (fun r => r) rs) (f_equal (fun l => Num (np.sum l)) (map_id rs))). }
  assert (Hmean : npf.mean m = Num (np.sum rs / INR (length rs))).
  { unfold npf.mean. cbv zeta. rewrite Hc, Hsum, length_map. unfold fdiv.
    destruct (Req_dec_T _ _) as [E | _]; [exfalso; lra | reflexivity]. }
  set (mu := np.sum rs / INR (length rs)) in *.
  assert (Hstd : exists sigma, 0 <= sigma /\ npf.std m = Num sigma).
  { unfold npf.std. cbv zeta. rewrite Hmean, Hc, length_map, map_map.
    change (map (fun x => fmul (fsub (Num x) (Num mu)) (fsub (Num x) (Num mu))) rs)
      with (map (fun r => Num ((r - mu) * (r - mu))) rs).
    rewrite (sum_Num_map (fun r => (r - mu) * (r - mu)) rs). unfold fdiv.
    destruct (Req_dec_T _ _) as [E | _]; [exfalso; lra |].
    assert (Hq : 0 <= np.sum (map (fun r => (r - mu) * (r - mu)) rs)
                      / INR (length rs)).
    { unfold Rdiv. apply Rmult_le_pos;
        [apply sum_map_nonneg; intros r; apply Rle_0_sqr
        | left; apply Rinv_0_lt_compat; exact Hn]. }
    cbn [fsqrt]. destruct (Rlt_dec _ 0) as [L | _]; [exfalso; lra |].
    eexists. split; [apply sqrt_pos | reflexivity]. }
  destruct Hstd as [sigma [Hs Hstd]].
  exists sigma. split; [exact Hs |].
  unfold normalize. cbv zeta. rewrite Hmean, Hstd.
  rewrite <- concat_map.
  rewrite Hc, map_map. apply map_ext. intros r.
  cbn [fsub fadd lift2 fdiv].
  destruct (Req_dec_T (sigma + 1e-8) 0) as [E | _]; [exfalso; lra | reflexivity].
Qed.

Lemma shape_cells (m : matrix) (rows cols : nat) :
  shape_is m rows cols -> length (concat m) = (rows * cols)%nat.
Proof.
  intros [Hrows Hcols]. subst rows.
  induction Hcols as [| row m Hrow _ IH]; [reflexivity |].
  cbn [concat length]. rewrite length_app, Hrow, IH. reflexivity.
Qed.

Lemma numbers_of_finite (xs : list float) :
  Forall finite xs -> exists rs, xs = map Num rs.
Proof.
  induction 1 as [| x xs [r ->] _ [rs ->]]; [exists []; reflexivity |].
  exists (r :: rs). reflexivity.
Qed.

(** X26: the features are centred: for a waveform of finite samples and a
    sample rate of at least 257 Hz, the mean over all cells of each channel
    of the tensor returned by [extract_features] is 0, in exact
    arithmetic. *)
Theorem features_have_zero_mean (y : list float) (sr : Z) :
  (257 <= sr)%Z ->
  Forall (fun x => is_nan x = false) y ->
  exists mel : matrix,
    extract_features y sr = Ok {| dt := float32; data := [mel; mel; mel] |}
    /\ npf.mean mel = Num 0.
Proof.
  intros Hsr Hy.
  assert (Hfin : Forall finite y).
  { eapply Forall_impl; [| exact Hy]. intros x. apply finite_is_nan. }
  destruct (extract_features_ok y sr Hsr) as (Sxx & resized & HS & HR & Hshape & E).
  exists (normalize resized). split; [exact E |].
  assert (Hres : Forall (Forall finite) resized).
  { apply (features_before_normalisation_finite y sr Sxx resized); assumption. }
  destruct (numbers_of_finite (concat resized)) as [rs Hrs];
    [apply Forall_concat; exact Hres |].
  assert (Hlen : length rs = (64 * 259)%nat).
  { rewrite <- (length_map Num rs), <- Hrs. apply shape_cells. exact Hshape. }
  assert (Hne : rs <> []) by (intros ->; discriminate Hlen).
  destruct (normalize_numbers resized rs Hrs Hne) as [sigma [Hs Hn]].
  unfold npf.mean. cbv zeta. rewrite Hn.
  rewrite (sum_Num_map (fun r => (r - np.sum rs / INR (length rs)) / (sigma + 1e-8)) rs).
  rewrite sum_centred, length_map. unfold fdiv.
  assert (Hpos : 0 < INR (length rs)).
  { apply lt_0_INR. destruct rs; [contradiction | cbn; lia]. }
  destruct (Req_dec_T _ _) as [E0 | _]; [exfalso; lra |].
  f_equal. field. split; lra.
Qed.

Lemma features_have_zero_mean_witness :
  exists mel : matrix,
    extract_features (repeat (Num 0) 10) 22050
    = Ok {| dt := float32; data := [mel; mel; mel] |}
    /\ npf.mean mel = Num 0.
Proof.
  apply features_have_zero_mean; [lia |].
  repeat constructor.
Defined.

End Normalisation.

Section Gain.

Import app.

Lemma fold_left_Rmax_scaled (k : R) (xs : list R) :
  0 <= k ->
  forall x, fold_left Rmax (map (Rmult k) xs) (k * x) = k * fold_left Rmax xs x.
Proof.
  intros Hk. induction xs as [| y xs IH]; intros x; [reflexivity |].
  cbn [map fold_left]. rewrite RmaxRmult by exact Hk. apply IH.
Qed.

Lemma max_scaled (k : R) (xs : list R) (peak : R) :
  0 <= k -> np.max xs = Ok peak -> np.max (map (Rmult k) xs) = Ok (k * peak).
Proof.
  intros Hk. destruct xs as [| x xs]; [discriminate |].
  cbn [np.max map]. intros H. apply Ok_inj in H. subst peak.
  rewrite fold_left_Rmax_scaled by exact Hk. reflexivity.
Qed.

Lemma abs_scaled (k : R) (frames : list (list R)) :
  0 <= k ->
  map Rabs (np.flatten (map (map (Rmult k)) frames))
  = map (Rmult k) (map Rabs (np.flatten frames)).
Proof.
  intros Hk. unfold np.flatten. rewrite <- concat_map, !map_map.
  apply map_ext. intros x. rewrite Rabs_mult, (Rabs_pos_eq k Hk). reflexivity.
Qed.

Lemma normalized_scaled (k peak : R) (frames : list (list R)) :
  k <> 0 -> peak <> 0 ->
  map (map (fun x => x / (k * peak))) (map (map (Rmult k)) frames)
  = map (map (fun x => x / peak)) frames.
Proof.
  intros Hk Hp. rewrite map_map. apply map_ext. intros row.
  rewrite map_map. apply map_ext. intros x. field. split; assumption.
Qed.

(** X27: the delays do not depend on the recording level: multiplying every
    sample of a waveform that is not identically zero by the same positive
    gain leaves the answer of [calculate_tdoa_enhanced] unchanged, in exact
    arithmetic. *)
Theorem calculate_tdoa_enhanced_gain (channels : nat) (frames : list (list R))
  (sr : Z) (k : R) :
  0 < k ->
  (exists row x, In row frames /\ In x row /\ x <> 0) ->
  calculate_tdoa_enhanced (np.Arr2 channels (map (map (Rmult k)) frames)) sr
  = calculate_tdoa_enhanced (np.Arr2 channels frames) sr.
Proof.
  intros Hk (row & x & Hrow & Hx & Hx0).
  unfold calculate_tdoa_enhanced.
  destruct (channels <? 3)%nat; [reflexivity |].
  assert (Hflat : In (Rabs x) (map Rabs (np.flatten frames))).
  { apply in_map. unfold np.flatten. apply in_concat. exists row. split; assumption. }
  destruct (max_nonempty (map Rabs (np.flatten frames))) as [peak Hpeak].
  { intros E. rewrite E in Hflat. contradiction. }
  assert (Hpos : 0 < peak).
  { pose proof (max_ge _ _ Hpeak _ Hflat). pose proof (Rabs_pos_lt x Hx0). lra. }
  rewrite abs_scaled by lra.
  rewrite (max_scaled k _ peak ltac:(lra) Hpeak), Hpeak. cbn [bind].
  rewrite normalized_scaled by lra. reflexivity.
Qed.

Lemma calculate_tdoa_enhanced_gain_witness :
  calculate_tdoa_enhanced
    (np.Arr2 3 (map (map (Rmult 2)) [[0; 1; 1]; [1; 0; 0]])) 1
  = calculate_tdoa_enhanced (np.Arr2 3 [[0; 1; 1]; [1; 0; 0]]) 1.
Proof.
  apply calculate_tdoa_enhanced_gain; [lra |].
  exists [0; 1; 1], 1. split; [left; reflexivity |].
  split; [right; left; reflexivity | lra].
Defined.

End Gain.

Section Offset.

Import audio_processor.

Lemma sum_shifted (c : R) (rs : list R) :
  np.sum (map (fun r => c + r) rs) = INR (length rs) * c + np.sum rs.
Proof.
  induction rs as [| r rs IH]; [cbn; ring |].
  cbn [map np.sum fold_right length] in *. fold (np.sum rs).
  fold (np.sum (map (fun r => c + r) rs)). rewrite IH, S_INR. ring.
Qed.

(** Removing the mean of a segment removes a constant added to it. *)
Lemma detrend_offset (c : R) (seg : list float) :
  Forall finite seg ->
  map (fun s => fsub s (fdiv (npf.sum (map (fadd (Num c)) seg))
                             (Num (INR (length (map (fadd (Num c)) seg))))))
      (map (fadd (Num c)) seg)
  = map (fun s => fsub s (fdiv (npf.sum seg) (Num (INR (length seg))))) seg.
Proof.
  intros H. destruct (numbers_of_finite seg H) as [rs ->].
  destruct rs as [| r0 rs]; [reflexivity |].
  set (l := r0 :: rs).
  assert (Hn : 0 < INR (length l)) by (apply lt_0_INR; cbn; lia).
  rewrite !map_map, !length_map.
  change (map (fun x => fadd (Num c) (Num x)) l) with (map (fun r => Num (c + r)) l).
  rewrite (sum_Num_map (fun r => c + r) l), sum_shifted.
  assert (Hs : npf.sum (map Num l) = Num (np.sum l)).
  { exact (eq_trans (sum_Num_map (fun r => r) l)
                    (f_equal (fun l => Num (np.sum l)) (map_id l))). }
  rewrite Hs. unfold fdiv.
  destruct (Req_dec_T (INR (length l)) 0) as [E | _]; [exfalso; lra |].
  apply map_ext. intros r. unfold fsub, fadd. cbn [lift2]. f_equal. field. lra.
Qed.

Lemma spectrogram_offset (c : R) (x : list float) (fs : Z) (nperseg noverlap : nat) :
  Forall finite x ->
  npf.spectrogram (map (fadd (Num c)) x) fs nperseg noverlap
  = npf.spectrogram x fs nperseg noverlap.
Proof.
  intros H. unfold npf.spectrogram. rewrite length_map.
  destruct (_ =? _)%nat; [reflexivity |].
  destruct (_ <=? _)%nat; [reflexivity |].
  f_equal. apply map_ext. intros f. apply map_ext. intros t.
  do 4 f_equal.
  rewrite skipn_map, firstn_map.
  apply detrend_offset. apply Forall_firstn, Forall_skipn. exact H.
Qed.

(** X28: a constant offset of the microphone does not change the features
    of a recording of at least three seconds: every window of the
    spectrogram has its mean removed, so for finite samples and any
    constant [c], [extract_features] returns the same result on the
    waveform and on the waveform with [c] added to every sample, in exact
    arithmetic. *)
Theorem offset_does_not_change_features (y : list float) (sr : Z) (c : R) :
  (0 < sr)%Z ->
  Forall (fun x => is_nan x = false) y ->
  (3 * sr <= Z.of_nat (length y))%Z ->
  extract_features (map (fadd (Num c)) y) sr = extract_features y sr.
Proof.
  intros Hsr Hy Hlen.
  assert (Hfin : Forall finite y).
  { eapply Forall_impl; [| exact Hy]. intros x. apply finite_is_nan. }
  assert (Hp : preprocess_audio (map (fadd (Num c)) y) sr
               = map (fadd (Num c)) (preprocess_audio y sr)).
  { unfold preprocess_audio. rewrite length_map, target_samples_eq.
    destruct (Z.ltb_spec (Z.of_nat (length y)) (3 * sr)) as [L | _]; [lia |].
    apply firstn_map. }
  unfold extract_features. rewrite Hp, spectrogram_offset; [reflexivity |].
  apply preprocess_audio_finite. exact Hfin.
Qed.

Lemma offset_does_not_change_features_witness :
  extract_features (map (fadd (Num 5)) (repeat (Num 1) 771)) 257
  = extract_features (repeat (Num 1) 771) 257.
Proof.
  apply offset_does_not_change_features.
  - lia.
  - apply Forall_forall. intros x Hx. apply repeat_spec in Hx. subst x. reflexivity.
  - rewrite repeat_length. lia.
Defined.

End Offset.
